(** * Cosine-similarity flash attention: example model, benchmark driver
      and the attention kernels

    The development follows the repository:
    - [Py]          the few Python/torch behaviours the sources rely on
                    (exceptions, slicing, [int()] on a float);
    - [Transformer] flash_cosine_sim_attention/transformer.py;
    - [Benchmark]   benchmark.py;
    - [Kernel]      the attention primitive of spec sections 4.1, 4.2, 4.5. *)

From Stdlib Require Import List ZArith Bool Lia Arith PeanoNat.
From Stdlib Require Import Floats Uint63.
From Stdlib Require Import QArith.
From Stdlib Require Import Reals Lra.
Import ListNotations.

Set Implicit Arguments.

(* ------------------------------------------------------------------ *)
(** * Python and torch conventions *)

Module Py.

(** The exceptions the modelled statements can raise. *)
Inductive exn : Type :=
| IndexError
| ValueError
| OverflowError
| ZeroDivisionError
| AssertionError
| RuntimeError
| OutOfMemoryError.

(** A statement either produces a value or raises. *)
Inductive result (A : Type) : Type :=
| Ok (a : A)
| Raise (e : exn).

Arguments Ok {A} a.
Arguments Raise {A} e.

Definition bind {A B} (r : result A) (k : A -> result B) : result B :=
  match r with
  | Ok a => k a
  | Raise e => Raise e
  end.

Notation "x <- c ;; k" := (bind c (fun x => k))
  (at level 61, c at next level, right associativity).

Definition is_ok {A} (r : result A) : bool :=
  match r with Ok _ => true | Raise _ => false end.

(** [mapM f l]: run [f] on the elements from left to right, stopping at the
    first one that raises. *)
Fixpoint mapM {A B} (f : A -> result B) (l : list A) : result (list B) :=
  match l with
  | [] => Ok []
  | a :: l' => b <- f a ;; bs <- mapM f l' ;; Ok (b :: bs)
  end.

(** [row[start:]] for a Python sequence: a negative [start] counts from the
    end, and the bound is clamped into [0, len]. *)
Definition slice_from {A} (start : Z) (row : list A) : list A :=
  let len := Z.of_nat (length row) in
  let s := if (start <? 0)%Z then Z.max 0 (start + len) else Z.min start len in
  skipn (Z.to_nat s) row.

(** [row[:stop]] for a Python sequence, with the same conventions. *)
Definition slice_to {A} (stop : Z) (row : list A) : list A :=
  let len := Z.of_nat (length row) in
  let e := if (stop <? 0)%Z then Z.max 0 (stop + len) else Z.min stop len in
  firstn (Z.to_nat e) row.

(** Two rows side by side, entry by entry (the batch dimension of two
    tensors). *)
Definition zip_with {A B C} (f : A -> B -> C) (l1 : list A) (l2 : list B) : list C :=
  map (fun p => f (fst p) (snd p)) (combine l1 l2).

(** [row[-1]]: the last element, [IndexError] on an empty sequence. *)
Definition last_item {A} (row : list A) : result A :=
  match rev row with
  | [] => Raise IndexError
  | a :: _ => Ok a
  end.

(** [int(f)] for a Python float (an IEEE binary64): truncation toward zero;
    [ValueError] on nan, [OverflowError] on an infinity. *)
Definition py_int (f : float) : result Z :=
  match Prim2SF f with
  | S754_zero _ => Ok 0%Z
  | S754_finite s m e =>
      let mag := match e with
                 | Z0 => Zpos m
                 | Zpos p => Z.shiftl (Zpos m) (Zpos p)
                 | Zneg p => Z.shiftr (Zpos m) (Zpos p)
                 end in
      Ok (if s then (- mag)%Z else mag)
  | S754_infinity _ => Raise OverflowError
  | S754_nan => Raise ValueError
  end.

(** A Python int used as a float operand (exact below 2^53). *)
Definition float_of_nat (n : nat) : float :=
  PrimFloat.of_uint63 (Uint63.of_Z (Z.of_nat n)).

(** A Python int held in a float tensor (exact below 2^53 in magnitude). *)
Definition float_of_Z (z : Z) : float :=
  if (z <? 0)%Z
  then PrimFloat.opp (PrimFloat.of_uint63 (Uint63.of_Z (- z)))
  else PrimFloat.of_uint63 (Uint63.of_Z z).

End Py.

Import Py.

Local Open Scope nat_scope.
Local Open Scope list_scope.

(* ------------------------------------------------------------------ *)
(** * flash_cosine_sim_attention/transformer.py *)

Module Transformer.

(** A logit is a float; the only float the sampler singles out is [-inf],
    so the other values are kept abstract in [F]. *)
Inductive logit (F : Type) : Type :=
| NegInf
| Val (x : F).

Arguments NegInf {F}.
Arguments Val {F} x.

Definition token := nat.

(** Size of the last dimension of a 2-D tensor held as a list of rows
    ([t.shape[-1]]); a tensor with no row is given width 0. *)
Definition shape_last {A} (t : list (list A)) : nat :=
  match t with
  | [] => 0
  | row :: _ => length row
  end.

(** [l[n] = a] on one row. *)
Fixpoint set_nth {A} (n : nat) (a : A) (l : list A) : list A :=
  match l, n with
  | [], _ => []
  | _ :: l', 0 => a :: l'
  | x :: l', S n' => x :: set_nth n' a l'
  end.

(** The default [thres = 0.9] of [top_k] and [filter_thres = 0.9] of
    [generate]: the binary64 nearest to 0.9. *)
Definition thres_default : float := 0x1.ccccccccccccdp-1%float.

Section TopK.

Variable F : Type.
(** The order [torch.topk] sorts by, on the values other than [-inf]. *)
Variable ltF : F -> F -> bool.

Definition lt_logit (a b : logit F) : bool :=
  match a, b with
  | _, NegInf => false
  | NegInf, Val _ => true
  | Val x, Val y => ltF x y
  end.

Definition entry (row : list (logit F)) (j : nat) : logit F := nth j row NegInf.

(** Index of a greatest entry among [best :: cands], the earliest one when
    several are equal. *)
Fixpoint argmax_from (row : list (logit F)) (best : nat) (cands : list nat) : nat :=
  match cands with
  | [] => best
  | c :: cs =>
      if lt_logit (entry row best) (entry row c)
      then argmax_from row c cs
      else argmax_from row best cs
  end.

(** Indices of the [k] greatest entries of [row] among [cands], greatest
    first. *)
Fixpoint topk_indices (row : list (logit F)) (k : nat) (cands : list nat) : list nat :=
  match k, cands with
  | S k', c :: cs =>
      let m := argmax_from row c cs in
      m :: topk_indices row k' (remove Nat.eq_dec m cands)
  | _, _ => []
  end.

(** [torch.topk(logits, k)] along the last dimension of a 2-D tensor: values
    and indices of the [k] largest entries of each row; [k] outside
    [0, logits.shape[-1]] is rejected. *)
Definition torch_topk (logits : list (list (logit F))) (k : Z)
  : result (list (list (logit F)) * list (list nat)) :=
  if ((k <? 0)%Z || (Z.of_nat (shape_last logits) <? k)%Z)%bool
  then Raise RuntimeError
  else
    let ind := map (fun row => topk_indices row (Z.to_nat k) (seq 0 (length row))) logits in
    let val := map (fun ri => map (entry (fst ri)) (snd ri)) (combine logits ind) in
    Ok (val, ind).

(** [torch.full_like(logits, float('-inf'))]. *)
Definition full_like_neg_inf (logits : list (list (logit F))) : list (list (logit F)) :=
  map (fun row => repeat NegInf (length row)) logits.

(** One row of [probs.scatter_(1, ind, val)]: [probs[ind[j]] = val[j]] for
    each [j]; an index outside the row is rejected. *)
Fixpoint scatter_row (probs : list (logit F)) (ind : list nat) (val : list (logit F))
  : result (list (logit F)) :=
  match ind, val with
  | j :: ind', x :: val' =>
      if j <? length probs
      then scatter_row (set_nth j x probs) ind' val'
      else Raise RuntimeError
  | _, _ => Ok probs
  end.

Fixpoint scatter_ (probs : list (list (logit F))) (ind : list (list nat))
  (val : list (list (logit F))) : result (list (list (logit F))) :=
  match probs, ind, val with
  | p :: probs', i :: ind', v :: val' =>
      r <- scatter_row p i v ;;
      rs <- scatter_ probs' ind' val' ;;
      Ok (r :: rs)
  | _, _, _ => Ok []   (* the three tensors have as many rows: end of the batch *)
  end.

(** [top_k(logits, thres)]. *)
Definition top_k_count (logits : list (list (logit F))) (thres : float) : result Z :=
  py_int (PrimFloat.mul (PrimFloat.sub 1%float thres) (float_of_nat (shape_last logits))).

Definition top_k (logits : list (list (logit F))) (thres : float)
  : result (list (list (logit F))) :=
  k <- top_k_count logits thres ;;
  vi <- torch_topk logits k ;;
  let probs := full_like_neg_inf logits in
  scatter_ probs (snd vi) (fst vi).

(** What [top_k] promises for one row: [res] copies [row] on a set [S] of
    [k] positions holding [k] largest entries and is [-inf] elsewhere. *)
Definition is_top_k_of (k : nat) (row res : list (logit F)) : Prop :=
  length res = length row /\
  exists S : list nat,
    NoDup S /\ length S = k /\
    (forall j, In j S -> j < length row) /\
    (forall j, In j S -> entry res j = entry row j) /\
    (forall j, ~ In j S -> entry res j = NegInf) /\
    (forall s u, In s S -> u < length row -> ~ In u S ->
                 lt_logit (entry row s) (entry row u) = false).

Definition all_neg_inf (res : list (list (logit F))) : Prop :=
  Forall (Forall (fun x => x = NegInf)) res.

(** [top_k] on one row, for a count [k] that [torch.topk] accepts. *)
Definition top_k_row (k : nat) (row : list (logit F)) : result (list (logit F)) :=
  let ind := topk_indices row k (seq 0 (length row)) in
  scatter_row (repeat NegInf (length row)) ind (map (entry row) ind).

End TopK.

(** ** Module state: [nn.Module.train], [eval], [torch.no_grad] *)

(** What [eval_decorator] can see of an [nn.Module]: its [training] flag, its
    own parameters and buffers (kept abstract in [P]) and its child modules. *)
Local Unset Elimination Schemes.
Inductive module (P : Type) : Type :=
| Module_ (training : bool) (params : P) (children : list (module P)).
Local Set Elimination Schemes.

Definition training {P} (m : module P) : bool :=
  match m with Module_ t _ _ => t end.

Definition params {P} (m : module P) : P :=
  match m with Module_ _ p _ => p end.

Definition children {P} (m : module P) : list (module P) :=
  match m with Module_ _ _ c => c end.

(** [nn.Module.train(mode)]: sets [training] on the module and, through
    [self.children()], on every module below it. *)
Fixpoint train {P} (mode : bool) (m : module P) : module P :=
  match m with
  | Module_ _ p cs => Module_ mode p (map (train mode) cs)
  end.

(** [nn.Module.eval()] is [train(False)]. *)
Definition eval {P} (m : module P) : module P := train false m.

(** Every flag of the tree equals [b]. *)
Fixpoint uniform {P} (b : bool) (m : module P) : bool :=
  match m with
  | Module_ t _ cs => Bool.eqb t b && forallb (uniform b) cs
  end.

(** Induction over a module tree. *)
Section ModuleInduction.

Variable P : Type.
Variable Q : module P -> Prop.
Hypothesis step : forall t p cs, Forall Q cs -> Q (Module_ t p cs).

Fixpoint module_tree_ind (m : module P) : Q m :=
  match m with
  | Module_ t p cs =>
      step t p
           ((fix all (l : list (module P)) : Forall Q l :=
               match l with
               | [] => Forall_nil Q
               | c :: l' => Forall_cons c (module_tree_ind c) (all l')
               end) cs)
  end.

End ModuleInduction.

(** The interpreter state a decorated method runs in: the autograd switch
    and the module the method is bound to. *)
Record world (P : Type) : Type := World {
  grad_enabled : bool;
  self_module : module P
}.

Arguments World {P} _ _.

Section Decorators.

Variables P A B : Type.

(** A method body: reads the interpreter state, may raise, may change the
    state. *)
Definition method : Type := world P -> A -> result B * world P.

(** [eval_decorator(fn)]: the returned [inner]. *)
Definition eval_decorator (fn : method) : method :=
  fun w args =>
    let was_training := training (self_module w) in
    let w1 := World (grad_enabled w) (eval (self_module w)) in
    match fn w1 args with
    | (Ok out, w2) =>
        (Ok out, World (grad_enabled w2) (train was_training (self_module w2)))
    | (Raise e, w2) => (Raise e, w2)
    end.

(** [@torch.no_grad()]: gradient tracking is switched off for the call and
    the previous setting is put back on the way out, also when the call
    raises. *)
Definition no_grad (fn : method) : method :=
  fun w args =>
    let prev := grad_enabled w in
    let rw := fn (World false (self_module w)) args in
    (fst rw, World prev (self_module (snd rw))).

End Decorators.

(** ** AutoregressiveWrapper.generate *)

Section Generate.

Variable F : Type.
Variable ltF : F -> F -> bool.
(** The number a logit other than [-inf] stands for, as a binary64. *)
Variable val : F -> float.
Variable P : Type.

(** [self.net], an opaque callable: from the wrapper's module state and a
    (batch, n) tensor of tokens to a (batch, n, num_tokens) tensor. *)
Variable net : module P -> list (list token) -> list (list (list (logit F))).
(** [self.max_seq_len]. *)
Variable max_seq_len : Z.
(** The random source behind [torch.multinomial]: the number that decides
    the [c]-th draw. *)
Variable rnd : nat -> nat.

(** One entry of [filtered_logits / temperature], the division being the
    one of binary64. *)
Definition scaled (temperature : float) (x : logit F) : float :=
  PrimFloat.div (match x with NegInf => neg_infinity | Val v => val v end)
                temperature.

(** A finite float. *)
Definition finite (x : float) : bool :=
  match Prim2SF x with
  | S754_zero _ | S754_finite _ _ _ => true
  | S754_infinity _ | S754_nan => false
  end.

(** An entry that turns the whole row of [F.softmax] into nan: nan itself,
    and [+inf], the largest entry being subtracted from each ([inf - inf]). *)
Definition breaks_softmax (x : float) : bool :=
  match Prim2SF x with
  | S754_nan | S754_infinity false => true
  | _ => false
  end.

(** The entries of a row that [F.softmax] can give a non-zero probability:
    the finite ones ([exp(-inf) = 0]). *)
Definition support (row : list float) : list nat :=
  filter (fun j => finite (nth j row nan)) (seq 0 (length row)).

(** One row of [torch.multinomial(F.softmax(x, dim = -1), 1)].  A row with
    a nan or a [+inf] has the softmax nan throughout, and so has a row that
    is [-inf] throughout ([0 / 0]); [multinomial] rejects both.  Otherwise
    an entry [-inf] has probability 0 and is never drawn, and which finite
    entry is drawn is up to the random number [r] (an entry whose
    probability underflows to 0 is not drawn by torch either: the draws of
    the model include those of torch). *)
Definition softmax_multinomial (r : nat) (x : list float) : result token :=
  if existsb breaks_softmax x
  then Raise RuntimeError
  else
    match support x with
    | [] => Raise RuntimeError
    | s => Ok (nth (r mod length s) s 0)
    end.

(** Lines 49 and 50 on one row: [filtered_logits / temperature], softmax,
    multinomial. *)
Definition sample_row (temperature : float) (r : nat) (row : list (logit F))
  : result token :=
  softmax_multinomial r (map (scaled temperature) row).

Fixpoint multinomial_softmax (temperature : float) (c : nat)
  (rows : list (list (logit F))) : result (list token) :=
  match rows with
  | [] => Ok []
  | row :: rows' =>
      t <- sample_row temperature (rnd c) row ;;
      ts <- multinomial_softmax temperature (S c) rows' ;;
      Ok (t :: ts)
  end.

(** [torch.cat((out, sample), dim = -1)] with [sample] of shape (batch, 1). *)
Fixpoint cat_last (out : list (list token)) (sample : list token)
  : result (list (list token)) :=
  match out, sample with
  | [], [] => Ok []
  | row :: out', t :: sample' =>
      rest <- cat_last out' sample' ;;
      Ok ((row ++ [t]) :: rest)
  | _, _ => Raise RuntimeError
  end.

(** The loop state: [out] and the number of draws made so far from the
    random source. *)
Record gen_state : Type := GenState {
  gs_out : list (list token);
  gs_draws : nat
}.

(** One iteration of the [for _ in range(seq_len)] loop (lines 47 to 51). *)
Definition generate_step (self : module P) (temperature filter_thres : float)
  (st : gen_state) : result gen_state :=
  let x := map (slice_from (- max_seq_len)) (gs_out st) in  (* out[:, -self.max_seq_len:] *)
  logits <- mapM last_item (net self x) ;;                  (* self.net(...)[:, -1, :] *)
  filtered_logits <- top_k ltF logits filter_thres ;;
  sample <- multinomial_softmax temperature (gs_draws st) filtered_logits ;;
  out <- cat_last (gs_out st) sample ;;
  Ok (GenState out (gs_draws st + length filtered_logits)).

Fixpoint generate_loop (self : module P) (temperature filter_thres : float)
  (seq_len : nat) (st : gen_state) : result gen_state :=
  match seq_len with
  | 0 => Ok st
  | S n => st' <- generate_step self temperature filter_thres st ;;
           generate_loop self temperature filter_thres n st'
  end.

(** The body of [generate] together with its loop state. *)
Definition generate_run (self : module P) (start_tokens : list (list token))
  (seq_len : nat) (temperature filter_thres : float) : result gen_state :=
  generate_loop self temperature filter_thres seq_len (GenState start_tokens 0).

(** The body of [generate]: [out[:, n:]] of the final [out]. *)
Definition generate_body (self : module P) (start_tokens : list (list token))
  (seq_len : nat) (temperature filter_thres : float) : result (list (list token)) :=
  let n := shape_last start_tokens in
  st <- generate_run self start_tokens seq_len temperature filter_thres ;;
  Ok (map (slice_from (Z.of_nat n)) (gs_out st)).

(** What [self.net] returns when it is well behaved for a temperature: a
    (batch, n, V) tensor with [n >= 1] whose entries stay finite when they
    are divided by the temperature. *)
Definition finite_logits (temperature : float) (V : nat)
  (t : list (list (list (logit F)))) : Prop :=
  Forall (fun rows =>
            rows <> [] /\
            Forall (fun row =>
                      length row = V /\
                      Forall (fun x => x <> NegInf /\ finite (scaled temperature x) = true)
                             row)
                   rows)
         t.

(** Arguments of a call of [generate]; [temperature] is a Python float. *)
Record generate_args : Type := GenerateArgs {
  start_tokens : list (list token);
  seq_len : nat;
  temperature : float;
  filter_thres : float
}.

(** [generate] as declared: [@torch.no_grad()] over [@eval_decorator] over
    the body.  The body reads the module and leaves the state alone. *)
Definition generate : method P generate_args (list (list token)) :=
  no_grad
    (eval_decorator
       (fun w a =>
          (generate_body (self_module w) (start_tokens a) (seq_len a)
                         (temperature a) (filter_thres a),
           w))).

End Generate.

(** ** AutoregressiveWrapper.forward *)

(** [rearrange(t, 'b c n -> b n c')] on one batch entry: entry [(j, i)] of
    the result is entry [(i, j)] of [t]. *)
Definition swap_last_two {A} (t : list (list A)) : list (list A) :=
  map (fun j => flat_map (fun row => match nth_error row j with
                                     | Some a => [a]
                                     | None => []
                                     end) t)
      (seq 0 (shape_last t)).

Section WrapperForward.

Variables F P L : Type.
Variable net : module P -> list (list token) -> list (list (list (logit F))).
(** [F.cross_entropy], an opaque function of the rearranged logits and the
    labels. *)
Variable cross_entropy : list (list (list (logit F))) -> list (list token) -> L.

Definition wrapper_inputs (x : list (list token)) : list (list token) :=
  map (slice_to (-1)) x.                                         (* x[:, :-1] *)

Definition wrapper_labels (x : list (list token)) : list (list token) :=
  map (slice_from 1) x.                                          (* x[:, 1:] *)

Definition wrapper_forward (self : module P) (x : list (list token)) : L :=
  let x_inp := wrapper_inputs x in
  let x_labels := wrapper_labels x in
  let logits := net self x_inp in
  cross_entropy (map swap_last_two logits) x_labels.

End WrapperForward.

(** ** Attention.forward *)

Section AttentionLayer.

(** Tensor entries. *)
Variable T : Type.

Definition tensor3 : Type := list (list (list T)).
Definition tensor4 : Type := list (list (list (list T))).

(** An attention primitive as the layer calls it: [fn(q, k, v, causal = c)]. *)
Definition attention_fn : Type := tensor4 -> tensor4 -> tensor4 -> bool -> tensor4.

(** The two names imported from
    flash_cosine_sim_attention.flash_cosine_sim_attention (line 7). *)
Record primitives : Type := Primitives {
  plain_cosine_sim_attention : attention_fn;
  flash_cosine_sim_attention : attention_fn
}.

(** The sub-modules of an [Attention] layer, as opaque callables. *)
Record attention : Type := Attention {
  heads : nat;
  norm : tensor3 -> tensor3;
  to_qkv : tensor3 -> tensor3;
  to_out : tensor3 -> tensor3
}.

(** [t.chunk(3, dim = -1)] on one feature vector, whose width [to_qkv]
    makes a multiple of 3. *)
Definition chunk3 (row : list T) : list T * list T * list T :=
  let c := (length row + 2) / 3 in
  (firstn c row, firstn c (skipn c row), skipn (2 * c) row).

(** [rearrange(t, 'b n (h d) -> b h n d', h = h)] on one batch entry. *)
Definition split_heads (h : nat) (t : list (list T)) : list (list (list T)) :=
  let d := shape_last t / h in
  map (fun a => map (fun row => firstn d (skipn (a * d) row)) t) (seq 0 h).

(** [rearrange(o, 'b h n d -> b n (h d)')] on one batch entry. *)
Definition merge_heads (o : list (list (list T))) : list (list T) :=
  let n := shape_last o in
  map (fun i => concat (map (fun head => nth i head []) o)) (seq 0 n).

Definition forward (prims : primitives) (self : attention) (x : tensor3) : tensor3 :=
  let h := heads self in
  let x := norm self x in
  let qkv := map (map chunk3) (to_qkv self x) in
  let q := map (fun t => split_heads h (map (fun c => fst (fst c)) t)) qkv in
  let k := map (fun t => split_heads h (map (fun c => snd (fst c)) t)) qkv in
  let v := map (fun t => split_heads h (map (fun c => snd c) t)) qkv in
  let o := plain_cosine_sim_attention prims q k v true in
  let o := map merge_heads o in
  to_out self o.

End AttentionLayer.

(** ** CosineSimCausalTransformer *)

Section CausalTransformer.

Variable T : Type.
(** Addition of two tensor entries. *)
Variable tadd : T -> T -> T.

(** [nn.Embedding(num, dim)] applied to one index: row [idx] of the weight,
    [IndexError] for an index outside the table. *)
Definition embedding (num : nat) (weight : nat -> list T) (idx : nat)
  : result (list T) :=
  if idx <? num then Ok (weight idx) else Raise IndexError.

(** The transformer: its two embedding tables, its [depth] pairs of an
    attention layer and a feed-forward block (an opaque callable), and
    [to_logits] (an opaque callable). *)
Record causal_transformer : Type := CausalTransformer {
  num_tokens : nat;
  max_seq_len : nat;
  token_emb : nat -> list T;
  pos_emb : nat -> list T;
  layers : list (attention T * (tensor3 T -> tensor3 T));
  to_logits : tensor3 T -> tensor3 T
}.

(** [a + b] on tensors of one shape. *)
Definition tensor_add (a b : tensor3 T) : tensor3 T :=
  zip_with (zip_with (zip_with tadd)) a b.

(** One pass of the loop over [self.layers]. *)
Definition layer_step (prims : primitives T) (x : tensor3 T)
  (layer : attention T * (tensor3 T -> tensor3 T)) : tensor3 T :=
  let x := tensor_add (forward prims (fst layer) x) x in
  tensor_add (snd layer x) x.

(** [CosineSimCausalTransformer.forward] on a (batch, n) tensor of tokens. *)
Definition transformer_forward (prims : primitives T) (self : causal_transformer)
  (x : list (list token)) : result (tensor3 T) :=
  emb <- mapM (mapM (embedding (num_tokens self) (token_emb self))) x ;;
  pos <- mapM (embedding (max_seq_len self) (pos_emb self))
              (seq 0 (shape_last x)) ;;             (* torch.arange(x.shape[1]) *)
  let x := map (fun xb => zip_with (zip_with tadd) xb pos) emb in
  let x := fold_left (layer_step prims) (layers self) x in
  Ok (to_logits self x).

End CausalTransformer.

End Transformer.

(* ------------------------------------------------------------------ *)
(** * benchmark.py *)

Module Benchmark.

(** The parsed command line. *)
Record args : Type := Args {
  causal : bool;
  only_forwards : bool;
  only_backwards : bool
}.

Inductive dtype : Type := float32 | float16.

Definition dtype_eqb (a b : dtype) : bool :=
  match a, b with
  | float32, float32 | float16, float16 => true
  | _, _ => false
  end.

(** The two attention callables handed to [benchmark]. *)
Inductive primitive : Type :=
| flash_cosine_sim_attention
| plain_cosine_sim_attention.

(** A tensor made by [torch.randn(b, h, seq, dim, dtype = dtype).cuda()
    .requires_grad_()]: its shape, its dtype, and the number of the draw
    that filled it (two tensors hold the same random contents only if they
    come from the same draw). *)
Record tensor : Type := Tensor {
  shape : list nat;
  tensor_dtype : dtype;
  draw : nat
}.

(** Elapsed milliseconds. *)
Definition time : Type := Q.

(** A call of a timed primitive, recorded for the proofs. *)
Record call : Type := Call {
  callee : primitive;
  call_q : tensor;
  call_k : tensor;
  call_v : tensor;
  call_causal : bool
}.

(** The lines the script prints. *)
Inductive line : Type :=
| Rule                                                (* '-' * 60 *)
| Header (name : dtype) (batch heads dim : nat)
| Row (seq : nat) (times_slower : time) (kernel : time) (baseline : option time).
                                          (* baseline [None] is printed 'oom' *)

(** What the script has done so far. *)
Record state : Type := State {
  stdout : list line;
  calls : list call;
  draws : nat
}.

(** A statement of the script. *)
Definition script (A : Type) : Type := state -> result A * state.

Definition ret {A} (a : A) : script A := fun s => (Ok a, s).

Definition raise {A} (e : exn) : script A := fun s => (Raise e, s).

Definition seq_ {A B} (c : script A) (k : A -> script B) : script B :=
  fun s =>
    match c s with
    | (Ok a, s') => k a s'
    | (Raise e, s') => (Raise e, s')
    end.

Notation "x <~ c ;; k" := (seq_ c (fun x => k))
  (at level 61, c at next level, right associativity).
Notation "c ;;; k" := (seq_ c (fun _ => k))
  (at level 61, right associativity).

(** [try: c  except: h]: a bare [except] catches whatever [c] raises. *)
Definition try_except {A} (c : script A) (h : script A) : script A :=
  fun s =>
    match c s with
    | (Ok a, s') => (Ok a, s')
    | (Raise _, s') => h s'
    end.

(** [for x in xs: body x]. *)
Fixpoint for_each {A} (xs : list A) (body : A -> script unit) : script unit :=
  match xs with
  | [] => ret tt
  | x :: xs' => body x ;;; for_each xs' body
  end.

Definition print (l : line) : script unit :=
  fun s => (Ok tt, State (stdout s ++ [l]) (calls s) (draws s)).

Definition randn (shp : list nat) (dt : dtype) : script tensor :=
  fun s => (Ok (Tensor shp dt (draws s)), State (stdout s) (calls s) (S (draws s))).

(** [cast_tuple] and the values of [params]. *)
Inductive param : Type :=
| Int (n : nat)
| Tuple (l : list nat).

Definition cast_tuple (t : param) : list nat :=
  match t with
  | Tuple l => l
  | Int n => [n]
  end.

(** [itertools.product] of the given iterables. *)
Fixpoint product (iterables : list (list nat)) : list (list nat) :=
  match iterables with
  | [] => [[]]
  | xs :: rest => flat_map (fun x => map (cons x) (product rest)) xs
  end.

Definition BATCH_SIZES : nat := 4.
Definition HEADS : nat := 8.
Definition DIM : nat := 64.
Definition TEST_SEQUENCE_LENGTHS : list nat := [128; 256; 512; 1024; 2048; 4096].

Definition params : list param := [Int BATCH_SIZES; Int HEADS; Int DIM].

Definition permutations : list (list nat) := product (map cast_tuple params).

Section Script.

(** [torch.cuda.is_available()]. *)
Variable cuda_available : bool.

(** [benchmark(fn, forwards, backwards)] of
    flash_cosine_sim_attention/benchmark.py, which is outside the sources
    at hand: the timed callable it returns gives the elapsed time of
    [fn(q, k, v, causal = c)], or raises when the call does. *)
Variable benchmark :
  primitive -> bool -> bool -> tensor -> tensor -> tensor -> bool -> result time.

Variable a : args.

Definition CAUSAL : bool := causal a.
Definition TEST_FORWARDS : bool := negb (only_backwards a).
Definition TEST_BACKWARDS : bool := negb (only_forwards a).

(** A call of a timed callable: recorded, then answered by [benchmark]. *)
Definition timed (p : primitive) (q k v : tensor) (c : bool) : script time :=
  fun s =>
    (benchmark p TEST_FORWARDS TEST_BACKWARDS q k v c,
     State (stdout s) (calls s ++ [Call p q k v c]) (draws s)).

Definition fused_attention_fn : tensor -> tensor -> tensor -> bool -> script time :=
  timed flash_cosine_sim_attention.

Definition attention_fn : tensor -> tensor -> tensor -> bool -> script time :=
  timed plain_cosine_sim_attention.

(** [fused_time / baseline_time] on Python floats. *)
Definition divide (x y : time) : script time :=
  if Qeq_bool y 0 then raise ZeroDivisionError else ret (x / y)%Q.

(** The body of [for seq in TEST_SEQUENCE_LENGTHS] (lines 70 to 85). *)
Definition bench_seq (dt : dtype) (batch heads dim seq : nat) : script unit :=
  q <~ randn [batch; heads; seq; dim] dt ;;
  k <~ randn [batch; heads; seq; dim] dt ;;
  v <~ randn [batch; heads; seq; dim] dt ;;
  fused_time <~ fused_attention_fn q k v CAUSAL ;;
  baseline_time <~ try_except (attention_fn q k v CAUSAL)
                              (ret (-1)%Q) (* after torch.cuda.empty_cache() *) ;;
  times_slower <~ (if negb (Qeq_bool baseline_time (-1))
                   then divide fused_time baseline_time
                   else ret 0%Q) ;;
  let baseline_time_str :=
    if Qeq_bool baseline_time (-1) then None else Some baseline_time in
  print (Row seq times_slower fused_time baseline_time_str).

(** The body of [for batch, heads, dim in permutations] (lines 65 to 85). *)
Definition bench_permutation (dt : dtype) (perm : list nat) : script unit :=
  match perm with
  | [batch; heads; dim] =>
      print Rule ;;;
      print (Header dt batch heads dim) ;;;
      print Rule ;;;
      for_each TEST_SEQUENCE_LENGTHS (bench_seq dt batch heads dim)
  | _ => raise ValueError
  end.

(** The body of the loop over dtypes (lines 61 to 85). *)
Definition bench_dtype (dt : dtype) : script unit :=
  if TEST_BACKWARDS && dtype_eqb dt float16
  then ret tt                                              (* continue *)
  else for_each permutations (bench_permutation dt).

(** The script from top to bottom. *)
Definition main : script unit :=
  (if cuda_available then ret tt else raise AssertionError) ;;;
  (if negb (only_forwards a && only_backwards a) then ret tt else raise AssertionError) ;;;
  for_each [float32; float16] bench_dtype.

Definition initial : state := State [] [] 0.

(** ** What a run that is not interrupted prints and calls *)

(** The three tensors of a configuration whose first draw is number [d]. *)
Definition tensors_at (dt : dtype) (batch heads dim seq d : nat)
  : tensor * tensor * tensor :=
  (Tensor [batch; heads; seq; dim] dt d,
   Tensor [batch; heads; seq; dim] dt (S d),
   Tensor [batch; heads; seq; dim] dt (S (S d))).

Definition calls_at (dt : dtype) (batch heads dim seq d : nat) : list call :=
  let '(q, k, v) := tensors_at dt batch heads dim seq d in
  [Call flash_cosine_sim_attention q k v CAUSAL;
   Call plain_cosine_sim_attention q k v CAUSAL].

(** The line of a configuration whose fused call took [fused_time]. *)
Definition row_at (dt : dtype) (batch heads dim seq d : nat) (fused_time : time)
  : line :=
  let '(q, k, v) := tensors_at dt batch heads dim seq d in
  match benchmark plain_cosine_sim_attention TEST_FORWARDS TEST_BACKWARDS q k v CAUSAL with
  | Ok t =>
      if Qeq_bool t (-1) then Row seq 0%Q fused_time None
      else Row seq (fused_time / t)%Q fused_time (Some t)
  | Raise _ => Row seq 0%Q fused_time None
  end.

Definition fused_time_at (dt : dtype) (batch heads dim seq d : nat) : time :=
  let '(q, k, v) := tensors_at dt batch heads dim seq d in
  match benchmark flash_cosine_sim_attention TEST_FORWARDS TEST_BACKWARDS q k v CAUSAL with
  | Ok t => t
  | Raise _ => 0%Q
  end.

Fixpoint calls_from (dt : dtype) (batch heads dim d : nat) (seqs : list nat)
  : list call :=
  match seqs with
  | [] => []
  | seq :: seqs' =>
      calls_at dt batch heads dim seq d ++ calls_from dt batch heads dim (3 + d) seqs'
  end.

(** The dtypes the loop does not skip. *)
Definition swept_dtypes : list dtype :=
  float32 :: (if only_forwards a then [float16] else []).

(** The configurations of the sweep in order, each with the number of its
    first draw. *)
Definition sweep : list (dtype * nat * nat) :=
  let n := length TEST_SEQUENCE_LENGTHS in
  flat_map (fun id => map (fun js => (snd id, snd js, 3 * (fst id * n + fst js)))
                          (combine (seq 0 n) TEST_SEQUENCE_LENGTHS))
           (combine (seq 0 (length swept_dtypes)) swept_dtypes).

Definition sweep_calls : list call :=
  flat_map (fun c => calls_at (fst (fst c)) BATCH_SIZES HEADS DIM (snd (fst c)) (snd c))
           sweep.

Definition is_row (l : line) : bool :=
  match l with Row _ _ _ _ => true | _ => false end.

(** ** What a run that may be interrupted prints and calls *)

(** The configurations of one dtype in order, the first draw of the first
    one being number [d]. *)
Fixpoint configs_from (dt : dtype) (d : nat) (seqs : list nat)
  : list (dtype * nat * nat) :=
  match seqs with
  | [] => []
  | seq :: seqs' => (dt, seq, d) :: configs_from dt (3 + d) seqs'
  end.

(** The exception that ends the run in a configuration, if any: the one its
    fused call raises, which nothing catches, or [ZeroDivisionError] when
    its reference call is timed at exactly 0 (line 82). *)
Definition fatal_at (c : dtype * nat * nat) : option exn :=
  let '(dt, seq, d) := c in
  let '(q, k, v) := tensors_at dt BATCH_SIZES HEADS DIM seq d in
  match benchmark flash_cosine_sim_attention TEST_FORWARDS TEST_BACKWARDS q k v CAUSAL with
  | Raise e => Some e
  | Ok _ =>
      match benchmark plain_cosine_sim_attention TEST_FORWARDS TEST_BACKWARDS q k v CAUSAL with
      | Ok t => if Qeq_bool t 0 then Some ZeroDivisionError else None
      | Raise _ => None
      end
  end.

(** The row and the timed calls of a configuration the run gets through. *)
Definition row_of (c : dtype * nat * nat) : line :=
  let '(dt, seq, d) := c in
  row_at dt BATCH_SIZES HEADS DIM seq d (fused_time_at dt BATCH_SIZES HEADS DIM seq d).

Definition calls_of (c : dtype * nat * nat) : list call :=
  let '(dt, seq, d) := c in calls_at dt BATCH_SIZES HEADS DIM seq d.

(** The timed calls of a configuration in which the run ends: the fused
    call, and the reference call when the fused call returned. *)
Definition calls_before_fatal (c : dtype * nat * nat) : list call :=
  let '(dt, seq, d) := c in
  let '(q, k, v) := tensors_at dt BATCH_SIZES HEADS DIM seq d in
  Call flash_cosine_sim_attention q k v CAUSAL ::
  match benchmark flash_cosine_sim_attention TEST_FORWARDS TEST_BACKWARDS q k v CAUSAL with
  | Raise _ => []
  | Ok _ => [Call plain_cosine_sim_attention q k v CAUSAL]
  end.

(** A run over the configurations [cs], up to the first one that ends it:
    the rows it prints, the timed calls it makes, and how it ends. *)
Fixpoint rows_until (cs : list (dtype * nat * nat)) : list line :=
  match cs with
  | [] => []
  | c :: cs' =>
      match fatal_at c with
      | Some _ => []
      | None => row_of c :: rows_until cs'
      end
  end.

Fixpoint calls_until (cs : list (dtype * nat * nat)) : list call :=
  match cs with
  | [] => []
  | c :: cs' =>
      match fatal_at c with
      | Some _ => calls_before_fatal c
      | None => calls_of c ++ calls_until cs'
      end
  end.

Fixpoint end_of (cs : list (dtype * nat * nat)) : result unit :=
  match cs with
  | [] => Ok tt
  | c :: cs' =>
      match fatal_at c with
      | Some e => Raise e
      | None => end_of cs'
      end
  end.

End Script.

End Benchmark.

(* ------------------------------------------------------------------ *)
(** * The attention primitive (spec sections 4.1, 4.2, 4.5)

    flash_cosine_sim_attention/flash_cosine_sim_attention.py and the kernel
    behind it are not among the sources at hand; the definitions of this
    module follow the specification. *)

Module Kernel.

(** The arithmetic the kernel is written over.  The tiling and masking
    logic never looks inside it, so the structural results hold for any
    arithmetic, binary16 and binary32 included; the numeric results are
    stated for the real numbers ([R_scalar] below). *)
Class Scalar (F : Type) : Type := {
  zero : F;
  add : F -> F -> F;
  mul : F -> F -> F;
  div : F -> F -> F;
  fexp : F -> F;
  fsqrt : F -> F;
  fmax : F -> F -> F;
  positive : F -> bool
}.

Inductive error : Type :=
| ConfigurationError
| ResourceError
| UsageError.

Inductive outcome (A : Type) : Type :=
| Returned (a : A)
| Failed (e : error).

Arguments Returned {A} a.
Arguments Failed {A} e.

(** Tile sizes: query positions per row-tile, key/value positions per
    column-tile. *)
Record tiling : Type := Tiling {
  row_tile : nat;
  col_tile : nat
}.

(** Number of tiles of size [B] covering [n] positions. *)
Definition num_tiles (B n : nat) : nat := (n + B - 1) / B.

(** The positions of tile number [t]. *)
Definition tile_positions (B n t : nat) : list nat :=
  seq (t * B) (Nat.min B (n - t * B)).

Section Generic.

Context {F : Type} {S : Scalar F}.

Definition vec : Type := list F.
(** One (batch, head) slice: sequence position by feature. *)
Definition mat : Type := list vec.

Definition dot (a b : vec) : F :=
  fold_left (fun s p => add s (mul (fst p) (snd p))) (combine a b) zero.

(** [acc + e * v], feature by feature. *)
Definition axpy (e : F) (v acc : vec) : vec :=
  map (fun p => add (fst p) (mul e (snd p))) (combine acc v).

(** The epsilon of the normalization and of the final division. *)
Variable eps : F.

(** Modelled from the spec: the Normalization Stage (section 4.1), which is
    missing from the sources: each feature vector is divided by its L2 norm,
    a small epsilon being added to the norm. *)
Definition l2norm_vec (x : vec) : vec :=
  let n := fsqrt (dot x x) in
  map (fun c => div c (add n eps)) x.

Definition l2norm (t : mat) : mat := map l2norm_vec t.

(** Modelled from the spec: the Causal Mask State (section 3), missing from
    the sources: a key position is valid iff it is at most the query
    position. *)
Definition visible (causal : bool) (i j : nat) : bool :=
  negb causal || (j <=? i).

Section Forward.

Variable cfg : tiling.
Variable causal : bool.
Variable scale : F.
Variables Q K V : mat.

(** Modelled from the spec: steps 3 and 4 of section 4.2 (the kernel is
    missing from the sources) for query row [i] and key position [j]:
    the exponentiated scaled score, times the value row, goes into the
    output accumulator, and the score into the denominator; a masked entry
    is left out of both. *)
Definition accumulate (i : nat) (st : vec * F) (j : nat) : vec * F :=
  if visible causal i j
  then
    let e := fexp (mul (dot (nth i Q []) (nth j K [])) scale) in
    (axpy e (nth j V []) (fst st), add (snd st) e)
  else st.

(** Modelled from the spec: step 2 of section 4.2 (kernel missing from the
    sources) for one key/value tile [t] against the query tile holding
    [rows]: skipped when the whole tile lies past the last query position of
    [rows] in causal mode. *)
Definition key_tile_step (rows : list nat) (st : list (vec * F)) (t : nat)
  : list (vec * F) :=
  if causal && (last rows 0 <? t * col_tile cfg)
  then st
  else
    map (fun p => fold_left (accumulate (fst p))
                            (tile_positions (col_tile cfg) (length K) t) (snd p))
        (combine rows st).

(** Modelled from the spec: step 5 of section 4.2 (kernel missing from the
    sources): the output row is the accumulator divided by the denominator,
    floored at epsilon; the raw denominator is kept as the running
    statistic. *)
Definition finalize (st : vec * F) : vec * F :=
  (map (fun x => div x (fmax (snd st) eps)) (fst st), snd st).

(** Modelled from the spec: steps 1 to 5 of section 4.2 (kernel missing from
    the sources) for query tile [r]. *)
Definition query_tile (r : nat) : list (vec * F) :=
  let rows := tile_positions (row_tile cfg) (length Q) r in
  let init := map (fun _ => (repeat zero (Transformer.shape_last V), zero)) rows in
  map finalize
      (fold_left (key_tile_step rows) (seq 0 (num_tiles (col_tile cfg) (length K))) init).

Definition widths_ok (d : nat) (t : mat) : bool :=
  forallb (fun row => length row =? d) t.

(** Modelled from the spec: the checks behind the configuration errors of
    sections 4.2 and 7 and the shape contract of section 6 (kernel missing
    from the sources). *)
Definition valid_call : bool :=
  positive scale
  && negb (row_tile cfg =? 0) && negb (col_tile cfg =? 0)
  && (length K =? length V)
  && (negb causal || (length Q =? length K))
  && widths_ok (Transformer.shape_last Q) K
  && widths_ok (Transformer.shape_last Q) Q
  && widths_ok (Transformer.shape_last V) V.

(** Modelled from the spec: the Flash Forward Kernel (section 4.2) on one
    (batch, head) slice, missing from the sources; it returns the output and
    the running statistics. *)
Definition forward_slice : outcome (mat * list F) :=
  if valid_call
  then
    let tiles := flat_map query_tile (seq 0 (num_tiles (row_tile cfg) (length Q))) in
    Returned (map fst tiles, map snd tiles)
  else Failed ConfigurationError.

(** The same computation without tiles: every key position in increasing
    order. *)
Definition attend_row (i : nat) : vec * F :=
  finalize (fold_left (accumulate i) (seq 0 (length K))
                      (repeat zero (Transformer.shape_last V), zero)).

End Forward.

(** Modelled from the spec: the attention primitive on one (batch, head)
    slice, missing from the sources: queries and keys go through the
    Normalization Stage, then through the forward kernel; the caller gets
    the output. *)
Definition attention_slice (cfg : tiling) (causal : bool) (scale : F)
  (Q K V : mat) : outcome mat :=
  match forward_slice cfg causal scale (l2norm Q) (l2norm K) V with
  | Returned os => Returned (fst os)
  | Failed e => Failed e
  end.

(** (batch, head, sequence position, feature). *)
Definition tensor4 : Type := list (list mat).

(** The entry of a batch when every head returned, else the first failure. *)
Fixpoint collect {A} (l : list (outcome A)) : outcome (list A) :=
  match l with
  | [] => Returned []
  | o :: l' =>
      match o, collect l' with
      | Returned a, Returned r => Returned (a :: r)
      | Failed e, _ => Failed e
      | _, Failed e => Failed e
      end
  end.

(** Modelled from the spec: the attention primitive of section 6 on whole
    tensors, missing from the sources: the tensors share their batch and
    head dimensions, and every (batch, head) slice is an independent call
    ([attention_slice]). *)
Definition attention (cfg : tiling) (causal : bool) (scale : F)
  (q k v : tensor4) : outcome tensor4 :=
  if (length q =? length k) && (length k =? length v)
  then
    collect
      (map (fun b =>
              let '(qb, kb, vb) := b in
              if (length qb =? length kb) && (length kb =? length vb)
              then collect (map (fun h => let '(Q, K, V) := h in
                                          attention_slice cfg causal scale Q K V)
                                (combine (combine qb kb) vb))
              else Failed ConfigurationError)
           (combine (combine q k) v))
  else Failed ConfigurationError.

(** The feature vector at (batch [b], head [h], position [j]). *)
Definition feature_row (t : tensor4) (b h j : nat) : vec :=
  nth j (nth h (nth b t []) []) [].

(** ** Reference attention (section 4.5) *)

(** Modelled from the spec: the full (query x key) score matrix of section
    4.5 (the reference computation is missing from the sources): the dot
    product of the normalized vectors, times the scale. *)
Definition score_matrix (scale : F) (Q K : mat) : list (list F) :=
  map (fun q => map (fun k => mul (dot q k) scale) K) Q.

(** Modelled from the spec: the causal mask of section 4.5 (reference
    missing from the sources), an additive bias: [bias], a large negative
    number, is added to the score of every key position after the query
    position. *)
Definition add_causal_bias (causal : bool) (bias : F) (M : list (list F))
  : list (list F) :=
  map (fun ir =>
         map (fun js => if visible causal (fst ir) (fst js)
                        then snd js
                        else add (snd js) bias)
             (combine (seq 0 (length (snd ir))) (snd ir)))
      (combine (seq 0 (length M)) M).

(** Modelled from the spec: the row-wise softmax of section 4.5 (reference
    missing from the sources). *)
Definition softmax (s : list F) : list F :=
  let e := map fexp s in
  let z := fold_left add e zero in
  map (fun x => div x z) e.

(** Modelled from the spec: the contraction with Value of section 4.5
    (reference missing from the sources), for one row of weights. *)
Definition weighted_sum (w : list F) (V : mat) : vec :=
  fold_left (fun acc p => axpy (fst p) (snd p) acc) (combine w V)
            (repeat zero (Transformer.shape_last V)).

(** Modelled from the spec: the Reference Attention of section 4.5 on one
    (batch, head) slice, missing from the sources: queries and keys are
    normalized as for the fused path, the full score matrix is
    materialized, masked, passed through a row-wise softmax and
    contracted with Value. *)
Definition reference_slice (causal : bool) (bias scale : F) (Q K V : mat) : mat :=
  let M := add_causal_bias causal bias (score_matrix scale (l2norm Q) (l2norm K)) in
  map (fun s => weighted_sum (softmax s) V) M.

(** Modelled from the spec: [reference_attention] of section 6 on whole
    tensors (missing from the sources), slice by slice. *)
Definition reference_attention (causal : bool) (bias scale : F)
  (q k v : tensor4) : tensor4 :=
  map (fun b =>
         let '(qb, kb, vb) := b in
         map (fun h => let '(Q, K, V) := h in reference_slice causal bias scale Q K V)
             (combine (combine qb kb) vb))
      (combine (combine q k) v).

End Generic.

Arguments vec : clear implicits.
Arguments mat : clear implicits.
Arguments tensor4 : clear implicits.

(** What a call returned, [d] when it failed. *)
Definition returned {A} (d : A) (o : outcome A) : A :=
  match o with
  | Returned a => a
  | Failed _ => d
  end.

(** Symbolic arithmetic: a result is the expression that computes it. *)
Inductive expr : Type :=
| Const (z : Z)
| Add (a b : expr)
| Mul (a b : expr)
| Div (a b : expr)
| Exp (a : expr)
| Sqrt (a : expr)
| Max (a b : expr).

#[export] Instance expr_scalar : Scalar expr := {|
  zero := Const 0;
  add := Add;
  mul := Mul;
  div := Div;
  fexp := Exp;
  fsqrt := Sqrt;
  fmax := Max;
  positive := fun e => match e with Const z => (0 <? z)%Z | _ => false end
|}.

(** The kernel over the real numbers. *)
#[export] Instance R_scalar : Scalar R := {|
  zero := 0%R;
  add := Rplus;
  mul := Rmult;
  div := Rdiv;
  fexp := exp;
  fsqrt := sqrt;
  fmax := Rmax;
  positive := fun x => if Rlt_dec 0 x then true else false
|}.

(** The L2 norm of a real vector. *)
Definition norm2 (x : list R) : R := sqrt (dot x x).

(** A feature vector with an entry that is not zero. *)
Definition nonzero (x : list R) : Prop := exists c, In c x /\ c <> 0%R.

(** Unit L2 norm within [eps]. *)
Definition unit_within (eps : R) (x : list R) : Prop :=
  (Rabs (norm2 x - 1) <= eps)%R.

End Kernel.

(* ------------------------------------------------------------------ *)
(** * Concrete inputs used below *)

Module Examples.

Import Transformer.

(** A network over a vocabulary of 30 tokens: at every position the logit
    of token [j] is [(j + t) mod 30], [t] being the token at that
    position. *)
Definition net30 (self : module unit) (x : list (list token))
  : list (list (list (logit Z))) :=
  map (map (fun t => map (fun j => Val (Z.of_nat ((j + t) mod 30))) (seq 0 30))) x.

(** The same over a vocabulary of 10 tokens. *)
Definition net10 (self : module unit) (x : list (list token))
  : list (list (list (logit Z))) :=
  map (map (fun t => map (fun j => Val (Z.of_nat ((j + t) mod 10))) (seq 0 10))) x.

(** A wrapper in training mode around a network put in eval mode. *)
Definition mixed_world : world unit :=
  World true (Module_ true tt [Module_ false tt []]).

Definition prompt : generate_args :=
  GenerateArgs [[1; 2]; [3; 4]] 4 1%float thres_default.

Definition counter (c : nat) : nat := c.

(** One row of 30 logits, and the same row with all but the two largest
    entries masked. *)
Definition logits30 : list (list (logit Z)) :=
  [map (fun j => Val (Z.of_nat ((7 * j) mod 30))) (seq 0 30)].

(** An attention layer with one head whose sub-modules copy their input,
    [to_qkv] writing it three times side by side. *)
Definition copy_layer : attention Z :=
  Attention 1 (fun x => x) (map (map (fun row => row ++ row ++ row))) (fun x => x).

(** Timed callables that always take one millisecond, and others whose
    fused call runs out of memory from sequence length 2048 on. *)
Definition steady (p : Benchmark.primitive) (forwards backwards : bool)
  (q k v : Benchmark.tensor) (causal : bool) : result Benchmark.time :=
  Ok 1%Q.

Definition fused_oom (p : Benchmark.primitive) (forwards backwards : bool)
  (q k v : Benchmark.tensor) (causal : bool) : result Benchmark.time :=
  match p with
  | Benchmark.flash_cosine_sim_attention =>
      if 2048 <=? nth 2 (Benchmark.shape q) 0 then Raise OutOfMemoryError else Ok 1%Q
  | Benchmark.plain_cosine_sim_attention => Ok 2%Q
  end.

(** Timed callables whose reference call runs out of memory from sequence
    length 1024 on. *)
Definition baseline_oom (p : Benchmark.primitive) (forwards backwards : bool)
  (q k v : Benchmark.tensor) (causal : bool) : result Benchmark.time :=
  match p with
  | Benchmark.flash_cosine_sim_attention => Ok 1%Q
  | Benchmark.plain_cosine_sim_attention =>
      if 1024 <=? nth 2 (Benchmark.shape q) 0 then Raise OutOfMemoryError else Ok 2%Q
  end.

(** Three positions with two features per query and key and one per value,
    in one batch entry with one head; [future_changed] holds other keys and
    values at position 2. *)
Definition qs : Kernel.tensor4 Kernel.expr :=
  [[ [[Kernel.Const 1; Kernel.Const 2]; [Kernel.Const 3; Kernel.Const 4];
      [Kernel.Const 5; Kernel.Const 6]] ]].
Definition ks : Kernel.tensor4 Kernel.expr :=
  [[ [[Kernel.Const 1; Kernel.Const 0]; [Kernel.Const 0; Kernel.Const 1];
      [Kernel.Const 2; Kernel.Const 2]] ]].
Definition vs : Kernel.tensor4 Kernel.expr :=
  [[ [[Kernel.Const 7]; [Kernel.Const 8]; [Kernel.Const 9]] ]].
Definition ks_future_changed : Kernel.tensor4 Kernel.expr :=
  [[ [[Kernel.Const 1; Kernel.Const 0]; [Kernel.Const 0; Kernel.Const 1];
      [Kernel.Const 3; Kernel.Const (-4)]] ]].
Definition vs_future_changed : Kernel.tensor4 Kernel.expr :=
  [[ [[Kernel.Const 7]; [Kernel.Const 8]; [Kernel.Const 100]] ]].

Definition tiles_2_2 : Kernel.tiling := Kernel.Tiling 2 2.

(** The same call with temperature 0. *)
Definition zero_temperature : generate_args :=
  GenerateArgs [[1; 2]; [3; 4]] 4 0%float thres_default.

(** [net30] on sequences of at most three tokens, and no logits at all on
    longer ones. *)
Definition net30_short (self : module unit) (x : list (list token))
  : list (list (list (logit Z))) :=
  if forallb (fun row => length row <=? 3) x then net30 self x else [].

(** [net30] on sequences of at most three tokens below 30, and no logits
    at all on the others. *)
Definition net30_in_domain (self : module unit) (x : list (list token))
  : list (list (list (logit Z))) :=
  if forallb (forallb (fun t => t <? 30)) x && (shape_last x <=? 3)
  then net30 self x else [].

(** A batch of two empty prompts, one token to sample. *)
Definition empty_prompt : generate_args :=
  GenerateArgs [[]; []] 1 1%float thres_default.

(** A transformer without layers over 30 tokens and 3 positions, whose
    embeddings are the indices themselves. *)
Definition small_model : causal_transformer Z :=
  CausalTransformer 30 3 (fun t => [Z.of_nat t]) (fun p => [Z.of_nat p]) [] (fun x => x).

(** Timed callables whose reference call is timed at 0 ms. *)
Definition zero_baseline (p : Benchmark.primitive) (forwards backwards : bool)
  (q k v : Benchmark.tensor) (causal : bool) : result Benchmark.time :=
  match p with
  | Benchmark.flash_cosine_sim_attention => Ok 1%Q
  | Benchmark.plain_cosine_sim_attention => Ok 0%Q
  end.

Definition returns_v : attention_fn Z := fun q k v causal => v.
Definition returns_nothing : attention_fn Z := fun q k v causal => [].

End Examples.

(* ================================================================== *)
(** * Properties of transformer.py *)

Module TransformerFacts.

Import Transformer.

(** ** Lists, slices and the exception monad *)

Lemma set_nth_length {A} (n : nat) (a : A) (l : list A) :
  length (set_nth n a l) = length l.
Proof.
  revert n; induction l as [|x l IH]; intros [|n]; simpl; auto.
Qed.

Lemma nth_set_nth {A} (d : A) (n j : nat) (a : A) (l : list A) :
  n < length l ->
  nth j (set_nth n a l) d = if j =? n then a else nth j l d.
Proof.
  revert n j; induction l as [|x l IH]; intros n j Hn; simpl in Hn; [lia|].
  destruct n as [|n], j as [|j]; simpl; auto.
  apply IH; lia.
Qed.

Lemma mapM_length {A B} (f : A -> result B) (l : list A) (r : list B) :
  mapM f l = Ok r -> length r = length l.
Proof.
  revert r; induction l as [|a l IH]; simpl; intros r H.
  - inversion H; reflexivity.
  - destruct (f a); simpl in H; [|discriminate].
    destruct (mapM f l); simpl in H; [|discriminate].
    inversion H; subst; simpl; f_equal; auto.
Qed.

Lemma slice_from_length_last {A} (m : Z) (row : list A) :
  (0 < m)%Z ->
  length (slice_from (- m) row) = Nat.min (Z.to_nat m) (length row).
Proof.
  intros Hm. unfold slice_from.
  destruct (Z.ltb_spec (- m) 0); [|lia].
  rewrite length_skipn. lia.
Qed.

Lemma slice_from_suffix {A} (s : Z) (row : list A) :
  exists pre, row = pre ++ slice_from s row.
Proof.
  unfold slice_from.
  match goal with |- context [skipn ?n row] => exists (firstn n row) end.
  symmetry; apply firstn_skipn.
Qed.

Lemma slice_from_app {A} (pre new : list A) :
  slice_from (Z.of_nat (length pre)) (pre ++ new) = new.
Proof.
  unfold slice_from.
  destruct (Z.ltb_spec (Z.of_nat (length pre)) 0); [lia|].
  rewrite length_app.
  replace (Z.to_nat _) with (length pre) by lia.
  rewrite skipn_app, skipn_all, Nat.sub_diag. reflexivity.
Qed.

Lemma remove_NoDup (m : nat) (l : list nat) :
  NoDup l -> NoDup (remove Nat.eq_dec m l).
Proof.
  induction 1 as [|x l Hx Hl IH]; simpl; [constructor|].
  destruct (Nat.eq_dec m x); [assumption|].
  constructor; [|assumption].
  intros Hin. apply in_remove in Hin. tauto.
Qed.

Lemma remove_NoDup_length (m : nat) (l : list nat) :
  NoDup l -> In m l -> S (length (remove Nat.eq_dec m l)) = length l.
Proof.
  induction 1 as [|x l Hx Hl IH]; simpl; [tauto|].
  intros [->|Hin].
  - destruct (Nat.eq_dec m m); [|congruence].
    rewrite notin_remove by assumption. reflexivity.
  - destruct (Nat.eq_dec m x) as [->|]; [tauto|].
    simpl. rewrite IH by assumption. reflexivity.
Qed.

(** ** top_k *)

Section TopKFacts.

Variable F : Type.
Variable ltF : F -> F -> bool.

Local Abbreviation lt := (lt_logit ltF).

Lemma entry_repeat (n j : nat) : entry (repeat (@NegInf F) n) j = NegInf.
Proof.
  unfold entry. revert j; induction n as [|n IH]; intros [|j]; simpl; auto.
Qed.

Lemma argmax_from_in (row : list (logit F)) (cs : list nat) :
  forall b, In (argmax_from ltF row b cs) (b :: cs).
Proof.
  induction cs as [|c cs IH]; intros b; simpl; [auto|].
  destruct (lt (entry row b) (entry row c)).
  - destruct (IH c) as [H|H]; auto.
  - destruct (IH b) as [H|H]; auto.
Qed.

Lemma scatter_row_spec (row : list (logit F)) (ind : list nat) :
  forall probs,
    (forall j, In j ind -> j < length probs) ->
    exists res,
      scatter_row probs ind (map (entry row) ind) = Ok res /\
      length res = length probs /\
      (forall j, In j ind -> entry res j = entry row j) /\
      (forall j, ~ In j ind -> entry res j = entry probs j).
Proof.
  induction ind as [|j0 ind IH]; intros probs Hin; simpl.
  - exists probs. repeat split; auto. intros j [].
  - destruct (Nat.ltb_spec j0 (length probs)) as [Hlt|Hge].
    2:{ specialize (Hin j0 (or_introl eq_refl)). lia. }
    destruct (IH (set_nth j0 (entry row j0) probs)) as (res & Hres & Hlen & Hsel & Hrest).
    { intros j Hj. rewrite set_nth_length. apply Hin. right; exact Hj. }
    exists res. rewrite Hres, Hlen, set_nth_length.
    repeat split; auto.
    + intros j [<-|Hj]; [|auto].
      destruct (in_dec Nat.eq_dec j0 ind) as [Hi|Hn]; [auto|].
      rewrite Hrest by assumption. unfold entry.
      rewrite nth_set_nth by assumption. rewrite Nat.eqb_refl. reflexivity.
    + intros j Hj. rewrite Hrest by tauto. unfold entry.
      rewrite nth_set_nth by assumption.
      destruct (Nat.eqb_spec j j0); [subst; tauto|reflexivity].
Qed.

Section Order.

(** [torch.topk] compares with a strict order. *)
Hypothesis ltF_irrefl : forall x, ltF x x = false.
Hypothesis ltF_trans :
  forall x y z, ltF x y = true -> ltF y z = true -> ltF x z = true.

Lemma lt_logit_irrefl (a : logit F) : lt a a = false.
Proof. destruct a; simpl; auto. Qed.

Lemma lt_logit_trans (a b c : logit F) :
  lt a b = true -> lt b c = true -> lt a c = true.
Proof.
  destruct a, b, c; simpl; try congruence. apply ltF_trans.
Qed.

Lemma argmax_from_max (row : list (logit F)) (cs : list nat) :
  forall (b : nat) (seen : nat -> Prop),
    (forall x, seen x -> lt (entry row b) (entry row x) = false) ->
    forall x, seen x \/ In x cs ->
      lt (entry row (argmax_from ltF row b cs)) (entry row x) = false.
Proof.
  induction cs as [|c cs IH]; intros b seen Hseen x Hx; simpl.
  - destruct Hx as [Hx|[]]; auto.
  - destruct (lt (entry row b) (entry row c)) eqn:Hbc.
    + apply (IH c (fun y => seen y \/ y = c)).
      * intros y [Hy| ->]; [|apply lt_logit_irrefl].
        destruct (lt (entry row c) (entry row y)) eqn:Hcy; [|reflexivity].
        rewrite <- (Hseen y Hy). symmetry.
        eapply lt_logit_trans; eassumption.
      * simpl in Hx. destruct Hx as [Hx|[<-|Hx]]; auto.
    + apply (IH b (fun y => seen y \/ y = c)).
      * intros y [Hy| ->]; auto.
      * simpl in Hx. destruct Hx as [Hx|[<-|Hx]]; auto.
Qed.

Lemma topk_indices_spec (row : list (logit F)) (k : nat) :
  forall cands, NoDup cands ->
    let S := topk_indices ltF row k cands in
    NoDup S /\ incl S cands /\ length S = Nat.min k (length cands) /\
    (forall s u, In s S -> In u cands -> ~ In u S ->
                 lt (entry row s) (entry row u) = false).
Proof.
  induction k as [|k IH]; intros cands Hnd; simpl.
  - repeat split; [constructor|intros x []|intros s u []].
  - destruct cands as [|c cs]; simpl.
    + repeat split; [constructor|intros x []|intros s u []].
    + set (m := argmax_from ltF row c cs).
      assert (Hm : In m (c :: cs)) by apply argmax_from_in.
      change (if Nat.eq_dec m c then remove Nat.eq_dec m cs
              else c :: remove Nat.eq_dec m cs)
        with (remove Nat.eq_dec m (c :: cs)).
      destruct (IH (remove Nat.eq_dec m (c :: cs)) (remove_NoDup m Hnd))
        as (HndS & Hincl & Hlen & Hdom).
      repeat split.
      * constructor; [|assumption].
        intros Hin. apply Hincl in Hin. apply in_remove in Hin. tauto.
      * intros x [<-|Hx]; [assumption|].
        apply Hincl in Hx. apply in_remove in Hx. tauto.
      * rewrite Hlen. pose proof (@remove_NoDup_length m _ Hnd Hm) as Hl.
        change (length (c :: cs)) with (S (length cs)) in Hl.
        destruct (Nat.min_spec k (length (remove Nat.eq_dec m (c :: cs)))) as [[? ->]|[? ->]];
          lia.
      * intros s u [<-|Hs] Hu Hnu.
        -- apply (@argmax_from_max row cs c (fun y => y = c)).
           ++ intros y ->. apply lt_logit_irrefl.
           ++ destruct Hu as [<-|Hu]; auto.
        -- apply Hdom; [assumption| |tauto].
           apply in_in_remove; [|assumption].
           intros ->. apply Hnu. left; reflexivity.
Qed.

Lemma top_k_row_spec (k : nat) (row : list (logit F)) :
  k <= length row ->
  exists res, top_k_row ltF k row = Ok res /\ is_top_k_of ltF k row res.
Proof.
  intros Hk. unfold top_k_row.
  destruct (topk_indices_spec row k (seq_NoDup (length row) 0))
    as (Hnd & Hincl & Hlen & Hdom).
  set (ind := topk_indices ltF row k (seq 0 (length row))) in *.
  assert (Hrange : forall j, In j ind -> j < length row).
  { intros j Hj. apply Hincl in Hj. apply in_seq in Hj. lia. }
  destruct (scatter_row_spec row ind (repeat NegInf (length row)))
    as (res & Hres & Hl & Hsel & Hrest).
  { intros j Hj. rewrite repeat_length. auto. }
  exists res. split; [assumption|].
  rewrite repeat_length in Hl.
  split; [assumption|].
  exists ind. repeat split; auto.
  - rewrite Hlen, length_seq. lia.
  - intros j Hj. rewrite Hrest by assumption. apply entry_repeat.
  - intros s u Hs Hu Hnu. apply Hdom; auto. apply in_seq. lia.
Qed.

End Order.

Lemma scatter_rows (k : nat) (logits : list (list (logit F))) :
  let ind := map (fun row => topk_indices ltF row k (seq 0 (length row))) logits in
  scatter_ (full_like_neg_inf logits) ind
           (map (fun ri => map (entry (fst ri)) (snd ri)) (combine logits ind))
  = mapM (top_k_row ltF k) logits.
Proof.
  induction logits as [|row rows IH]; simpl; [reflexivity|].
  simpl in IH. rewrite IH. reflexivity.
Qed.

Lemma top_k_rows (logits : list (list (logit F))) (thres : float) (k : Z) :
  top_k_count logits thres = Ok k ->
  (0 <= k <= Z.of_nat (shape_last logits))%Z ->
  top_k ltF logits thres = mapM (top_k_row ltF (Z.to_nat k)) logits.
Proof.
  intros Hk Hrange. unfold top_k. rewrite Hk. simpl.
  unfold torch_topk.
  destruct (Z.ltb_spec k 0); [lia|].
  destruct (Z.ltb_spec (Z.of_nat (shape_last logits)) k); [lia|].
  simpl. apply scatter_rows.
Qed.

(** X7.  When [int((1 - thres) * V)] is negative or exceeds the width [V]
    (a threshold above 1 or below 0), [torch.topk] rejects it and [top_k]
    raises [RuntimeError] instead of returning a filtered tensor. *)
Lemma top_k_out_of_range (logits : list (list (logit F))) (thres : float) (k : Z) :
  top_k_count logits thres = Ok k ->
  (k < 0 \/ Z.of_nat (shape_last logits) < k)%Z ->
  top_k ltF logits thres = Raise RuntimeError.
Proof.
  intros Hk Hrange. unfold top_k. rewrite Hk. simpl.
  unfold torch_topk.
  destruct (Z.ltb_spec k 0); [reflexivity|].
  destruct (Z.ltb_spec (Z.of_nat (shape_last logits)) k); [reflexivity|lia].
Qed.

Lemma top_k_zero (logits : list (list (logit F))) :
  mapM (top_k_row ltF 0) logits = Ok (full_like_neg_inf logits).
Proof.
  induction logits as [|row rows IH]; simpl; [reflexivity|].
  rewrite IH. reflexivity.
Qed.

Lemma full_like_all_neg_inf (logits : list (list (logit F))) :
  all_neg_inf (full_like_neg_inf logits).
Proof.
  unfold all_neg_inf, full_like_neg_inf. apply Forall_map, Forall_forall.
  intros row _. apply Forall_forall. intros x Hx.
  apply repeat_spec in Hx. exact Hx.
Qed.

(** At the default threshold nothing is kept up to ten columns:
    [(1 - 0.9) * 10] is [0.9999999999999998] in binary64. *)
Lemma top_k_count_default (logits : list (list (logit F))) :
  shape_last logits <= 10 ->
  top_k_count logits thres_default = Ok 0%Z.
Proof.
  unfold top_k_count. generalize (shape_last logits) as V. intros V HV.
  do 11 (destruct V as [|V]; [vm_compute; reflexivity|]).
  lia.
Qed.

End TopKFacts.

Lemma mapM_Forall2 {A B} (f : A -> result B) (R : A -> B -> Prop) (l : list A) :
  Forall (fun a => exists b, f a = Ok b /\ R a b) l ->
  exists r, mapM f l = Ok r /\ Forall2 R l r.
Proof.
  induction 1 as [|a l (b & Hb & HR) _ (r & Hr & HF)]; simpl.
  - exists []. split; [reflexivity|constructor].
  - exists (b :: r). rewrite Hb, Hr. split; [reflexivity|constructor; assumption].
Qed.

(** ** Division by the temperature, softmax and multinomial *)

(** [-inf] divided by anything is an infinity or nan. *)
Lemma neg_infinity_div_not_finite (t : float) :
  finite (PrimFloat.div neg_infinity t) = false.
Proof.
  unfold finite. rewrite FloatAxioms.div_spec.
  change (Prim2SF neg_infinity) with (S754_infinity true).
  destruct (Prim2SF t); reflexivity.
Qed.

(** Nothing divided by zero or by nan is finite. *)
Lemma div_zero_or_nan_not_finite (x t : float) :
  Prim2SF t = S754_nan \/ (exists s, Prim2SF t = S754_zero s) ->
  finite (PrimFloat.div x t) = false.
Proof.
  intros Ht. unfold finite. rewrite FloatAxioms.div_spec.
  destruct Ht as [->|[s ->]]; destruct (Prim2SF x); reflexivity.
Qed.

(** [-inf] divided by a positive finite temperature is [-inf]. *)
Lemma neg_infinity_div_positive (t : float) :
  (exists m e, Prim2SF t = S754_finite false m e) ->
  Prim2SF (PrimFloat.div neg_infinity t) = S754_infinity true.
Proof.
  intros (m & e & Ht). rewrite FloatAxioms.div_spec, Ht. reflexivity.
Qed.

Lemma finite_keeps_softmax (x : float) :
  finite x = true -> breaks_softmax x = false.
Proof.
  unfold finite, breaks_softmax. destruct (Prim2SF x); congruence.
Qed.

Lemma filter_none {A} (f : A -> bool) (l : list A) :
  (forall x, In x l -> f x = false) -> filter f l = [].
Proof.
  induction l as [|a l IH]; intros H; simpl; [reflexivity|].
  rewrite (H a (or_introl eq_refl)). apply IH. intros x Hx. apply H. right. exact Hx.
Qed.

Lemma existsb_none {A} (f : A -> bool) (l : list A) :
  Forall (fun x => f x = false) l -> existsb f l = false.
Proof.
  induction 1 as [|a l Ha _ IH]; simpl; [reflexivity|].
  rewrite Ha, IH. reflexivity.
Qed.

Lemma nth_scaled {F} (val : F -> float) (t : float) (row : list (logit F)) (j : nat) :
  j < length row ->
  nth j (map (scaled val t) row) nan = scaled val t (entry row j).
Proof.
  intros Hj. unfold entry.
  rewrite (nth_indep _ nan (scaled val t NegInf)) by (rewrite length_map; exact Hj).
  apply map_nth.
Qed.

(** A row without a finite entry has no valid distribution. *)
Lemma softmax_multinomial_not_finite (r : nat) (x : list float) :
  Forall (fun y => finite y = false) x ->
  softmax_multinomial r x = Raise RuntimeError.
Proof.
  intros Hx. unfold softmax_multinomial.
  destruct (existsb breaks_softmax x); [reflexivity|].
  unfold support. rewrite filter_none; [reflexivity|].
  intros j Hj. apply in_seq in Hj.
  rewrite Forall_forall in Hx. apply Hx. apply nth_In. lia.
Qed.

(** With nothing kept by [top_k], the first row already has no entry to
    draw from, whatever the temperature. *)
Lemma multinomial_softmax_neg_inf {F} (val : F -> float) (rnd : nat -> nat)
  (t : float) (c : nat) (logits : list (list (logit F))) :
  logits <> [] ->
  multinomial_softmax val rnd t c (full_like_neg_inf logits) = Raise RuntimeError.
Proof.
  destruct logits as [|row rows]; [congruence|]. intros _. simpl.
  unfold sample_row. rewrite softmax_multinomial_not_finite; [reflexivity|].
  apply Forall_map, Forall_forall. intros x Hx. apply repeat_spec in Hx. subst x.
  apply neg_infinity_div_not_finite.
Qed.


(** C10 (amended).  For a logits tensor of width [V] and any threshold
    [thres], with [k = int((1 - thres) * V)] computed in binary64 and
    [torch.topk] comparing by a strict order: when [0 <= k <= V], [top_k]
    returns a tensor that equals [logits] on [k] positions of each row
    holding [k] largest entries and is [-inf] everywhere else; when [k] is
    negative or exceeds [V], [torch.topk] rejects it and [top_k] raises
    [RuntimeError]; when the product is nan or infinite, [int] raises and so
    does [top_k].  When [k = 0] every entry of the result is [-inf], no row
    has a valid sampling distribution whatever the temperature, and the
    sampling step of [generate] raises; at the default threshold 0.9 this
    is the case for every [V <= 10]. *)
Theorem top_k_keeps_k_largest
  (F : Type) (ltF : F -> F -> bool)
  (ltF_irrefl : forall x, ltF x x = false)
  (ltF_trans : forall x y z, ltF x y = true -> ltF y z = true -> ltF x z = true)
  (logits : list (list (logit F))) (thres : float) :
  Forall (fun row => length row = shape_last logits) logits ->
  let V := shape_last logits in
  match py_int (PrimFloat.mul (PrimFloat.sub 1%float thres) (float_of_nat V)) with
  | Ok k =>
      if ((0 <=? k)%Z && (k <=? Z.of_nat V)%Z)%bool
      then
        exists res,
          top_k ltF logits thres = Ok res /\
          Forall2 (is_top_k_of ltF (Z.to_nat k)) logits res /\
          (k = 0%Z ->
           all_neg_inf res /\
           (logits <> [] ->
            forall (val : F -> float) (rnd : nat -> nat) (temperature : float),
              (forall c, multinomial_softmax val rnd temperature c res
                         = Raise RuntimeError) /\
              (forall (P : Type) net max_seq_len (self : module P) st,
                 mapM last_item
                      (net self (map (slice_from (- max_seq_len)) (gs_out st)))
                 = Ok logits ->
                 generate_step ltF val net max_seq_len rnd self temperature thres st
                 = Raise RuntimeError)))
      else top_k ltF logits thres = Raise RuntimeError
  | Raise e => top_k ltF logits thres = Raise e
  end /\
  (V <= 10 ->
   py_int (PrimFloat.mul (PrimFloat.sub 1%float thres_default) (float_of_nat V))
   = Ok 0%Z).
Proof.
  intros Hshape V. split; [|apply (top_k_count_default logits)].
  destruct (py_int _) as [k|e] eqn:Hk.
  2:{ unfold top_k, top_k_count. fold V. rewrite Hk. reflexivity. }
  destruct ((0 <=? k)%Z && (k <=? Z.of_nat V)%Z) eqn:Hin.
  2:{ unfold top_k, top_k_count. fold V. rewrite Hk. simpl.
      unfold torch_topk. fold V.
      apply andb_false_iff in Hin.
      destruct (Z.ltb_spec k 0) as [|Hk0]; [reflexivity|].
      destruct (Z.ltb_spec (Z.of_nat V) k) as [|HkV]; [reflexivity|].
      destruct Hin as [Hin|Hin]; [apply Z.leb_gt in Hin|apply Z.leb_gt in Hin]; lia. }
  apply andb_true_iff in Hin. destruct Hin as [Hk0 HkV].
  apply Z.leb_le in Hk0. apply Z.leb_le in HkV.
  assert (Hrange : (0 <= k <= Z.of_nat (shape_last logits))%Z) by (fold V; lia).
  destruct (@mapM_Forall2 _ _ (top_k_row ltF (Z.to_nat k))
              (is_top_k_of ltF (Z.to_nat k)) logits) as (res & Hres & Hspec).
  { apply Forall_forall. intros row Hrow.
    apply top_k_row_spec; auto.
    rewrite Forall_forall in Hshape. rewrite (Hshape row Hrow). lia. }
  exists res. rewrite (top_k_rows ltF logits thres Hk Hrange).
  split; [assumption|]. split; [assumption|].
  intros ->. change (Z.to_nat 0) with 0 in Hres.
  rewrite top_k_zero in Hres. inversion Hres; subst res.
  split; [apply full_like_all_neg_inf|].
  intros Hne val rnd temperature. split.
  - intros c. apply multinomial_softmax_neg_inf. exact Hne.
  - intros P net max_seq_len self st Hnet.
    unfold generate_step. rewrite Hnet. simpl.
    rewrite (top_k_rows ltF logits thres Hk Hrange).
    change (Z.to_nat 0) with 0. rewrite top_k_zero. simpl.
    rewrite multinomial_softmax_neg_inf by assumption. reflexivity.
Qed.


(** ** generate *)

Lemma zip_with_length {A B C} (f : A -> B -> C) (l1 : list A) (l2 : list B) :
  length l2 = length l1 -> length (zip_with f l1 l2) = length l1.
Proof.
  intros H. unfold zip_with. rewrite length_map, length_combine. lia.
Qed.

Lemma zip_with_assoc {A B C D E}
  (f : A -> B -> A) (g : A -> C -> D) (h : B -> C -> E) (k : A -> E -> D) :
  (forall a b c, g (f a b) c = k a (h b c)) ->
  forall la lb lc,
    zip_with g (zip_with f la lb) lc = zip_with k la (zip_with h lb lc).
Proof.
  intros Hfg. unfold zip_with.
  induction la as [|a la IH]; intros [|b lb] [|c lc]; simpl; try reflexivity.
  rewrite Hfg. f_equal. apply IH.
Qed.

Lemma zip_with_left {A B} (f : A -> B -> A) :
  (forall a b, f a b = a) ->
  forall la lb, length lb = length la -> zip_with f la lb = la.
Proof.
  intros Hf. unfold zip_with.
  induction la as [|a la IH]; intros [|b lb] Hl; simpl in *; try reflexivity; try lia.
  rewrite Hf. f_equal. apply IH. lia.
Qed.

Lemma zip_with_Forall {A B C} (f : A -> B -> C) (R : C -> Prop) :
  forall la lb, Forall (fun b => forall a, R (f a b)) lb -> Forall R (zip_with f la lb).
Proof.
  unfold zip_with.
  induction la as [|a la IH]; intros [|b lb] H; simpl; try constructor.
  - inversion H; auto.
  - apply IH. inversion H; auto.
Qed.

Lemma strip_prompt {A} (n : nat) (prompt news : list (list A)) :
  Forall (fun row => length row = n) prompt ->
  length news = length prompt ->
  map (slice_from (Z.of_nat n)) (zip_with (@app A) prompt news) = news.
Proof.
  unfold zip_with. intros H. revert news.
  induction H as [|row prompt Hrow _ IH]; intros [|w news] Hl; simpl in *;
    try reflexivity; try lia.
  rewrite <- Hrow at 1. rewrite slice_from_app. f_equal. apply IH. lia.
Qed.

Lemma zip_with_app_nil {A} (out : list (list A)) :
  zip_with (@app A) out (map (fun _ => []) out) = out.
Proof.
  unfold zip_with. induction out as [|row out IH]; simpl; [reflexivity|].
  rewrite app_nil_r. f_equal. exact IH.
Qed.

(** For a positive bound, [row[-m:]] is the last [m] entries of [row], all
    of it when it has fewer. *)
Lemma slice_from_last {A} (m : Z) (row : list A) :
  (0 < m)%Z ->
  slice_from (- m) row = skipn (length row - Z.to_nat m) row.
Proof.
  intros Hm. unfold slice_from.
  destruct (Z.ltb_spec (- m) 0); [|lia].
  f_equal. lia.
Qed.

Section GenerateFacts.

Variable F : Type.
Variable ltF : F -> F -> bool.
Variable val : F -> float.
Variable P : Type.
Variable net : module P -> list (list token) -> list (list (list (logit F))).
Variable max_seq_len : Z.
Variable rnd : nat -> nat.

Local Abbreviation context_of out := (map (slice_from (- max_seq_len)) out).

Lemma cat_last_spec (out : list (list token)) :
  forall sample out',
    cat_last out sample = Ok out' ->
    length sample = length out /\
    out' = zip_with (fun row t => row ++ [t]) out sample.
Proof.
  unfold zip_with.
  induction out as [|row out IH]; intros [|t sample] out' H; simpl in H;
    try discriminate.
  - inversion H. split; reflexivity.
  - destruct (cat_last out sample) as [rest|] eqn:Hrest; simpl in H; [|discriminate].
    inversion H; subst out'. destruct (IH _ _ Hrest) as [Hl ->].
    split; simpl; [lia|reflexivity].
Qed.

Lemma generate_step_spec (self : module P) (temp thres : float) (st st' : gen_state) :
  generate_step ltF val net max_seq_len rnd self temp thres st = Ok st' ->
  exists sample,
    length sample = length (gs_out st) /\
    gs_out st' = zip_with (fun row t => row ++ [t]) (gs_out st) sample.
Proof.
  unfold generate_step. intros H.
  destruct (mapM last_item _) as [logits|]; simpl in H; [|discriminate].
  destruct (top_k ltF logits thres) as [filtered|]; simpl in H; [|discriminate].
  destruct (multinomial_softmax val rnd temp (gs_draws st) filtered) as [sample|];
    simpl in H; [|discriminate].
  destruct (cat_last (gs_out st) sample) as [out|] eqn:Hcat; simpl in H;
    [|discriminate].
  inversion H; subst st'; simpl.
  destruct (cat_last_spec _ _ Hcat) as [Hl ->].
  exists sample. auto.
Qed.

(** The loop appends one token per row and per iteration. *)
Lemma generate_loop_spec (self : module P) (temp thres : float) (n : nat) :
  forall st st',
    generate_loop ltF val net max_seq_len rnd self temp thres n st = Ok st' ->
    exists news,
      length news = length (gs_out st) /\
      Forall (fun w => length w = n) news /\
      gs_out st' = zip_with (@app token) (gs_out st) news.
Proof.
  induction n as [|n IH]; intros st st' H; simpl in H.
  - inversion H; subst st'.
    exists (map (fun _ => []) (gs_out st)).
    rewrite length_map. repeat split.
    + apply Forall_map, Forall_forall. reflexivity.
    + symmetry. apply zip_with_app_nil.
  - destruct (generate_step ltF val net max_seq_len rnd self temp thres st)
      as [st1|] eqn:Hstep; simpl in H; [|discriminate].
    destruct (generate_step_spec _ _ _ _ Hstep) as (sample & Hls & Hout1).
    destruct (IH _ _ H) as (news1 & Hl1 & Hw1 & Hout).
    assert (Hl1' : length news1 = length (gs_out st)).
    { rewrite Hl1, Hout1. apply zip_with_length. exact Hls. }
    exists (zip_with cons sample news1).
    repeat split.
    + rewrite zip_with_length; congruence.
    + apply zip_with_Forall. revert Hw1. apply Forall_impl.
      intros w Hw t. simpl. congruence.
    + rewrite Hout, Hout1. apply zip_with_assoc.
      intros row t w. rewrite <- app_assoc. reflexivity.
Qed.

(** *** The network a call depends on *)

Section SameNetwork.

Variable net' : module P -> list (list token) -> list (list (list (logit F))).

(** Two networks that give the same steps on the running sequences of a
    loop give the same loop; [Inv] is what the running sequences keep. *)
Lemma generate_loop_ext (Inv : list (list token) -> Prop)
  (self : module P) (temp thres : float) :
  (forall st,
     Inv (gs_out st) ->
     generate_step ltF val net' max_seq_len rnd self temp thres st =
     generate_step ltF val net max_seq_len rnd self temp thres st) ->
  (forall st st',
     Inv (gs_out st) ->
     generate_step ltF val net max_seq_len rnd self temp thres st = Ok st' ->
     Inv (gs_out st')) ->
  forall n st,
    Inv (gs_out st) ->
    generate_loop ltF val net' max_seq_len rnd self temp thres n st =
    generate_loop ltF val net max_seq_len rnd self temp thres n st.
Proof.
  intros Hsame Hkeep.
  induction n as [|n IH]; intros st Hinv; simpl; [reflexivity|].
  rewrite (Hsame st Hinv).
  destruct (generate_step ltF val net max_seq_len rnd self temp thres st)
    as [st1|e] eqn:Hstep; simpl; [|reflexivity].
  apply IH. apply (Hkeep st st1 Hinv Hstep).
Qed.

Lemma generate_ext (Inv : list (list token) -> Prop) (w : world P) (a : generate_args) :
  (forall self st,
     Inv (gs_out st) ->
     generate_step ltF val net' max_seq_len rnd self (temperature a) (filter_thres a) st =
     generate_step ltF val net max_seq_len rnd self (temperature a) (filter_thres a) st) ->
  (forall self st st',
     Inv (gs_out st) ->
     generate_step ltF val net max_seq_len rnd self (temperature a) (filter_thres a) st
     = Ok st' ->
     Inv (gs_out st')) ->
  Inv (start_tokens a) ->
  generate ltF val net' max_seq_len rnd w a = generate ltF val net max_seq_len rnd w a.
Proof.
  intros Hsame Hkeep Hinv.
  unfold generate, no_grad, eval_decorator. cbn [self_module grad_enabled].
  unfold generate_body, generate_run.
  rewrite (@generate_loop_ext Inv (eval (self_module w)) (temperature a) (filter_thres a)
             (Hsame (eval (self_module w))) (Hkeep (eval (self_module w)))
             (seq_len a) (GenState (start_tokens a) 0) Hinv).
  reflexivity.
Qed.

End SameNetwork.

(** *** When [generate] returns *)

Lemma last_item_ok {A} (row : list A) :
  row <> [] -> exists a, last_item row = Ok a /\ In a row.
Proof.
  intros Hne. unfold last_item.
  destruct (rev row) as [|a r] eqn:Hrev.
  - apply (f_equal (@rev A)) in Hrev. rewrite rev_involutive in Hrev.
    simpl in Hrev. contradiction.
  - exists a. split; [reflexivity|].
    apply in_rev. rewrite Hrev. left. reflexivity.
Qed.

Lemma last_positions_ok (temp : float) (V : nat) (t : list (list (list (logit F)))) :
  finite_logits val temp V t ->
  exists logits,
    mapM last_item t = Ok logits /\
    length logits = length t /\
    Forall (fun row =>
              length row = V /\
              Forall (fun x => x <> NegInf /\ finite (scaled val temp x) = true) row)
           logits.
Proof.
  induction 1 as [|rows t [Hne Hrows] _ (logits & Hm & Hl & Hall)]; simpl.
  - exists []. repeat split; constructor.
  - destruct (last_item_ok Hne) as (row & Hrow & Hin).
    exists (row :: logits). rewrite Hrow, Hm. simpl.
    repeat split; [congruence|].
    constructor; [|assumption].
    rewrite Forall_forall in Hrows. apply Hrows. assumption.
Qed.

(** A row of which [top_k] kept at least one entry can be sampled, when the
    kept entries stay finite and the masked ones stay [-inf]. *)
Lemma kept_row_can_be_sampled (temp : float) (k r : nat) (row res : list (logit F)) :
  1 <= k ->
  Prim2SF (PrimFloat.div neg_infinity temp) = S754_infinity true ->
  Forall (fun x => x <> NegInf /\ finite (scaled val temp x) = true) row ->
  is_top_k_of ltF k row res ->
  exists t, sample_row val temp r res = Ok t.
Proof.
  intros Hk Hmasked Hfin (Hlen & S & _ & HlS & Hrange & Hsel & Hrest & _).
  rewrite Forall_forall in Hfin.
  assert (Hentry : forall j, j < length res ->
            (In j S /\ finite (scaled val temp (entry res j)) = true) \/
            entry res j = NegInf).
  { intros j Hj. destruct (in_dec Nat.eq_dec j S) as [Hin|Hout].
    - left. split; [exact Hin|]. rewrite (Hsel j Hin).
      apply Hfin. apply nth_In. apply Hrange. exact Hin.
    - right. apply Hrest. exact Hout. }
  unfold sample_row, softmax_multinomial.
  rewrite existsb_none.
  2:{ apply Forall_forall. intros y Hy.
      apply (In_nth _ _ nan) in Hy. destruct Hy as (j & Hj & <-).
      rewrite length_map in Hj. rewrite nth_scaled by exact Hj.
      destruct (Hentry j Hj) as [[_ Hf]| ->].
      - apply finite_keeps_softmax. exact Hf.
      - unfold breaks_softmax, scaled. rewrite Hmasked. reflexivity. }
  destruct S as [|s S]; [simpl in HlS; lia|].
  assert (Hs : In s (support (map (scaled val temp) res))).
  { unfold support. apply filter_In.
    assert (Hsl : s < length res).
    { rewrite Hlen. apply Hrange. left. reflexivity. }
    split.
    - apply in_seq. rewrite length_map. lia.
    - rewrite nth_scaled by exact Hsl.
      rewrite (Hsel s (or_introl eq_refl)).
      apply Hfin. apply nth_In. apply Hrange. left. reflexivity. }
  destruct (support (map (scaled val temp) res)) as [|s0 l]; [contradiction|].
  eexists. reflexivity.
Qed.

Lemma multinomial_softmax_ok (temp : float) (rows : list (list (logit F))) :
  Forall (fun row => forall r, exists t, sample_row val temp r row = Ok t) rows ->
  forall c, exists sample,
    multinomial_softmax val rnd temp c rows = Ok sample /\ length sample = length rows.
Proof.
  induction 1 as [|row rows Hrow _ IH]; intros c; simpl.
  - exists []. split; reflexivity.
  - destruct (Hrow (rnd c)) as (t & Ht). rewrite Ht. simpl.
    destruct (IH (Datatypes.S c)) as (ts & Hts & Hl). rewrite Hts. simpl.
    eexists. split; [reflexivity|]. simpl. congruence.
Qed.

Lemma cat_last_ok (out : list (list token)) :
  forall sample, length sample = length out ->
    exists out', cat_last out sample = Ok out'.
Proof.
  induction out as [|row out IH]; intros [|t sample] Hl; simpl in *; try lia.
  - exists []. reflexivity.
  - destruct (IH sample) as (rest & Hrest); [lia|].
    rewrite Hrest. simpl. eexists. reflexivity.
Qed.

Lemma context_width (out : list (list token)) :
  (0 < max_seq_len)%Z ->
  Forall (fun row => length row <= Z.to_nat max_seq_len) (context_of out).
Proof.
  intros Hm. apply Forall_map, Forall_forall. intros row _.
  rewrite slice_from_length_last by assumption. lia.
Qed.

Section Progress.

Variable V : nat.
Variables temp thres : float.
Variable k : Z.

Hypothesis ltF_irrefl : forall x, ltF x x = false.
Hypothesis ltF_trans :
  forall x y z, ltF x y = true -> ltF y z = true -> ltF x z = true.
Hypothesis max_seq_len_pos : (0 < max_seq_len)%Z.
(** The temperature [temp] is positive and finite. *)
Hypothesis temp_positive : exists m e, Prim2SF temp = S754_finite false m e.
(** The network answers a non-empty batch of non-empty sequences of at most
    [max_seq_len] tokens with as many rows of logits over [V] tokens, which
    stay finite when divided by [temp], and the threshold keeps at least
    one of them. *)
Hypothesis net_ok :
  forall self x, x <> [] ->
    Forall (fun row => row <> [] /\ length row <= Z.to_nat max_seq_len) x ->
    length (net self x) = length x /\ finite_logits val temp V (net self x).
Hypothesis count_ok :
  py_int (PrimFloat.mul (PrimFloat.sub 1%float thres) (float_of_nat V)) = Ok k.
Hypothesis kept : (1 <= k <= Z.of_nat V)%Z.

Lemma context_nonempty (out : list (list token)) :
  Forall (fun row => row <> []) out ->
  Forall (fun row => row <> [] /\ length row <= Z.to_nat max_seq_len) (context_of out).
Proof.
  intros H. apply Forall_map. revert H. apply Forall_impl.
  intros row Hrow. rewrite slice_from_length_last by assumption. split; [|lia].
  intros Hnil. apply (f_equal (@length _)) in Hnil.
  rewrite slice_from_length_last in Hnil by assumption.
  destruct row; [congruence|]. simpl in Hnil. lia.
Qed.

(** What a step finds before it samples: one row of [V] logits per batch
    entry, of which [top_k] keeps [k]. *)
Lemma generate_step_filtered (self : module P) (st : gen_state) :
  gs_out st <> [] ->
  Forall (fun row => row <> []) (gs_out st) ->
  exists logits res,
    mapM last_item (net self (context_of (gs_out st))) = Ok logits /\
    top_k ltF logits thres = Ok res /\
    length res = length (gs_out st) /\
    Forall (fun row =>
              length row = V /\
              Forall (fun x => x <> NegInf /\ finite (scaled val temp x) = true) row)
           logits /\
    Forall2 (is_top_k_of ltF (Z.to_nat k)) logits res.
Proof.
  intros Hne Hrows.
  assert (Hctx : context_of (gs_out st) <> []).
  { destruct (gs_out st); [congruence|discriminate]. }
  destruct (net_ok self Hctx (context_nonempty Hrows)) as [Hlen Hfin].
  destruct (last_positions_ok Hfin) as (logits & Hm & Hl & Hall).
  assert (Hshape : shape_last logits = V).
  { destruct logits as [|row logits].
    - simpl in Hl. rewrite Hlen, length_map in Hl.
      destruct (gs_out st); [congruence|discriminate].
    - inversion Hall as [|? ? [Hw _] _]. exact Hw. }
  assert (Hcount : top_k_count logits thres = Ok k).
  { unfold top_k_count. rewrite Hshape. exact count_ok. }
  destruct (@mapM_Forall2 _ _ (top_k_row ltF (Z.to_nat k))
              (is_top_k_of ltF (Z.to_nat k)) logits) as (res & Hres & Hspec).
  { rewrite Forall_forall in Hall |- *. intros row Hrow.
    apply top_k_row_spec; auto. destruct (Hall row Hrow) as [-> _]. lia. }
  exists logits, res. split; [exact Hm|]. split.
  - rewrite (top_k_rows ltF logits thres Hcount) by (rewrite Hshape; lia). exact Hres.
  - split; [|split; assumption].
    apply mapM_length in Hres. rewrite Hres, Hl, Hlen. apply length_map.
Qed.

Lemma generate_step_ok (self : module P) (st : gen_state) :
  gs_out st <> [] ->
  Forall (fun row => row <> []) (gs_out st) ->
  exists st', generate_step ltF val net max_seq_len rnd self temp thres st = Ok st'.
Proof.
  intros Hne Hrows. unfold generate_step.
  destruct (@generate_step_filtered self st Hne Hrows)
    as (logits & res & Hm & Htop & Hlres & Hall & Hspec).
  rewrite Hm. simpl. rewrite Htop. simpl.
  destruct (@multinomial_softmax_ok temp res) with (c := gs_draws st)
    as (sample & Hsample & Hls).
  { clear Hm Htop Hlres.
    induction Hspec as [|row r logits' res' Hrr _ IH]; constructor.
    - inversion Hall as [|? ? [_ Hf] _]; subst. intros r0.
      apply (@kept_row_can_be_sampled temp (Z.to_nat k) r0 row r); [lia| |assumption|assumption].
      apply neg_infinity_div_positive. exact temp_positive.
    - apply IH. inversion Hall; assumption. }
  rewrite Hsample. simpl.
  destruct (@cat_last_ok (gs_out st) sample) as (out' & Hout); [congruence|].
  rewrite Hout. simpl. eexists. reflexivity.
Qed.

Lemma generate_loop_ok (self : module P) (n : nat) :
  forall st, gs_out st <> [] ->
    Forall (fun row => row <> []) (gs_out st) ->
    exists st', generate_loop ltF val net max_seq_len rnd self temp thres n st = Ok st'.
Proof.
  induction n as [|n IH]; intros st Hne Hrows; simpl.
  - exists st. reflexivity.
  - destruct (@generate_step_ok self st Hne Hrows) as (st1 & Hstep).
    rewrite Hstep. simpl.
    pose proof Hstep as Hspec. apply generate_step_spec in Hspec.
    destruct Hspec as (sample & Hls & Hout).
    apply IH.
    + intros Hnil. apply (f_equal (@length _)) in Hnil.
      rewrite Hout, zip_with_length in Hnil by assumption.
      destruct (gs_out st); [congruence|discriminate].
    + rewrite Hout. apply zip_with_Forall, Forall_forall.
      intros t _ row Hnil. destruct row; discriminate.
Qed.


End Progress.

(** The decorators hand back what the body computes on the module in eval
    mode. *)
Lemma generate_result (w : world P) (a : generate_args) :
  fst (generate ltF val net max_seq_len rnd w a) =
  generate_body ltF val net max_seq_len rnd (eval (self_module w))
                (start_tokens a) (seq_len a) (temperature a) (filter_thres a).
Proof.
  unfold generate, no_grad, eval_decorator. simpl.
  destruct (generate_body _ _ _ _ _ _ _ _ _ _); reflexivity.
Qed.

End GenerateFacts.

(** C8 (amended).  A call [generate(start_tokens, seq_len, ...)] on a
    (batch, n) prompt that returns [r]: [r] has shape (batch, seq_len), and
    the final [out] is the prompt followed by [r] row by row, so [r] holds
    the sampled tokens only.  When [max_seq_len] is positive, every
    sampling step reads the network at the last [max_seq_len] tokens of each
    row of the running sequence (the whole row while it is shorter) and
    nowhere else: replacing the network by one that agrees with it there
    leaves the step as it is, and replacing it by one that agrees with it on
    every input of at most [max_seq_len] tokens per row leaves the whole
    call as it is. *)
Theorem generate_returns_new_tokens
  (F : Type) (ltF : F -> F -> bool) (val : F -> float) (P : Type)
  (net : module P -> list (list token) -> list (list (list (logit F))))
  (max_seq_len : Z) (rnd : nat -> nat)
  (w : world P) (a : generate_args) (r : list (list token)) :
  Forall (fun row => length row = shape_last (start_tokens a)) (start_tokens a) ->
  fst (generate ltF val net max_seq_len rnd w a) = Ok r ->
  length r = length (start_tokens a) /\
  Forall (fun row => length row = seq_len a) r /\
  (exists st,
     generate_run ltF val net max_seq_len rnd (eval (self_module w))
                  (start_tokens a) (seq_len a) (temperature a) (filter_thres a) = Ok st /\
     gs_out st = zip_with (@app token) (start_tokens a) r) /\
  ((0 < max_seq_len)%Z ->
   (forall net' self temp thres st,
      let last_tokens :=
        map (fun row => skipn (length row - Z.to_nat max_seq_len) row) (gs_out st) in
      Forall (fun row => length row <= Z.to_nat max_seq_len) last_tokens /\
      (net' self last_tokens = net self last_tokens ->
       generate_step ltF val net' max_seq_len rnd self temp thres st =
       generate_step ltF val net max_seq_len rnd self temp thres st)) /\
   (forall net',
      (forall self x,
         Forall (fun row => length row <= Z.to_nat max_seq_len) x ->
         net' self x = net self x) ->
      generate ltF val net' max_seq_len rnd w a =
      generate ltF val net max_seq_len rnd w a)).
Proof.
  intros Hrect Hgen. rewrite generate_result in Hgen.
  unfold generate_body in Hgen.
  destruct (generate_run _ _ _ _ _ _ _ _ _ _) as [st|] eqn:Hrun; simpl in Hgen;
    [|discriminate].
  inversion Hgen as [Hr]; clear Hgen.
  unfold generate_run in Hrun.
  pose proof Hrun as Hloop. apply generate_loop_spec in Hloop.
  destruct Hloop as (news & Hl & Hw & Hout).
  simpl in Hl, Hout.
  assert (Hnews : map (slice_from (Z.of_nat (shape_last (start_tokens a)))) (gs_out st)
                  = news).
  { rewrite Hout. apply strip_prompt; assumption. }
  rewrite Hnews. split; [assumption|]. split; [assumption|].
  split; [exists st; split; [reflexivity|exact Hout]|].
  intros Hm.
  assert (Hctx : forall out : list (list token),
            map (fun row => skipn (length row - Z.to_nat max_seq_len) row) out =
            map (slice_from (- max_seq_len)) out).
  { intros out. apply map_ext. intros row. symmetry. apply slice_from_last. exact Hm. }
  split.
  - intros net' self temp thres st0. cbv zeta. split.
    + rewrite Hctx. apply context_width. exact Hm.
    + intros Hnet. unfold generate_step.
      rewrite <- (Hctx (gs_out st0)), Hnet. reflexivity.
  - intros net' Hagree.
    apply (@generate_ext F ltF val P net max_seq_len rnd net' (fun _ => True)).
    + intros self st0 _. unfold generate_step.
      rewrite (Hagree self (map (slice_from (- max_seq_len)) (gs_out st0)))
        by (apply context_width; exact Hm).
      reflexivity.
    + intros; exact I.
    + exact I.
Qed.


(** ** Module trees and the decorators *)


Lemma training_train {P} (b : bool) (m : module P) : training (train b m) = b.
Proof. destruct m; reflexivity. Qed.

Lemma params_train {P} (b : bool) (m : module P) : params (train b m) = params m.
Proof. destruct m; reflexivity. Qed.

Lemma train_train {P} (b c : bool) (m : module P) :
  train b (train c m) = train b m.
Proof.
  induction m as [t p cs IH] using module_tree_ind. simpl. f_equal.
  rewrite map_map. apply map_ext_Forall. exact IH.
Qed.

Lemma map_fixed_in {A} (f : A -> A) (l : list A) :
  map f l = l -> forall x, In x l -> f x = x.
Proof.
  induction l as [|y l IH]; simpl; intros H x Hx; [contradiction|].
  injection H as Hy Hl. destruct Hx as [<-|Hx]; auto.
Qed.

Lemma train_fixed_iff {P} (b : bool) (m : module P) :
  train b m = m <-> uniform b m = true.
Proof.
  induction m as [t p cs IH] using module_tree_ind. simpl.
  rewrite andb_true_iff, forallb_forall. rewrite Forall_forall in IH.
  split.
  - intros H. injection H as Ht Hcs. subst t. split.
    + apply eqb_reflx.
    + intros c Hc. apply IH; [assumption|].
      apply (@map_fixed_in _ (train b) cs Hcs). assumption.
  - intros [Ht Hcs]. apply eqb_prop in Ht. subst t. f_equal.
    rewrite <- (map_id cs) at 2. apply map_ext_in.
    intros c Hc. apply IH; [assumption|]. apply Hcs. assumption.
Qed.

(** What the two decorators of [generate] do around any body: the body runs
    once, on the module in eval mode and with gradient tracking off. *)
Lemma decorated_call {P A B} (fn : method P A B) (w : world P) (a : A) :
  let rw := fn (World false (eval (self_module w))) a in
  no_grad (eval_decorator fn) w a =
  (fst rw,
   World (grad_enabled w)
         (match fst rw with
          | Ok _ => train (training (self_module w)) (self_module (snd rw))
          | Raise _ => self_module (snd rw)
          end)).
Proof.
  unfold no_grad, eval_decorator. simpl.
  destruct (fn _ a) as [[out|e] w2]; reflexivity.
Qed.

(** C9 (amended).  A call of [generate] that returns: the sampling ran on
    the module in eval mode, and any body under the two decorators runs with
    gradient tracking off; afterwards gradient tracking is as before the
    call, the module's own [training] flag is the recorded one, and nothing
    but [training] flags differs from the module before the call.  Every
    module below it carries the recorded flag too, so the module tree is
    the one before the call exactly when all its flags agreed with the
    flag of its root. *)
Theorem generate_restores_mode
  (F : Type) (ltF : F -> F -> bool) (val : F -> float) (P : Type)
  (net : module P -> list (list token) -> list (list (list (logit F))))
  (max_seq_len : Z) (rnd : nat -> nat)
  (w w' : world P) (a : generate_args) (r : list (list token)) :
  generate ltF val net max_seq_len rnd w a = (Ok r, w') ->
  let m := self_module w in
  generate_body ltF val net max_seq_len rnd (eval m)
                (start_tokens a) (seq_len a) (temperature a) (filter_thres a) = Ok r /\
  (forall (B : Type) (fn : method P generate_args B),
     fst (no_grad (eval_decorator fn) w a) = fst (fn (World false (eval m)) a)) /\
  grad_enabled w' = grad_enabled w /\
  training (self_module w') = training m /\
  self_module w' = train (training m) m /\
  (forall b, train b (self_module w') = train b m) /\
  (self_module w' = m <-> uniform (training m) m = true).
Proof.
  intros Hgen m. unfold generate in Hgen. rewrite decorated_call in Hgen.
  simpl in Hgen. fold m in Hgen.
  destruct (generate_body _ _ _ _ _ _ _ _ _ _) as [out|e] eqn:Hbody; simpl in Hgen;
    [|discriminate].
  inversion Hgen; subst r w'; clear Hgen. cbn [grad_enabled self_module].
  split; [reflexivity|]. split.
  { intros B fn. rewrite decorated_call. reflexivity. }
  split; [reflexivity|]. split; [apply training_train|].
  unfold eval. rewrite train_train.
  split; [reflexivity|]. split; [intros b; apply train_train|].
  apply train_fixed_iff.
Qed.

(** ** Attention.forward *)

(** C1 (amended).  The attention layer of the example transformer calls the
    reference computation [plain_cosine_sim_attention], with [causal = True],
    as a black box: its output is the one obtained from that call, whatever
    the fused primitive computes. *)
Theorem attention_layer_uses_plain
  (T : Type) (prims : primitives T) (flash' : attention_fn T)
  (self : attention T) (x : tensor3 T) :
  forward (Primitives (plain_cosine_sim_attention prims) flash') self x
  = forward prims self x /\
  exists q k v,
    forward prims self x =
    to_out self (map (@merge_heads T) (plain_cosine_sim_attention prims q k v true)).
Proof.
  split; [reflexivity|].
  unfold forward. eexists _, _, _. reflexivity.
Qed.


(** ** The theorems at concrete inputs *)

Import Examples.

Lemma Zltb_trans (x y z : Z) :
  (x <? y)%Z = true -> (y <? z)%Z = true -> (x <? z)%Z = true.
Proof. rewrite !Z.ltb_lt. lia. Qed.

(** On a row of 30 logits the default threshold keeps the two largest and
    the threshold 0.5 the fifteen largest. *)
Lemma top_k_keeps_k_largest_witness :
  (exists res,
     top_k Z.ltb logits30 thres_default = Ok res /\
     Forall2 (is_top_k_of Z.ltb 2) logits30 res) /\
  (exists res,
     top_k Z.ltb logits30 0.5%float = Ok res /\
     Forall2 (is_top_k_of Z.ltb 15) logits30 res).
Proof.
  assert (Hrect : Forall (fun row : list (logit Z) => length row = shape_last logits30)
                         logits30) by (repeat constructor).
  split.
  - pose proof (@top_k_keeps_k_largest Z Z.ltb Z.ltb_irrefl Zltb_trans
                  logits30 thres_default Hrect) as H.
    cbv zeta in H. destruct H as [H _].
    assert (Hk : py_int (PrimFloat.mul (PrimFloat.sub 1%float thres_default)
                                       (float_of_nat (shape_last logits30))) = Ok 2%Z)
      by (vm_compute; reflexivity).
    rewrite Hk in H.
    change ((0 <=? 2)%Z && (2 <=? Z.of_nat (shape_last logits30))%Z) with true in H.
    destruct H as (res & H1 & H2 & _). exists res. split; assumption.
  - pose proof (@top_k_keeps_k_largest Z Z.ltb Z.ltb_irrefl Zltb_trans
                  logits30 0.5%float Hrect) as H.
    cbv zeta in H. destruct H as [H _].
    assert (Hk : py_int (PrimFloat.mul (PrimFloat.sub 1%float 0.5%float)
                                       (float_of_nat (shape_last logits30))) = Ok 15%Z)
      by (vm_compute; reflexivity).
    rewrite Hk in H.
    change ((0 <=? 15)%Z && (15 <=? Z.of_nat (shape_last logits30))%Z) with true in H.
    destruct H as (res & H1 & H2 & _). exists res. split; assumption.
Defined.

(** C10, as stated, fails for a threshold outside [0, 1]: at [thres = -1]
    the count is [int(2 * 30) = 60], more than the 30 entries of the row, and
    [top_k] raises instead of returning a tensor. *)
Lemma top_k_rejects_negative_threshold :
  py_int (PrimFloat.mul (PrimFloat.sub 1%float (-1)%float)
                        (float_of_nat (shape_last logits30))) = Ok 60%Z /\
  top_k Z.ltb logits30 (-1)%float = Raise RuntimeError.
Proof.
  split; vm_compute; reflexivity.
Qed.

(** Four tokens sampled after a two-token prompt with [max_seq_len = 3],
    from a network without logits for sequences of more than three tokens;
    the example network, which has logits for every sequence, gives the
    same call. *)
Lemma generate_returns_new_tokens_witness :
  fst (generate Z.ltb float_of_Z net30_short 3%Z counter mixed_world prompt)
  = Ok [[26; 2; 26; 2]; [25; 4; 25; 4]] /\
  length [[26; 2; 26; 2]; [25; 4; 25; 4]] = 2 /\
  Forall (fun row => length row = 4) [[26; 2; 26; 2]; [25; 4; 25; 4]] /\
  generate Z.ltb float_of_Z net30 3%Z counter mixed_world prompt =
  generate Z.ltb float_of_Z net30_short 3%Z counter mixed_world prompt.
Proof.
  assert (Hret : fst (generate Z.ltb float_of_Z net30_short 3%Z counter mixed_world prompt)
                 = Ok [[26; 2; 26; 2]; [25; 4; 25; 4]]) by (vm_compute; reflexivity).
  destruct (@generate_returns_new_tokens Z Z.ltb float_of_Z unit net30_short 3%Z counter
              mixed_world prompt [[26; 2; 26; 2]; [25; 4; 25; 4]])
    as (H1 & H2 & _ & H3).
  - repeat constructor.
  - exact Hret.
  - destruct H3 as [_ H3]; [lia|].
    split; [exact Hret|]. split; [exact H1|]. split; [exact H2|]. apply H3.
    intros self x Hx. unfold net30_short.
    replace (forallb (fun row => length row <=? 3) x) with true; [reflexivity|].
    symmetry. apply forallb_forall. intros row Hrow. apply Nat.leb_le.
    rewrite Forall_forall in Hx. apply (Hx row Hrow).
Defined.

(** C8, as stated, fails for [max_seq_len = 0]: [out[:, -0:]] is the whole
    running sequence, so the network is read at sequences of more than 0
    tokens; two networks that agree on every input without tokens give
    different calls. *)
Lemma generate_unclipped_at_zero :
  (forall self x,
     Forall (fun row => length row <= Z.to_nat 0) x -> net10 self x = net30 self x) /\
  fst (generate Z.ltb float_of_Z net30 0%Z counter mixed_world prompt)
  = Ok [[26; 2; 26; 2]; [25; 4; 25; 4]] /\
  fst (generate Z.ltb float_of_Z net10 0%Z counter mixed_world prompt)
  = Raise RuntimeError.
Proof.
  split; [|split; vm_compute; reflexivity].
  intros self x Hx. unfold net10, net30.
  induction Hx as [|row x Hrow _ IH]; simpl; [reflexivity|].
  destruct row; [|simpl in Hrow; lia]. simpl. f_equal. exact IH.
Qed.

Lemma generate_restores_mode_witness :
  training (Module_ true tt [Module_ true tt []]) = training (self_module mixed_world) /\
  Module_ true tt [Module_ true tt []] = train true (self_module mixed_world).
Proof.
  destruct (@generate_restores_mode Z Z.ltb float_of_Z unit net30 3%Z counter mixed_world
              (World true (Module_ true tt [Module_ true tt []])) prompt
              [[26; 2; 26; 2]; [25; 4; 25; 4]])
    as (_ & _ & _ & H1 & H2 & _).
  - vm_compute. reflexivity.
  - split; assumption.
Defined.

(** C9, as stated, fails: called on a wrapper in training mode whose
    network was put in eval mode, [generate] returns and leaves the network
    in training mode. *)
Lemma generate_changes_submodule_mode :
  generate Z.ltb float_of_Z net30 3%Z counter mixed_world prompt =
    (Ok [[26; 2; 26; 2]; [25; 4; 25; 4]],
     World true (Module_ true tt [Module_ true tt []])) /\
  children (Module_ true tt [Module_ true tt []]) <> children (self_module mixed_world).
Proof.
  split; [vm_compute; reflexivity|].
  simpl. discriminate.
Qed.

(** C1, as stated, fails: with the fused primitive held fixed, replacing the
    reference computation changes what the attention layer returns, and
    replacing the fused primitive changes nothing. *)
Lemma attention_layer_output_follows_plain :
  forward (Primitives returns_v returns_v) copy_layer [[[1; 2]]]%Z <>
  forward (Primitives returns_nothing returns_v) copy_layer [[[1; 2]]]%Z /\
  forward (Primitives returns_v returns_v) copy_layer [[[1; 2]]]%Z =
  forward (Primitives returns_v returns_nothing) copy_layer [[[1; 2]]]%Z.
Proof.
  split; [vm_compute; discriminate|reflexivity].
Qed.

End TransformerFacts.

(* ================================================================== *)
(** * Properties of benchmark.py *)

Module BenchmarkFacts.

Import Benchmark.

(** ** A run, configuration by configuration *)

Section Runs.

Variable benchmark :
  primitive -> bool -> bool -> tensor -> tensor -> tensor -> bool -> result time.
Variable a : args.

Lemma zero_is_not_sentinel (t : time) : Qeq_bool t 0 = true -> Qeq_bool t (-1) = false.
Proof.
  intros H0. apply Qeq_bool_iff in H0.
  destruct (Qeq_bool t (-1)) eqn:H1; [|reflexivity].
  apply Qeq_bool_iff in H1. rewrite H0 in H1. discriminate.
Qed.

(** One configuration, from any state. *)
Lemma bench_seq_run (dt : dtype) (seq : nat) (s : state) :
  bench_seq benchmark a dt BATCH_SIZES HEADS DIM seq s =
  match fatal_at benchmark a (dt, seq, draws s) with
  | None =>
      (Ok tt,
       State (stdout s ++ [row_of benchmark a (dt, seq, draws s)])
             (calls s ++ calls_of a (dt, seq, draws s))
             (3 + draws s))
  | Some e =>
      (Raise e,
       State (stdout s)
             (calls s ++ calls_before_fatal benchmark a (dt, seq, draws s))
             (3 + draws s))
  end.
Proof.
  unfold bench_seq, fatal_at, row_of, calls_of, calls_before_fatal, row_at,
    fused_time_at, calls_at, tensors_at, seq_, randn,
    fused_attention_fn, attention_fn, timed, try_except, divide, print, ret, raise.
  cbn [stdout calls draws].
  destruct (benchmark flash_cosine_sim_attention _ _ _ _ _ _) as [tf|e]; [|reflexivity].
  destruct (benchmark plain_cosine_sim_attention _ _ _ _ _ _) as [tb|e].
  - destruct (Qeq_bool tb 0) eqn:Hz.
    + rewrite (zero_is_not_sentinel _ Hz). cbn [negb].
      rewrite <- !app_assoc. reflexivity.
    + destruct (Qeq_bool tb (-1)) eqn:Hsent; cbn [negb]; rewrite ?Hz;
        rewrite <- !app_assoc; reflexivity.
  - change (Qeq_bool (-1) (-1)) with true. cbn [negb].
    rewrite <- !app_assoc. reflexivity.
Qed.

Lemma for_each_seq_run (dt : dtype) (seqs : list nat) :
  forall s,
    let cs := configs_from dt (draws s) seqs in
    exists s',
      for_each seqs (bench_seq benchmark a dt BATCH_SIZES HEADS DIM) s
      = (end_of benchmark a cs, s') /\
      stdout s' = stdout s ++ rows_until benchmark a cs /\
      calls s' = calls s ++ calls_until benchmark a cs /\
      (end_of benchmark a cs = Ok tt -> draws s' = 3 * length seqs + draws s).
Proof.
  induction seqs as [|seq seqs IH]; intros s; cbv zeta.
  - exists s. cbn. unfold ret. rewrite !app_nil_r. repeat split; reflexivity.
  - cbn [for_each configs_from end_of rows_until calls_until]. unfold seq_ at 1.
    rewrite bench_seq_run.
    destruct (fatal_at benchmark a (dt, seq, draws s)) as [e|].
    + eexists. split; [reflexivity|]. cbn [stdout calls draws].
      rewrite app_nil_r. repeat split; try reflexivity. discriminate.
    + destruct (IH (State (stdout s ++ [row_of benchmark a (dt, seq, draws s)])
                          (calls s ++ calls_of a (dt, seq, draws s))
                          (3 + draws s))) as (s' & Hrun & Hout & Hcalls & Hdraws).
      cbn [stdout calls draws] in *.
      exists s'. split; [exact Hrun|].
      rewrite Hout, Hcalls, <- !app_assoc. repeat split; try reflexivity.
      intros Hend. rewrite (Hdraws Hend). cbn [length]. lia.
Qed.

(** *** The run over a list of configurations *)

Lemma row_at_is_row dt batch heads dim seq d t :
  is_row (row_at benchmark a dt batch heads dim seq d t) = true.
Proof.
  unfold row_at, tensors_at.
  destruct (benchmark _ _ _ _ _ _ _) as [tb|e]; [destruct (Qeq_bool tb (-1))|];
    reflexivity.
Qed.

Lemma row_of_is_row (c : dtype * nat * nat) : is_row (row_of benchmark a c) = true.
Proof. destruct c as [[dt seq] d]. apply row_at_is_row. Qed.

Lemma rows_until_are_rows (cs : list (dtype * nat * nat)) :
  filter is_row (rows_until benchmark a cs) = rows_until benchmark a cs.
Proof.
  induction cs as [|c cs IH]; cbn [rows_until]; [reflexivity|].
  destruct (fatal_at benchmark a c); [reflexivity|].
  cbn [filter]. rewrite row_of_is_row, IH. reflexivity.
Qed.

(** Through configurations that do not end the run. *)
Lemma run_through (pre post : list (dtype * nat * nat)) :
  Forall (fun c => fatal_at benchmark a c = None) pre ->
  end_of benchmark a (pre ++ post) = end_of benchmark a post /\
  rows_until benchmark a (pre ++ post) =
    map (row_of benchmark a) pre ++ rows_until benchmark a post /\
  calls_until benchmark a (pre ++ post) =
    flat_map (calls_of a) pre ++ calls_until benchmark a post.
Proof.
  induction 1 as [|c pre Hc _ (IH1 & IH2 & IH3)];
    cbn [app end_of rows_until calls_until map flat_map]; [repeat split|].
  rewrite Hc, IH1, IH2, IH3, <- app_assoc. repeat split.
Qed.

Lemma run_through_all (cs : list (dtype * nat * nat)) :
  Forall (fun c => fatal_at benchmark a c = None) cs ->
  end_of benchmark a cs = Ok tt /\
  rows_until benchmark a cs = map (row_of benchmark a) cs /\
  calls_until benchmark a cs = flat_map (calls_of a) cs.
Proof.
  intros H. destruct (run_through [] H) as (H1 & H2 & H3).
  rewrite !app_nil_r in *. cbn in *. repeat split; assumption.
Qed.

Lemma end_of_ok (cs : list (dtype * nat * nat)) :
  end_of benchmark a cs = Ok tt ->
  Forall (fun c => fatal_at benchmark a c = None) cs.
Proof.
  induction cs as [|c cs IH]; cbn [end_of]; [constructor|].
  destruct (fatal_at benchmark a c) eqn:Hc; [discriminate|].
  intros H. constructor; [exact Hc|apply IH; exact H].
Qed.

Lemma calls_until_prefix (cs : list (dtype * nat * nat)) :
  exists rest, flat_map (calls_of a) cs = calls_until benchmark a cs ++ rest.
Proof.
  induction cs as [|c cs (rest & IH)]; cbn [flat_map calls_until].
  - exists []. reflexivity.
  - destruct (fatal_at benchmark a c).
    + destruct c as [[dt seq] d].
      unfold calls_before_fatal, calls_of, calls_at, tensors_at.
      destruct (benchmark flash_cosine_sim_attention _ _ _ _ _ _).
      * eexists. cbn [app]. reflexivity.
      * eexists. cbn [app]. reflexivity.
    + exists rest. rewrite IH, app_assoc. reflexivity.
Qed.

Lemma end_of_app (cs1 cs2 : list (dtype * nat * nat)) :
  end_of benchmark a (cs1 ++ cs2) =
  match end_of benchmark a cs1 with
  | Ok _ => end_of benchmark a cs2
  | Raise e => Raise e
  end.
Proof.
  induction cs1 as [|c cs1 IH]; cbn [app end_of]; [reflexivity|].
  destruct (fatal_at benchmark a c); [reflexivity|exact IH].
Qed.

Lemma rows_until_app (cs1 cs2 : list (dtype * nat * nat)) :
  rows_until benchmark a (cs1 ++ cs2) =
  rows_until benchmark a cs1 ++
  match end_of benchmark a cs1 with
  | Ok _ => rows_until benchmark a cs2
  | Raise _ => []
  end.
Proof.
  induction cs1 as [|c cs1 IH]; cbn [app end_of rows_until]; [reflexivity|].
  destruct (fatal_at benchmark a c); [reflexivity|]. rewrite IH. reflexivity.
Qed.

Lemma calls_until_app (cs1 cs2 : list (dtype * nat * nat)) :
  calls_until benchmark a (cs1 ++ cs2) =
  calls_until benchmark a cs1 ++
  match end_of benchmark a cs1 with
  | Ok _ => calls_until benchmark a cs2
  | Raise _ => []
  end.
Proof.
  induction cs1 as [|c cs1 IH]; cbn [app end_of calls_until]; [reflexivity|].
  destruct (fatal_at benchmark a c); [rewrite app_nil_r; reflexivity|].
  rewrite IH, app_assoc. reflexivity.
Qed.

Lemma sweep_split :
  sweep a =
  configs_from float32 0 TEST_SEQUENCE_LENGTHS ++
  (if only_forwards a then configs_from float16 18 TEST_SEQUENCE_LENGTHS else []).
Proof.
  unfold sweep, swept_dtypes. destruct (only_forwards a); reflexivity.
Qed.

(** One dtype that is swept, from any state. *)
Lemma bench_dtype_run (dt : dtype) (s : state) :
  TEST_BACKWARDS a && dtype_eqb dt float16 = false ->
  let cs := configs_from dt (draws s) TEST_SEQUENCE_LENGTHS in
  exists s',
    bench_dtype benchmark a dt s = (end_of benchmark a cs, s') /\
    filter is_row (stdout s') = filter is_row (stdout s) ++ rows_until benchmark a cs /\
    calls s' = calls s ++ calls_until benchmark a cs /\
    (end_of benchmark a cs = Ok tt -> draws s' = 18 + draws s).
Proof.
  intros Hswept. cbv zeta. unfold bench_dtype. rewrite Hswept.
  change permutations with [[BATCH_SIZES; HEADS; DIM]].
  cbn [for_each bench_permutation]. unfold seq_ at 1 2 3 4, print at 1 2 3.
  cbn [stdout calls draws].
  destruct (for_each_seq_run dt TEST_SEQUENCE_LENGTHS
              (State (((stdout s ++ [Rule]) ++ [Header dt BATCH_SIZES HEADS DIM]) ++ [Rule])
                     (calls s) (draws s)))
    as (s' & Hrun & Hout & Hcalls & Hdraws).
  cbn [stdout calls draws] in *. rewrite Hrun.
  destruct (end_of benchmark a (configs_from dt (draws s) TEST_SEQUENCE_LENGTHS)) as [[]|e].
  - exists s'. unfold ret. split; [reflexivity|]. split; [|split; [exact Hcalls|]].
    + rewrite Hout, !filter_app. cbn [filter is_row]. rewrite !app_nil_r.
      rewrite rows_until_are_rows. reflexivity.
    + intros _. rewrite Hdraws by reflexivity. reflexivity.
  - exists s'. split; [reflexivity|]. split; [|split; [exact Hcalls|discriminate]].
    rewrite Hout, !filter_app. cbn [filter is_row]. rewrite !app_nil_r.
    rewrite rows_until_are_rows. reflexivity.
Qed.

Lemma main_past_assertions :
  only_forwards a && only_backwards a = false ->
  main true benchmark a initial =
  match bench_dtype benchmark a float32 initial with
  | (Ok _, s1) => bench_dtype benchmark a float16 s1
  | (Raise e, s1) => (Raise e, s1)
  end.
Proof.
  intros Hflags. unfold main. rewrite Hflags. cbn [negb for_each].
  unfold seq_, ret.
  destruct (bench_dtype benchmark a float32 initial) as [[[]|e] s1]; [|reflexivity].
  destruct (bench_dtype benchmark a float16 s1) as [[[]|e] s2]; reflexivity.
Qed.

(** The whole run, when the script gets past its assertions: it goes
    through the sweep up to the first configuration that ends it. *)
Lemma main_run :
  only_forwards a && only_backwards a = false ->
  fst (main true benchmark a initial) = end_of benchmark a (sweep a) /\
  filter is_row (stdout (snd (main true benchmark a initial)))
  = rows_until benchmark a (sweep a) /\
  calls (snd (main true benchmark a initial)) = calls_until benchmark a (sweep a).
Proof.
  intros Hflags. rewrite main_past_assertions by exact Hflags.
  rewrite sweep_split, end_of_app, rows_until_app, calls_until_app.
  destruct (@bench_dtype_run float32 initial) as (s1 & Hrun1 & Hout1 & Hcalls1 & Hdraws1);
    [apply andb_false_r|].
  cbn [stdout calls draws initial filter app] in *. rewrite Hrun1.
  destruct (end_of benchmark a (configs_from float32 0 TEST_SEQUENCE_LENGTHS)) as [[]|e].
  2:{ cbn [fst snd]. rewrite Hout1, Hcalls1, !app_nil_r. repeat split. }
  specialize (Hdraws1 eq_refl).
  destruct (only_forwards a) eqn:Hof.
  - destruct (@bench_dtype_run float16 s1) as (s2 & Hrun2 & Hout2 & Hcalls2 & _).
    { unfold TEST_BACKWARDS. rewrite Hof. reflexivity. }
    rewrite Hdraws1 in *. rewrite Hrun2.
    cbn [fst snd]. rewrite Hout2, Hcalls2, Hout1, Hcalls1. repeat split.
  - unfold bench_dtype, TEST_BACKWARDS. rewrite Hof. cbn [negb andb dtype_eqb].
    unfold ret. cbn [fst snd end_of rows_until calls_until].
    rewrite Hout1, Hcalls1, !app_nil_r. repeat split.
Qed.

Lemma sweep_calls_eq :
  sweep_calls a =
  calls_from a float32 BATCH_SIZES HEADS DIM 0 TEST_SEQUENCE_LENGTHS
  ++ (if only_forwards a
      then calls_from a float16 BATCH_SIZES HEADS DIM 18 TEST_SEQUENCE_LENGTHS
      else []).
Proof.
  unfold sweep_calls, sweep, swept_dtypes.
  destruct (only_forwards a); reflexivity.
Qed.

End Runs.

(** A configuration does not end the run when its fused call returns and
    its reference call is not timed at exactly 0. *)
Lemma passes_iff benchmark a dt seq d :
  fatal_at benchmark a (dt, seq, d) = None <->
  (let q := Tensor [4; 8; seq; 64] dt d in
   let k := Tensor [4; 8; seq; 64] dt (d + 1) in
   let v := Tensor [4; 8; seq; 64] dt (d + 2) in
   (exists t, benchmark flash_cosine_sim_attention (TEST_FORWARDS a) (TEST_BACKWARDS a)
                        q k v (causal a) = Ok t) /\
   (forall t, benchmark plain_cosine_sim_attention (TEST_FORWARDS a) (TEST_BACKWARDS a)
                        q k v (causal a) = Ok t -> Qeq_bool t 0 = false)).
Proof.
  cbv zeta. unfold fatal_at, tensors_at, CAUSAL.
  change BATCH_SIZES with 4. change HEADS with 8. change DIM with 64.
  replace (d + 1) with (S d) by lia. replace (d + 2) with (S (S d)) by lia.
  destruct (benchmark flash_cosine_sim_attention _ _ _ _ _ _) as [tf|e].
  - destruct (benchmark plain_cosine_sim_attention _ _ _ _ _ _) as [tb|e].
    + destruct (Qeq_bool tb 0) eqn:Hz; split.
      * discriminate.
      * intros [_ H]. specialize (H tb eq_refl). congruence.
      * intros _. split; [eexists; reflexivity|]. intros t Ht. congruence.
      * reflexivity.
    + split; [|reflexivity]. intros _. split; [eexists; reflexivity|discriminate].
  - split; [discriminate|]. intros [[t Ht] _]. discriminate.
Qed.




(** C2 (amended).  In a run that passes its assertions, for every
    configuration of the sweep that the run reaches (no earlier
    configuration has a fused call that raises or a reference call timed at
    exactly 0): when its fused call returns and its reference call raises,
    the configuration's row records the sentinel (baseline 'oom', slowdown
    0) next to the fused time, and the run goes on through the remaining
    configurations, up to the first of them that ends it.  The fused call
    is outside the [try]: when it raises, the exception ends the run at
    once, with no row for this configuration and no further timed call. *)
Theorem baseline_oom_is_recorded
  (benchmark : primitive -> bool -> bool -> tensor -> tensor -> tensor -> bool
               -> result time)
  (a : args) (pre post : list (dtype * nat * nat)) (dt : dtype) (seq d : nat) :
  only_forwards a && only_backwards a = false ->
  sweep a = pre ++ (dt, seq, d) :: post ->
  Forall (fun c => fatal_at benchmark a c = None) pre ->
  let q := Tensor [4; 8; seq; 64] dt d in
  let k := Tensor [4; 8; seq; 64] dt (S d) in
  let v := Tensor [4; 8; seq; 64] dt (S (S d)) in
  let fused := benchmark flash_cosine_sim_attention (TEST_FORWARDS a) (TEST_BACKWARDS a)
                         q k v (causal a) in
  let baseline := benchmark plain_cosine_sim_attention (TEST_FORWARDS a) (TEST_BACKWARDS a)
                            q k v (causal a) in
  let run := main true benchmark a initial in
  (forall tf e,
     fused = Ok tf -> baseline = Raise e ->
     fst run = end_of benchmark a post /\
     filter is_row (stdout (snd run)) =
       map (row_of benchmark a) pre ++ Row seq 0%Q tf None :: rows_until benchmark a post /\
     calls (snd run) =
       flat_map (calls_of a) pre ++
       [Call flash_cosine_sim_attention q k v (causal a);
        Call plain_cosine_sim_attention q k v (causal a)] ++
       calls_until benchmark a post) /\
  (forall e,
     fused = Raise e ->
     fst run = Raise e /\
     filter is_row (stdout (snd run)) = map (row_of benchmark a) pre /\
     calls (snd run) =
       flat_map (calls_of a) pre ++ [Call flash_cosine_sim_attention q k v (causal a)]).
Proof.
  intros Hflags Hsweep Hpre q k v fused baseline run.
  destruct (@main_run benchmark a Hflags) as (Hend & Hrows & Hcalls).
  fold run in Hend, Hrows, Hcalls.
  rewrite Hsweep in Hend, Hrows, Hcalls.
  destruct (@run_through benchmark a pre ((dt, seq, d) :: post) Hpre) as (H1 & H2 & H3).
  rewrite H1 in Hend. rewrite H2 in Hrows. rewrite H3 in Hcalls.
  cbn [end_of rows_until calls_until] in Hend, Hrows, Hcalls.
  unfold fatal_at, row_of, row_at, fused_time_at, calls_of, calls_at,
    calls_before_fatal, tensors_at, CAUSAL in Hend, Hrows, Hcalls.
  change BATCH_SIZES with 4 in *. change HEADS with 8 in *. change DIM with 64 in *.
  fold q k v in Hend, Hrows, Hcalls. fold fused baseline in Hend, Hrows, Hcalls.
  split.
  - intros tf e Hf Hb. rewrite Hf, Hb in Hend, Hrows, Hcalls.
    repeat split; assumption.
  - intros e Hf. rewrite Hf in Hend, Hrows, Hcalls.
    rewrite app_nil_r in Hrows. repeat split; assumption.
Qed.


(** ** The theorems at concrete runs *)

Import Examples.



(** With a reference call that runs out of memory from length 1024 on, the
    run completes with twelve rows, the one of (float32, 1024) with the
    sentinel; with a fused call that runs out of memory at (float32, 2048)
    the run ends there, after nine timed calls. *)
Lemma baseline_oom_is_recorded_witness :
  (fst (main true baseline_oom (Args false true false) initial) = Ok tt /\
   nth_error (filter is_row (stdout (snd (main true baseline_oom (Args false true false)
                                                initial)))) 3
   = Some (Row 1024 0%Q 1%Q None) /\
   length (filter is_row (stdout (snd (main true baseline_oom (Args false true false)
                                             initial)))) = 12) /\
  (fst (main true fused_oom (Args false true false) initial) = Raise OutOfMemoryError /\
   length (calls (snd (main true fused_oom (Args false true false) initial))) = 9) /\
  (length (calls (snd (main true baseline_oom (Args false true false) initial))) = 24 /\
   length (filter is_row (stdout (snd (main true fused_oom (Args false true false)
                                             initial)))) = 4).
Proof.
  split; [|split; [|split; vm_compute; reflexivity]].
  - destruct (@baseline_oom_is_recorded baseline_oom (Args false true false)
                (firstn 3 (sweep (Args false true false)))
                (skipn 4 (sweep (Args false true false))) float32 1024 9)
      as [Hrec _].
    + reflexivity.
    + reflexivity.
    + repeat constructor.
    + destruct (Hrec 1%Q OutOfMemoryError eq_refl eq_refl) as (Hend & Hrows & _).
      rewrite Hend, Hrows. repeat split.
  - destruct (@baseline_oom_is_recorded fused_oom (Args false true false)
                (firstn 4 (sweep (Args false true false)))
                (skipn 5 (sweep (Args false true false))) float32 2048 12)
      as [_ Hend].
    + reflexivity.
    + reflexivity.
    + repeat constructor.
    + destruct (Hend OutOfMemoryError eq_refl) as (Hfst & _ & Hcalls).
      rewrite Hfst, Hcalls. split; reflexivity.
Defined.

(** C2, as stated, fails for the fused path: when the fused call runs out of
    memory at (float32, 2048) the exception ends the run after four of the
    twelve rows; no sentinel is recorded and nothing further is timed. *)
Lemma fused_oom_aborts_run :
  fst (main true fused_oom (Args false true false) initial) = Raise OutOfMemoryError /\
  filter is_row (stdout (snd (main true fused_oom (Args false true false) initial))) =
    [Row 128 (1 # 2) 1%Q (Some 2%Q); Row 256 (1 # 2) 1%Q (Some 2%Q);
     Row 512 (1 # 2) 1%Q (Some 2%Q); Row 1024 (1 # 2) 1%Q (Some 2%Q)].
Proof.
  split; vm_compute; reflexivity.
Qed.

End BenchmarkFacts.

(* ================================================================== *)
(** * Properties of the attention primitive *)

Module KernelFacts.

Import Kernel.

(** ** Tiles *)

Lemma num_tiles_cover (B n : nat) : B <> 0 -> n <= num_tiles B n * B.
Proof.
  intros HB. unfold num_tiles.
  pose proof (Nat.div_mod_eq (n + B - 1) B) as Hd.
  pose proof (Nat.mod_upper_bound (n + B - 1) B HB) as Hm.
  nia.
Qed.

Lemma tiles_prefix (B n k : nat) :
  flat_map (tile_positions B n) (seq 0 k) = seq 0 (Nat.min n (k * B)).
Proof.
  induction k as [|k IH]; [rewrite Nat.min_0_r; reflexivity|].
  rewrite seq_S, flat_map_app, IH. simpl. rewrite app_nil_r.
  unfold tile_positions.
  destruct (Nat.le_gt_cases (k * B) n) as [Hle|Hgt].
  - rewrite (Nat.min_r n (k * B)) by assumption.
    rewrite <- seq_app. f_equal. lia.
  - replace (n - k * B) with 0 by lia. rewrite Nat.min_0_r. simpl.
    rewrite app_nil_r. f_equal. lia.
Qed.

(** The tiles, taken in order, go through every position once. *)
Lemma tiles_cover (B n : nat) :
  B <> 0 -> flat_map (tile_positions B n) (seq 0 (num_tiles B n)) = seq 0 n.
Proof.
  intros HB. rewrite tiles_prefix. f_equal.
  pose proof (num_tiles_cover n HB). lia.
Qed.

Lemma tile_positions_le_last (B n t i : nat) :
  In i (tile_positions B n t) -> i <= last (tile_positions B n t) 0.
Proof.
  unfold tile_positions. generalize (Nat.min B (n - t * B)) as len. intros len.
  destruct len as [|len]; [intros []|].
  rewrite seq_S, last_last. intros Hin.
  apply in_app_or in Hin. destruct Hin as [Hin|[<-|[]]]; [|lia].
  apply in_seq in Hin. lia.
Qed.

Lemma tile_positions_ge (B n t j : nat) :
  In j (tile_positions B n t) -> t * B <= j.
Proof. unfold tile_positions. intros Hin. apply in_seq in Hin. lia. Qed.

Lemma fold_left_ext_in {A B} (f g : A -> B -> A) (l : list B) :
  (forall a b, In b l -> f a b = g a b) ->
  forall a, fold_left f l a = fold_left g l a.
Proof.
  induction l as [|b l IH]; intros H a; simpl; [reflexivity|].
  rewrite H by (left; reflexivity). apply IH.
  intros a' b' Hb'. apply H. right; exact Hb'.
Qed.

Lemma fold_left_id {A B} (f : A -> B -> A) (l : list B) :
  (forall a b, In b l -> f a b = a) ->
  forall a, fold_left f l a = a.
Proof.
  induction l as [|b l IH]; intros H a; simpl; [reflexivity|].
  rewrite H by (left; reflexivity). apply IH.
  intros a' b' Hb'. apply H. right; exact Hb'.
Qed.

Lemma combine_map_self {A B} (g : A -> B) (l : list A) :
  combine l (map g l) = map (fun a => (a, g a)) l.
Proof. induction l as [|a l IH]; simpl; [reflexivity|]. rewrite IH. reflexivity. Qed.

Lemma nth_error_map_seq {A} (f : nat -> A) (n i : nat) :
  nth_error (map f (seq 0 n)) i = if i <? n then Some (f i) else None.
Proof.
  destruct (Nat.ltb_spec i n) as [Hlt|Hge].
  - rewrite nth_error_map, nth_error_nth' with (d := 0) by (rewrite length_seq; lia).
    rewrite seq_nth by assumption. reflexivity.
  - apply nth_error_None. rewrite length_map, length_seq. lia.
Qed.

Lemma fold_left_seq_nth {A B} (d : A) (g : B -> A -> B) (l : list A) :
  forall (pre : list A) (st : B),
    fold_left (fun st j => g st (nth j (pre ++ l) d)) (seq (length pre) (length l)) st
    = fold_left g l st.
Proof.
  induction l as [|a l IH]; intros pre st; simpl; [reflexivity|].
  rewrite app_nth2 by lia. rewrite Nat.sub_diag. simpl.
  specialize (IH (pre ++ [a]) (g st a)).
  rewrite length_app in IH. simpl in IH.
  replace (length pre + 1) with (S (length pre)) in IH by lia.
  rewrite <- app_assoc in IH. simpl in IH. exact IH.
Qed.

Lemma map_combine_seq {A B} (f : nat * A -> B) (g : A -> B) (l : list A) :
  (forall j x, f (j, x) = g x) ->
  forall n, map f (combine (seq n (length l)) l) = map g l.
Proof.
  intros Hf. induction l as [|a l IH]; intros n; simpl; [reflexivity|].
  rewrite Hf, IH. reflexivity.
Qed.

(** ** The forward kernel over any arithmetic *)

Section GenericFacts.

Context {F : Type} {S : Scalar F}.
Variable eps : F.

Section OneCall.

Variable cfg : tiling.
Variable causal : bool.
Variable scale : F.
Variables Q K V : mat F.

Local Abbreviation acc := (accumulate causal scale Q K V).
Local Abbreviation key_positions := (tile_positions (col_tile cfg) (length K)).

(** A key tile that the causal skip leaves out would have changed nothing. *)
Lemma skipped_tile_is_masked (rows : list nat) (t i : nat) (st : vec F * F) :
  causal && (last rows 0 <? t * col_tile cfg) = true ->
  i <= last rows 0 ->
  fold_left (acc i) (key_positions t) st = st.
Proof.
  intros Hskip Hi. apply andb_true_iff in Hskip. destruct Hskip as [Hc Hlast].
  apply Nat.ltb_lt in Hlast.
  apply fold_left_id. intros a j Hj. apply tile_positions_ge in Hj.
  unfold accumulate, visible. rewrite Hc. simpl.
  destruct (Nat.leb_spec j i); [lia|reflexivity].
Qed.

Lemma key_tile_step_rows (rows : list nat) (g : nat -> vec F * F) (t : nat) :
  (forall i, In i rows -> i <= last rows 0) ->
  key_tile_step cfg causal scale Q K V rows (map g rows) t =
  map (fun i => fold_left (acc i) (key_positions t) (g i)) rows.
Proof.
  intros Hrows. unfold key_tile_step.
  destruct (causal && (last rows 0 <? t * col_tile cfg)) eqn:Hskip.
  - apply map_ext_in. intros i Hi. symmetry.
    apply skipped_tile_is_masked with (rows := rows); auto.
  - rewrite combine_map_self, map_map. reflexivity.
Qed.

Lemma key_tiles_rows (rows : list nat) (ts : list nat) :
  (forall i, In i rows -> i <= last rows 0) ->
  forall g : nat -> vec F * F,
    fold_left (key_tile_step cfg causal scale Q K V rows) ts (map g rows) =
    map (fun i => fold_left (acc i) (flat_map key_positions ts) (g i)) rows.
Proof.
  intros Hrows. induction ts as [|t ts IH]; intros g; simpl; [reflexivity|].
  rewrite key_tile_step_rows by assumption.
  rewrite IH. apply map_ext. intros i. rewrite fold_left_app. reflexivity.
Qed.

(** A query tile computes, for each of its rows, what the untiled loop over
    all key positions computes. *)
Lemma query_tile_rows (r : nat) :
  col_tile cfg <> 0 ->
  query_tile eps cfg causal scale Q K V r =
  map (attend_row eps causal scale Q K V)
      (tile_positions (row_tile cfg) (length Q) r).
Proof.
  intros Hc. unfold query_tile.
  rewrite key_tiles_rows by apply tile_positions_le_last.
  rewrite tiles_cover by assumption.
  rewrite map_map. reflexivity.
Qed.

(** The tile sizes do not show in the result. *)
Lemma forward_slice_untiled :
  valid_call cfg causal scale Q K V = true ->
  forward_slice eps cfg causal scale Q K V =
  Returned (map (fun i => fst (attend_row eps causal scale Q K V i)) (seq 0 (length Q)),
            map (fun i => snd (attend_row eps causal scale Q K V i)) (seq 0 (length Q))).
Proof.
  intros Hvalid. unfold forward_slice. rewrite Hvalid.
  unfold valid_call in Hvalid. rewrite !andb_true_iff in Hvalid.
  destruct Hvalid as [[[[[[[_ Hr] Hc] _] _] _] _] _].
  apply negb_true_iff, Nat.eqb_neq in Hr.
  apply negb_true_iff, Nat.eqb_neq in Hc.
  assert (Htiles :
            flat_map (query_tile eps cfg causal scale Q K V)
                     (seq 0 (num_tiles (row_tile cfg) (length Q)))
            = map (attend_row eps causal scale Q K V) (seq 0 (length Q))).
  { rewrite <- (tiles_cover (length Q) Hr).
    generalize (seq 0 (num_tiles (row_tile cfg) (length Q))) as rs.
    induction rs as [|r rs IH]; simpl; [reflexivity|].
    rewrite map_app, IH, query_tile_rows by assumption. reflexivity. }
  rewrite Htiles, !map_map. reflexivity.
Qed.

End OneCall.

(** In causal mode row [i] reads the keys and values up to position [i]
    only. *)
Lemma attend_row_causal_local (scale : F) (Q K V K' V' : mat F) (i : nat) :
  length K = length K' ->
  (forall j, j <= i -> nth j K [] = nth j K' [] /\ nth j V [] = nth j V' []) ->
  attend_row eps true scale Q K V i = attend_row eps true scale Q K' V' i.
Proof.
  intros Hlen Hagree. unfold attend_row.
  assert (Hw : Transformer.shape_last V = Transformer.shape_last V').
  { destruct (Hagree 0 (Nat.le_0_l i)) as [_ H0].
    destruct V as [|v0 V0], V' as [|v0' V0']; simpl in H0 |- *; subst; reflexivity. }
  rewrite Hw, <- Hlen. f_equal.
  apply fold_left_ext_in. intros st j _.
  unfold accumulate, visible. simpl.
  destruct (Nat.leb_spec j i) as [Hj|Hj]; [|reflexivity].
  destruct (Hagree j Hj) as [-> ->]. reflexivity.
Qed.

Lemma valid_call_causal_lengths (cfg : tiling) (scale : F) (Q K V : mat F) :
  valid_call cfg true scale Q K V = true -> length Q = length K.
Proof.
  unfold valid_call. rewrite !andb_true_iff. simpl.
  intros [[[[_ H] _] _] _]. apply Nat.eqb_eq. exact H.
Qed.

Lemma forward_slice_valid (cfg : tiling) (causal : bool) (scale : F)
  (Q K V : mat F) (r : mat F * list F) :
  forward_slice eps cfg causal scale Q K V = Returned r ->
  valid_call cfg causal scale Q K V = true.
Proof.
  unfold forward_slice. destruct (valid_call cfg causal scale Q K V); [reflexivity|].
  discriminate.
Qed.

(** Causal noninterference of the forward kernel, output and statistics. *)
Lemma forward_slice_causal_local (cfg : tiling) (scale : F)
  (Q K V K' V' : mat F) (O O' : mat F) (L L' : list F) (i : nat) :
  forward_slice eps cfg true scale Q K V = Returned (O, L) ->
  forward_slice eps cfg true scale Q K' V' = Returned (O', L') ->
  (forall j, j <= i -> nth j K [] = nth j K' [] /\ nth j V [] = nth j V' []) ->
  nth_error O i = nth_error O' i /\ nth_error L i = nth_error L' i.
Proof.
  intros Hrun Hrun' Hagree.
  pose proof (forward_slice_valid _ _ _ _ _ _ Hrun) as Hv.
  pose proof (forward_slice_valid _ _ _ _ _ _ Hrun') as Hv'.
  rewrite forward_slice_untiled in Hrun by assumption.
  rewrite forward_slice_untiled in Hrun' by assumption.
  assert (HO : O = map (fun i => fst (attend_row eps true scale Q K V i))
                     (seq 0 (length Q))) by congruence.
  assert (HL : L = map (fun i => snd (attend_row eps true scale Q K V i))
                     (seq 0 (length Q))) by congruence.
  assert (HO' : O' = map (fun i => fst (attend_row eps true scale Q K' V' i))
                       (seq 0 (length Q))) by congruence.
  assert (HL' : L' = map (fun i => snd (attend_row eps true scale Q K' V' i))
                       (seq 0 (length Q))) by congruence.
  rewrite HO, HL, HO', HL', !nth_error_map_seq.
  assert (Hlen : length K = length K').
  { rewrite <- (valid_call_causal_lengths _ _ _ _ _ Hv).
    apply (valid_call_causal_lengths _ _ _ _ _ Hv'). }
  rewrite (@attend_row_causal_local scale Q K V K' V' i Hlen Hagree).
  split; reflexivity.
Qed.

Lemma nth_l2norm (t : mat F) (j : nat) :
  nth j (l2norm eps t) [] = l2norm_vec eps (nth j t []).
Proof.
  unfold l2norm. change (@nil F) with (l2norm_vec eps []) at 1.
  apply map_nth.
Qed.

End GenericFacts.

(** ** From slices to tensors *)

Lemma nth_error_combine {A B} (da : A) (db : B) (l : list A) :
  forall (l' : list B) (n : nat),
    n < length l -> length l' = length l ->
    nth_error (combine l l') n = Some (nth n l da, nth n l' db).
Proof.
  induction l as [|a l IH]; intros [|b l'] [|n] Hn Hl; simpl in *;
    try lia; try reflexivity.
  apply IH; lia.
Qed.

Lemma nth_error_combine3 {A B C} (d1 : A) (d2 : B) (d3 : C)
  (l1 : list A) (l2 : list B) (l3 : list C) (n : nat) :
  n < length l1 -> length l2 = length l1 -> length l3 = length l1 ->
  nth_error (combine (combine l1 l2) l3) n = Some (nth n l1 d1, nth n l2 d2, nth n l3 d3).
Proof.
  intros Hn H2 H3.
  rewrite (nth_error_combine (d1, d2) d3) by (rewrite ?length_combine; lia).
  rewrite combine_nth by lia. reflexivity.
Qed.

Lemma collect_map {A B} (f : A -> outcome B) (l : list A) :
  forall r,
    collect (map f l) = Returned r ->
    length r = length l /\
    forall n a, nth_error l n = Some a ->
                exists y, f a = Returned y /\ nth_error r n = Some y.
Proof.
  induction l as [|a0 l IH]; intros r H; simpl in H.
  - injection H as <-. split; [reflexivity|]. intros [|n] a Hn; discriminate.
  - destruct (f a0) as [y0|e] eqn:Hy0; [|discriminate].
    destruct (collect (map f l)) as [r0|e]; [|discriminate].
    injection H as <-. destruct (IH r0 eq_refl) as [Hl Hn].
    split; [simpl; congruence|].
    intros [|n] a Ha; simpl in Ha.
    + injection Ha as <-. exists y0. split; [assumption|reflexivity].
    + apply Hn. exact Ha.
Qed.

Lemma nth_error_same_nth {A} (d : A) (l l' : list A) (n : nat) :
  nth_error l n = nth_error l' n -> nth n l d = nth n l' d.
Proof.
  intros H. rewrite <- !nth_default_eq. unfold nth_default. rewrite H. reflexivity.
Qed.

Section TensorFacts.

Context {F : Type} {S : Scalar F}.
Variable eps : F.

(** A call on whole tensors that returns has run the slice primitive on
    every (batch, head) pair. *)
Lemma attention_slices (cfg : tiling) (causal : bool) (scale : F)
  (q k v o : tensor4 F) :
  attention eps cfg causal scale q k v = Returned o ->
  length o = length q /\
  forall b, b < length q ->
    length (nth b o []) = length (nth b q []) /\
    forall h, h < length (nth b q []) ->
      attention_slice eps cfg causal scale
                      (nth h (nth b q []) []) (nth h (nth b k []) [])
                      (nth h (nth b v []) [])
      = Returned (nth h (nth b o []) []).
Proof.
  unfold attention. intros H.
  destruct ((length q =? length k) && (length k =? length v)) eqn:Hlen;
    [|discriminate].
  apply andb_true_iff in Hlen. destruct Hlen as [Hqk Hkv].
  apply Nat.eqb_eq in Hqk. apply Nat.eqb_eq in Hkv.
  apply collect_map in H. destruct H as [Hlo Hb].
  rewrite !length_combine in Hlo.
  split; [lia|].
  intros b Hbq.
  destruct (Hb b (nth b q [], nth b k [], nth b v [])) as (ob & Hob & Hnth).
  { apply nth_error_combine3; lia. }
  apply (nth_error_nth _ _ []) in Hnth. rewrite Hnth. clear Hnth Hb.
  cbv beta iota in Hob.
  destruct ((length (nth b q []) =? length (nth b k []))
            && (length (nth b k []) =? length (nth b v []))) eqn:Hlen;
    [|discriminate].
  apply andb_true_iff in Hlen. destruct Hlen as [Hqk' Hkv'].
  apply Nat.eqb_eq in Hqk'. apply Nat.eqb_eq in Hkv'.
  apply collect_map in Hob. destruct Hob as [Hlh Hh].
  rewrite !length_combine in Hlh.
  split; [lia|].
  intros h Hhq.
  destruct (Hh h (nth h (nth b q []) [], nth h (nth b k []) [], nth h (nth b v []) []))
    as (oh & Hoh & Hnth).
  { apply nth_error_combine3; lia. }
  apply (nth_error_nth _ _ []) in Hnth. subst oh. exact Hoh.
Qed.

Lemma attention_slice_causal_local (cfg : tiling) (scale : F)
  (Q K V K' V' O O' : mat F) (i : nat) :
  attention_slice eps cfg true scale Q K V = Returned O ->
  attention_slice eps cfg true scale Q K' V' = Returned O' ->
  (forall j, j <= i -> nth j K [] = nth j K' [] /\ nth j V [] = nth j V' []) ->
  nth_error O i = nth_error O' i.
Proof.
  unfold attention_slice. intros H H' Hagree.
  destruct (forward_slice eps cfg true scale (l2norm eps Q) (l2norm eps K) V)
    as [[O0 L0]|e] eqn:Hf; [|discriminate].
  destruct (forward_slice eps cfg true scale (l2norm eps Q) (l2norm eps K') V')
    as [[O0' L0']|e] eqn:Hf'; [|discriminate].
  injection H as <-. injection H' as <-. simpl.
  apply (forward_slice_causal_local eps cfg scale _ _ _ _ _ Hf Hf').
  intros j Hj. rewrite !nth_l2norm. destruct (Hagree j Hj) as [-> ->].
  split; reflexivity.
Qed.

End TensorFacts.

(** C4.  Two causal calls of the attention primitive on the same queries
    that both return, whose keys and values agree at every position up to
    [i], return the same output row at position [i] in every batch entry
    and head: nothing at a key/value position after [i] reaches it.  This
    holds for any arithmetic. *)
Theorem causal_noninterference
  {F : Type} {S : Scalar F} (eps : F) (cfg : tiling) (scale : F)
  (q k v k' v' o o' : tensor4 F) (i : nat) :
  attention eps cfg true scale q k v = Returned o ->
  attention eps cfg true scale q k' v' = Returned o' ->
  (forall b h j, j <= i ->
     feature_row k b h j = feature_row k' b h j /\
     feature_row v b h j = feature_row v' b h j) ->
  forall b h, feature_row o b h i = feature_row o' b h i.
Proof.
  intros Hrun Hrun' Hagree b h.
  apply attention_slices in Hrun. destruct Hrun as [Hlo Hb].
  apply attention_slices in Hrun'. destruct Hrun' as [Hlo' Hb'].
  unfold feature_row.
  destruct (Nat.lt_ge_cases b (length q)) as [Hbq|Hbq].
  2:{ rewrite (nth_overflow o), (nth_overflow o') by lia. reflexivity. }
  destruct (Hb b Hbq) as [Hlh Hh]. destruct (Hb' b Hbq) as [Hlh' Hh'].
  destruct (Nat.lt_ge_cases h (length (nth b q []))) as [Hhq|Hhq].
  2:{ rewrite (nth_overflow (nth b o [])), (nth_overflow (nth b o' [])) by lia.
      reflexivity. }
  apply nth_error_same_nth.
  apply (attention_slice_causal_local eps cfg scale _ _ _ _ _ (Hh h Hhq) (Hh' h Hhq)).
  intros j Hj. apply (Hagree b h j Hj).
Qed.

(** ** The arithmetic of real vectors *)

Section RealVectors.

Local Open Scope R_scope.

Lemma dot_acc (l : list (R * R)) :
  forall acc,
    fold_left (fun s p => s + fst p * snd p) l acc =
    acc + fold_left (fun s p => s + fst p * snd p) l 0.
Proof.
  induction l as [|p l IH]; intros acc; simpl; [lra|].
  rewrite IH, (IH (0 + _)). lra.
Qed.

Lemma dot_nil_l (y : list R) : dot [] y = 0.
Proof. reflexivity. Qed.

Lemma dot_nil_r (x : list R) : dot x [] = 0.
Proof. destruct x; reflexivity. Qed.

Lemma dot_cons (a b : R) (x y : list R) :
  dot (a :: x) (b :: y) = a * b + dot x y.
Proof.
  unfold dot. simpl. rewrite dot_acc. lra.
Qed.

Lemma dot_self_nonneg (x : list R) : 0 <= dot x x.
Proof.
  induction x as [|a x IH]; [rewrite dot_nil_l; lra|].
  rewrite dot_cons. nra.
Qed.

Lemma dot_self_pos (x : list R) : nonzero x -> 0 < dot x x.
Proof.
  intros (c & Hin & Hc).
  induction x as [|a x IH]; [contradiction|].
  rewrite dot_cons. pose proof (dot_self_nonneg x).
  destruct Hin as [->|Hin]; [nra|].
  specialize (IH Hin). nra.
Qed.

Lemma dot_scaled (s : R) (x y : list R) :
  dot (map (fun c => c / s) x) (map (fun c => c / s) y) = dot x y / s / s.
Proof.
  revert y. induction x as [|a x IH]; intros [|b y]; simpl;
    rewrite ?dot_nil_l, ?dot_nil_r, ?dot_cons; try (unfold Rdiv; lra).
  rewrite IH. unfold Rdiv. lra.
Qed.

(** The product of two vectors is at most the mean of their squares. *)
Lemma dot_lower_bound (x y : list R) :
  - (dot x x + dot y y) / 2 <= dot x y.
Proof.
  revert y. induction x as [|a x IH]; intros [|b y];
    rewrite ?dot_nil_l, ?dot_nil_r, ?dot_cons.
  - lra.
  - pose proof (dot_self_nonneg y). nra.
  - pose proof (dot_self_nonneg x). nra.
  - specialize (IH y).
    pose proof (Rle_0_sqr (a + b)) as Hsq. unfold Rsqr in Hsq. lra.
Qed.

Lemma norm2_nonneg (x : list R) : 0 <= norm2 x.
Proof. apply sqrt_pos. Qed.

Lemma norm2_pos (x : list R) : nonzero x -> 0 < norm2 x.
Proof. intros H. apply sqrt_lt_R0, dot_self_pos, H. Qed.

Lemma norm2_sqr (x : list R) : norm2 x * norm2 x = dot x x.
Proof. apply sqrt_sqrt, dot_self_nonneg. Qed.

Lemma l2norm_vec_unfold (eps : R) (x : list R) :
  l2norm_vec eps x = map (fun c => c / (norm2 x + eps)) x.
Proof. reflexivity. Qed.

(** The norm of a normalized vector. *)
Lemma norm2_l2norm_vec (eps : R) (x : list R) :
  0 < eps ->
  norm2 (l2norm_vec eps x) = norm2 x / (norm2 x + eps).
Proof.
  intros Heps. rewrite l2norm_vec_unfold.
  pose proof (norm2_nonneg x) as Hn.
  set (s := norm2 x + eps). assert (Hs : 0 < s) by (unfold s; lra).
  unfold norm2 at 1. rewrite dot_scaled.
  replace (dot x x / s / s) with (dot x x / (s * s)) by (field; lra).
  rewrite sqrt_div_alt by nra.
  rewrite sqrt_square by lra. reflexivity.
Qed.

Lemma dot_l2norm_vec_le_1 (eps : R) (x : list R) :
  0 < eps -> dot (l2norm_vec eps x) (l2norm_vec eps x) <= 1.
Proof.
  intros Heps. rewrite <- norm2_sqr, norm2_l2norm_vec by assumption.
  pose proof (norm2_nonneg x) as Hn.
  assert (H1 : 0 <= norm2 x / (norm2 x + eps) <= 1).
  { split.
    - apply Rmult_le_pos; [lra|]. left. apply Rinv_0_lt_compat. lra.
    - apply Rmult_le_reg_r with (norm2 x + eps); [lra|].
      unfold Rdiv. rewrite Rmult_assoc, Rinv_l by lra. lra. }
  nra.
Qed.

(** The cosine of two normalized vectors is at least -1. *)
Lemma cosine_lower_bound (eps : R) (x y : list R) :
  0 < eps -> -1 <= dot (l2norm_vec eps x) (l2norm_vec eps y).
Proof.
  intros Heps.
  pose proof (dot_lower_bound (l2norm_vec eps x) (l2norm_vec eps y)).
  pose proof (dot_l2norm_vec_le_1 x Heps).
  pose proof (dot_l2norm_vec_le_1 y Heps).
  lra.
Qed.

End RealVectors.

(** C7 (amended).  For a positive epsilon the Normalization Stage returns a
    tensor of the same shape, and the L2 norm of each returned vector is
    [n / (n + eps)], [n] being the norm of the input vector.  For a
    non-zero input vector this lies strictly between 0 and 1, and it is
    within [eps] of 1 exactly when [n + eps >= 1]. *)
Theorem l2norm_norm (eps : R) (t : mat R) :
  (0 < eps)%R ->
  length (l2norm eps t) = length t /\
  Forall2 (fun x y =>
             length y = length x /\
             norm2 y = (norm2 x / (norm2 x + eps))%R /\
             (nonzero x ->
              (0 < norm2 y < 1)%R /\
              (unit_within eps y <-> (1 <= norm2 x + eps)%R)))
          t (l2norm eps t).
Proof.
  intros Heps. split; [apply length_map|].
  unfold l2norm. induction t as [|x t IH]; simpl; constructor; [|exact IH].
  split; [apply length_map|].
  split; [apply norm2_l2norm_vec; assumption|].
  intros Hx. unfold unit_within. rewrite norm2_l2norm_vec by assumption.
  pose proof (norm2_pos Hx) as Hn.
  set (n := norm2 x) in *.
  assert (Hinv : (0 < / (n + eps))%R) by (apply Rinv_0_lt_compat; lra).
  assert (Hq : (n / (n + eps) = 1 - eps * / (n + eps))%R) by (field; lra).
  assert (Hlt : (eps * / (n + eps) < 1)%R).
  { apply Rmult_lt_reg_r with (n + eps)%R; [lra|].
    rewrite Rmult_assoc, Rinv_l by lra. lra. }
  assert (Hpos : (0 < eps * / (n + eps))%R) by (apply Rmult_lt_0_compat; lra).
  rewrite Hq. split; [lra|].
  replace (1 - eps * / (n + eps) - 1)%R with (- (eps * / (n + eps)))%R by lra.
  rewrite Rabs_Ropp, Rabs_pos_eq by lra.
  split; intros H.
  - apply Rmult_le_reg_r with (/ (n + eps))%R; [assumption|].
    rewrite Rinv_r by lra.
    apply Rmult_le_reg_l with eps; [assumption|].
    rewrite Rmult_1_r.
    (* eps * / (n + eps) <= eps  gives  eps * 1 <= eps * ((n + eps) * / (n + eps)) *)
    nra.
  - apply Rmult_le_reg_r with (n + eps)%R; [lra|].
    rewrite Rmult_assoc, Rinv_l by lra. nra.
Qed.


(** ** A single key *)

Section SingleKey.

Local Open Scope R_scope.

Variable eps : R.
Hypothesis eps_pos : 0 < eps.

Lemma map_combine_repeat {A B C} (f : A * B -> C) (z : A) (v : list B) :
  map f (combine (repeat z (length v)) v) = map (fun c => f (z, c)) v.
Proof. induction v as [|c v IH]; simpl; [reflexivity|]. rewrite IH. reflexivity. Qed.

(** With one key and one value, a non-causal row is the value row times the
    exponentiated score, over the floored score. *)
Lemma attend_row_single (scale : R) (Q : mat R) (k v : list R) (i : nat) :
  let e := exp (dot (nth i Q []) k * scale) in
  attend_row eps false scale Q [k] [v] i =
  (map (fun c => (0 + e * c) / Rmax (0 + e) eps) v, 0 + e).
Proof.
  unfold attend_row, finalize, accumulate, visible, axpy. simpl.
  rewrite (map_combine_repeat (fun p => fst p + _ * snd p)), map_map.
  reflexivity.
Qed.

Lemma attend_row_single_exact (scale : R) (Q : mat R) (k v : list R) (i : nat) :
  eps <= exp (dot (nth i Q []) k * scale) ->
  fst (attend_row eps false scale Q [k] [v] i) = v.
Proof.
  intros He. rewrite attend_row_single. simpl.
  set (e := exp (dot (nth i Q []) k * scale)) in *.
  rewrite Rmax_left by lra.
  rewrite <- (map_id v) at 2. apply map_ext. intros c. field. lra.
Qed.

Lemma positive_true (x : R) : positive x = true -> 0 < x.
Proof. simpl. destruct (Rlt_dec 0 x); [auto|discriminate]. Qed.

Lemma valid_call_positive (cfg : tiling) (causal : bool) (scale : R) (Q K V : mat R) :
  valid_call cfg causal scale Q K V = true -> 0 < scale.
Proof.
  unfold valid_call. rewrite !andb_true_iff.
  intros [[[[[[[H _] _] _] _] _] _] _]. apply positive_true. exact H.
Qed.

Lemma exp_le (x y : R) : x <= y -> exp x <= exp y.
Proof.
  intros [H| ->]; [left; apply exp_increasing; exact H|right; reflexivity].
Qed.

(** The exponentiated score of two normalized vectors is at least
    [exp(-scale)]. *)
Lemma score_lower_bound (scale : R) (q k : list R) :
  0 < scale ->
  exp (- scale) <= exp (dot (l2norm_vec eps q) (l2norm_vec eps k) * scale).
Proof.
  intros Hs. apply exp_le.
  pose proof (cosine_lower_bound q k eps_pos). nra.
Qed.

Lemma valid_call_kv_lengths (cfg : tiling) (causal : bool) (scale : R)
  (Q K V : mat R) :
  valid_call cfg causal scale Q K V = true -> length K = length V.
Proof.
  unfold valid_call. rewrite !andb_true_iff.
  intros [[[[[_ H] _] _] _] _]. apply Nat.eqb_eq. exact H.
Qed.

Lemma attention_slice_single_key (cfg : tiling) (scale : R)
  (Q K V O : mat R) (i : nat) :
  eps <= exp (- scale) ->
  attention_slice eps cfg false scale Q K V = Returned O ->
  length K = 1%nat ->
  (i < length Q)%nat ->
  nth i O [] = nth 0%nat V [].
Proof.
  intros Hfloor Hrun HK Hi. unfold attention_slice in Hrun.
  destruct (forward_slice eps cfg false scale (l2norm eps Q) (l2norm eps K) V)
    as [[O0 L0]|e] eqn:Hf; [|discriminate].
  injection Hrun as <-. simpl.
  pose proof (forward_slice_valid _ _ _ _ _ _ _ Hf) as Hv.
  pose proof (valid_call_positive _ _ _ _ _ _ Hv) as Hscale.
  pose proof (valid_call_kv_lengths _ _ _ _ _ _ Hv) as HKV.
  rewrite forward_slice_untiled in Hf by assumption.
  assert (HO : O0 = map (fun i => fst (attend_row eps false scale (l2norm eps Q)
                                                  (l2norm eps K) V i))
                        (seq 0 (length (l2norm eps Q)))) by congruence.
  destruct K as [|k [|k' K]]; try discriminate.
  unfold l2norm in HKV at 1. simpl in HKV.
  destruct V as [|v [|v' V]]; try discriminate.
  assert (Hin : (i < length (l2norm eps Q))%nat)
    by (unfold l2norm; rewrite length_map; exact Hi).
  assert (Hnth : nth_error O0 i =
                 Some (fst (attend_row eps false scale (l2norm eps Q)
                                       (l2norm eps [k]) [v] i))).
  { rewrite HO, nth_error_map_seq.
    destruct (Nat.ltb_spec i (length (l2norm eps Q))); [reflexivity|lia]. }
  apply (nth_error_nth _ _ []) in Hnth.
  etransitivity; [exact Hnth|].
  change (l2norm eps [k]) with [l2norm_vec eps k].
  change (nth 0%nat [v] []) with v.
  apply attend_row_single_exact.
  rewrite nth_l2norm.
  eapply Rle_trans; [exact Hfloor|]. apply score_lower_bound; assumption.
Qed.

End SingleKey.

(** C6 (amended).  A non-causal call of the attention primitive that
    returns, with an epsilon floor under the denominator that is positive
    and at most [exp(-scale)]: in every (batch, head) slice whose key/value
    sequence length is 1, every output row equals the single value row
    exactly. *)
Theorem single_key_returns_value
  (eps : R) (cfg : tiling) (scale : R) (q k v o : tensor4 R) :
  (0 < eps)%R ->
  (eps <= exp (- scale))%R ->
  attention eps cfg false scale q k v = Returned o ->
  forall b h i,
    b < length q -> h < length (nth b q []) ->
    i < length (nth h (nth b q []) []) ->
    length (nth h (nth b k []) []) = 1 ->
    feature_row o b h i = feature_row v b h 0.
Proof.
  intros Heps Hfloor Hrun b h i Hb Hh Hi HK.
  apply attention_slices in Hrun. destruct Hrun as [_ Hslices].
  destruct (Hslices b Hb) as [_ Hslice]. specialize (Hslice h Hh).
  unfold feature_row.
  apply (attention_slice_single_key Heps cfg scale _ _ _ Hfloor Hslice HK Hi).
Qed.


(** ** The reference computation *)

Section Reference.

Local Open Scope R_scope.

Variable eps : R.
Hypothesis eps_pos : 0 < eps.

Lemma add_causal_bias_off (bias : R) (M : list (list R)) :
  add_causal_bias false bias M = M.
Proof.
  unfold add_causal_bias.
  rewrite (map_combine_seq _ (fun row : list R => row)); [apply map_id|].
  intros i row. cbn [fst snd].
  rewrite (map_combine_seq _ (fun x : R => x)); [apply map_id|].
  intros j x. reflexivity.
Qed.

(** The fused accumulation of one row, key by key. *)
Lemma accumulate_pairs (scale : R) (Q K V : mat R) (i : nat) (st : vec R * R) :
  length K = length V ->
  fold_left (accumulate false scale Q K V i) (seq 0 (length K)) st =
  fold_left (fun st kv =>
               (axpy (exp (dot (nth i Q []) (fst kv) * scale)) (snd kv) (fst st),
                snd st + exp (dot (nth i Q []) (fst kv) * scale)))
            (combine K V) st.
Proof.
  intros Hl.
  rewrite <- (fold_left_seq_nth ([], []) _ (combine K V) [] st).
  rewrite length_combine, <- Hl, Nat.min_id. cbn [length app].
  apply fold_left_ext_in. intros s j Hj. apply in_seq in Hj.
  rewrite combine_nth by exact Hl. reflexivity.
Qed.

Lemma pairs_split (e : vec R -> R) (K V : mat R) :
  length K = length V ->
  forall st : vec R * R,
    fold_left (fun st kv => (axpy (e (fst kv)) (snd kv) (fst st), snd st + e (fst kv)))
              (combine K V) st
    = (fold_left (fun acc p => axpy (fst p) (snd p) acc) (combine (map e K) V) (fst st),
       fold_left Rplus (map e K) (snd st)).
Proof.
  revert V. induction K as [|k K IH]; intros [|v V] Hl st; simpl in Hl; try lia.
  - destruct st; reflexivity.
  - cbn [combine map fold_left]. rewrite IH by lia. reflexivity.
Qed.

Lemma axpy_scaled (z e : R) (v acc : vec R) :
  axpy (e / z) v (map (fun x => x / z) acc) = map (fun x => x / z) (axpy e v acc).
Proof.
  unfold axpy. revert v. induction acc as [|x acc IH]; intros [|c v]; simpl;
    try reflexivity.
  f_equal; [unfold Rdiv; ring|apply IH].
Qed.

Lemma weighted_scaled (z : R) (es : list R) :
  forall (V : mat R) (acc : vec R),
    fold_left (fun acc p => axpy (fst p) (snd p) acc)
              (combine (map (fun e => e / z) es) V) (map (fun x => x / z) acc)
    = map (fun x => x / z)
          (fold_left (fun acc p => axpy (fst p) (snd p) acc) (combine es V) acc).
Proof.
  induction es as [|e es IH]; intros [|v V] acc; simpl; try reflexivity.
  rewrite axpy_scaled. apply IH.
Qed.

Lemma zeros_scaled (z : R) (n : nat) :
  map (fun x => x / z) (repeat 0 n) = repeat 0 n.
Proof.
  induction n as [|n IH]; simpl; [reflexivity|].
  rewrite IH. f_equal. unfold Rdiv. ring.
Qed.

Lemma sum_acc (l : list R) :
  forall acc, fold_left Rplus l acc = acc + fold_left Rplus l 0.
Proof.
  induction l as [|x l IH]; intros acc; simpl; [lra|].
  rewrite IH, (IH (0 + x)). lra.
Qed.

Lemma sum_lower_bound (lo : R) (l : list R) :
  0 <= lo -> Forall (fun e => lo <= e) l -> l <> [] -> lo <= fold_left Rplus l 0.
Proof.
  intros Hlo Hl Hne.
  assert (Hnonneg : forall l', Forall (fun e => lo <= e) l' -> 0 <= fold_left Rplus l' 0).
  { induction 1 as [|e l' He _ IH]; simpl; [lra|]. rewrite sum_acc. lra. }
  destruct Hl as [|e l He Hl]; [congruence|].
  simpl. rewrite sum_acc. specialize (Hnonneg l Hl). lra.
Qed.

(** A non-causal row of the fused kernel is the softmax-weighted sum of the
    reference, when the floor stays under [exp(-scale)]. *)
Lemma attend_row_reference (scale : R) (Q K V : mat R) (i : nat) :
  0 < scale -> eps <= exp (- scale) -> length K = length V ->
  fst (attend_row eps false scale (l2norm eps Q) (l2norm eps K) V i)
  = weighted_sum
      (softmax (map (fun k => dot (nth i (l2norm eps Q) []) k * scale) (l2norm eps K)))
      V.
Proof.
  intros Hscale Hfloor Hl.
  assert (Hl' : length (l2norm eps K) = length V)
    by (unfold l2norm; rewrite length_map; exact Hl).
  unfold attend_row, finalize.
  rewrite accumulate_pairs by exact Hl'.
  rewrite (pairs_split (fun k => exp (dot (nth i (l2norm eps Q) []) k * scale))) by exact Hl'.
  cbn [fst snd fmax zero R_scalar].
  set (es := map (fun k => exp (dot (nth i (l2norm eps Q) []) k * scale)) (l2norm eps K)).
  set (z := fold_left Rplus es 0).
  assert (Hw : softmax (map (fun k => dot (nth i (l2norm eps Q) []) k * scale)
                            (l2norm eps K))
               = map (fun e => e / z) es).
  { unfold softmax, z, es. cbn [fexp add zero div R_scalar].
    rewrite !map_map. reflexivity. }
  rewrite Hw. unfold weighted_sum. cbn [zero R_scalar].
  rewrite <- (zeros_scaled z (Transformer.shape_last V)) at 2.
  rewrite weighted_scaled.
  destruct K as [|k K].
  - (* no key: both rows are zero *)
    cbn. rewrite !zeros_scaled. reflexivity.
  - assert (Hz : eps <= z).
    { apply Rle_trans with (exp (- scale)); [exact Hfloor|].
      apply sum_lower_bound.
      - left. apply exp_pos.
      - apply Forall_forall. intros e He. unfold es in He.
        apply in_map_iff in He. destruct He as (k' & <- & Hk').
        unfold l2norm in Hk' at 1. apply in_map_iff in Hk'.
        destruct Hk' as (k0 & <- & _). rewrite nth_l2norm.
        apply score_lower_bound; assumption.
      - discriminate. }
    rewrite Rmax_left by exact Hz. reflexivity.
Qed.


Lemma attention_slice_reference (bias : R) (cfg : tiling) (scale : R)
  (Q K V O : mat R) (i : nat) :
  eps <= exp (- scale) ->
  attention_slice eps cfg false scale Q K V = Returned O ->
  (i < length Q)%nat ->
  nth i O [] = nth i (reference_slice eps false bias scale Q K V) [].
Proof.
  intros Hfloor Hrun Hi. unfold attention_slice in Hrun.
  destruct (forward_slice eps cfg false scale (l2norm eps Q) (l2norm eps K) V)
    as [[O0 L0]|e] eqn:Hf; [|discriminate].
  injection Hrun as <-. simpl.
  pose proof (forward_slice_valid _ _ _ _ _ _ _ Hf) as Hv.
  pose proof (valid_call_positive _ _ _ _ _ _ Hv) as Hscale.
  pose proof (valid_call_kv_lengths _ _ _ _ _ _ Hv) as HKV.
  unfold l2norm in HKV at 1. rewrite length_map in HKV.
  rewrite forward_slice_untiled in Hf by assumption.
  assert (HO : O0 = map (fun i => fst (attend_row eps false scale (l2norm eps Q)
                                                  (l2norm eps K) V i))
                        (seq 0 (length (l2norm eps Q)))) by congruence.
  assert (Hin : (i < length (l2norm eps Q))%nat)
    by (unfold l2norm; rewrite length_map; exact Hi).
  assert (Hnth : nth_error O0 i =
                 Some (fst (attend_row eps false scale (l2norm eps Q)
                                       (l2norm eps K) V i))).
  { rewrite HO, nth_error_map_seq.
    destruct (Nat.ltb_spec i (length (l2norm eps Q))); [reflexivity|lia]. }
  apply (nth_error_nth _ _ []) in Hnth.
  etransitivity; [exact Hnth|].
  rewrite attend_row_reference by assumption.
  unfold reference_slice, score_matrix. rewrite add_causal_bias_off, map_map.
  symmetry. apply nth_error_nth.
  rewrite nth_error_map, (@nth_error_nth' _ (l2norm eps Q) i [] Hin). reflexivity.
Qed.

End Reference.

(** A call on whole tensors that returns was given tensors of one batch
    size and, in every batch entry, of one number of heads. *)
Lemma attention_shapes {F : Type} {S : Scalar F} (eps : F) (cfg : tiling)
  (causal : bool) (scale : F) (q k v o : tensor4 F) :
  attention eps cfg causal scale q k v = Returned o ->
  length k = length q /\ length v = length q /\
  forall b, b < length q ->
    length (nth b k []) = length (nth b q []) /\
    length (nth b v []) = length (nth b q []).
Proof.
  unfold attention. intros H.
  destruct ((length q =? length k) && (length k =? length v)) eqn:Hlen;
    [|discriminate].
  apply andb_true_iff in Hlen. destruct Hlen as [Hqk Hkv].
  apply Nat.eqb_eq in Hqk. apply Nat.eqb_eq in Hkv.
  split; [lia|]. split; [lia|].
  intros b Hbq.
  apply collect_map in H. destruct H as [_ Hb].
  destruct (Hb b (nth b q [], nth b k [], nth b v [])) as (ob & Hob & _).
  { apply nth_error_combine3; lia. }
  cbv beta iota in Hob.
  destruct ((length (nth b q []) =? length (nth b k []))
            && (length (nth b k []) =? length (nth b v []))) eqn:Hlen;
    [|discriminate].
  apply andb_true_iff in Hlen. destruct Hlen as [Hqk' Hkv'].
  apply Nat.eqb_eq in Hqk'. apply Nat.eqb_eq in Hkv'. lia.
Qed.

(** The reference on whole tensors is the reference on each slice. *)
Lemma reference_slices {F : Type} {S : Scalar F} (eps : F) (causal : bool)
  (bias scale : F) (q k v : tensor4 F) (b h : nat) :
  length k = length q -> length v = length q -> b < length q ->
  length (nth b k []) = length (nth b q []) ->
  length (nth b v []) = length (nth b q []) ->
  h < length (nth b q []) ->
  nth h (nth b (reference_attention eps causal bias scale q k v) []) [] =
  reference_slice eps causal bias scale
                  (nth h (nth b q []) []) (nth h (nth b k []) []) (nth h (nth b v []) []).
Proof.
  intros Hk Hv Hb Hk' Hv' Hh. unfold reference_attention.
  assert (Hnb : nth_error (combine (combine q k) v) b
                = Some (nth b q [], nth b k [], nth b v []))
    by (apply nth_error_combine3; lia).
  erewrite (nth_error_nth _ _ []); [|rewrite nth_error_map, Hnb; reflexivity].
  cbv beta iota.
  assert (Hnh : nth_error (combine (combine (nth b q []) (nth b k [])) (nth b v [])) h
                = Some (nth h (nth b q []) [], nth h (nth b k []) [], nth h (nth b v []) []))
    by (apply nth_error_combine3; lia).
  apply nth_error_nth. rewrite nth_error_map, Hnh. reflexivity.
Qed.



(** ** The theorems at concrete inputs *)

Import Examples.

(** Row 1 of the output does not see a change of key and value 2. *)
Lemma causal_noninterference_witness :
  feature_row (returned [] (attention (Const 1) tiles_2_2 true (Const 8) qs ks vs)) 0 0 1 =
  feature_row (returned [] (attention (Const 1) tiles_2_2 true (Const 8) qs
                                      ks_future_changed vs_future_changed)) 0 0 1.
Proof.
  apply (@causal_noninterference expr expr_scalar (Const 1) tiles_2_2 (Const 8)
           qs ks vs ks_future_changed vs_future_changed _ _ 1).
  - vm_compute. reflexivity.
  - vm_compute. reflexivity.
  - intros b h j Hj.
    destruct j as [|[|j]]; [| |lia];
      destruct b as [|[|b]], h as [|[|h]]; split; reflexivity.
Defined.

Lemma l2norm_norm_witness :
  length (l2norm (1 / 1000)%R [[3; 4]%R]) = 1.
Proof.
  destruct (@l2norm_norm (1 / 1000)%R [[3; 4]%R]) as [H _]; [lra|exact H].
Defined.

Section RealComputations.

Local Open Scope R_scope.

Lemma exp_neg_lt (y : R) : 0 < y -> exp (- y) < / (1 + y).
Proof.
  intros Hy. rewrite exp_Ropp.
  apply Rinv_lt_contravar.
  - apply Rmult_lt_0_compat; [lra|apply exp_pos].
  - apply exp_ineq1. lra.
Qed.

Lemma norm2_singleton (a : R) : norm2 [a] = Rabs a.
Proof.
  unfold norm2. rewrite dot_cons, dot_nil_l.
  replace (a * a + 0) with (Rsqr a) by (unfold Rsqr; lra).
  apply sqrt_Rsqr_abs.
Qed.

Lemma l2norm_vec_singleton (eps a : R) :
  l2norm_vec eps [a] = [a / (Rabs a + eps)].
Proof. rewrite l2norm_vec_unfold, norm2_singleton. reflexivity. Qed.

(** The score of the opposite unit vectors -1 and 1 at scale 2000, with
    epsilon 1/1000, lies under the floor. *)
Lemma opposite_score_small :
  exp (dot (l2norm_vec (1 / 1000) [-1]) (l2norm_vec (1 / 1000) [1]) * 2000) < 1 / 1000.
Proof.
  rewrite !l2norm_vec_singleton, dot_cons, dot_nil_l.
  assert (Hm : Rabs (-1) = 1) by (unfold Rabs; destruct (Rcase_abs (-1)); lra).
  rewrite Hm, Rabs_R1.
  apply Rle_lt_trans with (exp (Ropp 1001)).
  - apply exp_le. lra.
  - apply Rlt_trans with (/ (1 + 1001)); [apply exp_neg_lt; lra|lra].
Qed.

Lemma floor_below_unit_scale : 1 / 1000 <= exp (Ropp 1).
Proof.
  rewrite exp_Ropp. pose proof exp_le_3 as H3. pose proof (exp_pos 1) as Hp.
  apply Rle_trans with (/ 3); [lra|].
  apply Rinv_le_contravar; assumption.
Qed.

(** The score of the opposite unit vectors -1 and 1 at scale 2000, with
    epsilon 1/1000, is under 1/1002. *)
Lemma opposite_score_tiny :
  exp (dot (l2norm_vec (1 / 1000) [-1]) (l2norm_vec (1 / 1000) [1]) * 2000) < / 1002.
Proof.
  rewrite !l2norm_vec_singleton, dot_cons, dot_nil_l.
  assert (Hm : Rabs (-1) = 1) by (unfold Rabs; destruct (Rcase_abs (-1)); lra).
  rewrite Hm, Rabs_R1.
  apply Rle_lt_trans with (exp (Ropp 1001)).
  - apply exp_le. lra.
  - replace (/ 1002) with (/ (1 + 1001)) by (f_equal; lra).
    apply exp_neg_lt. lra.
Qed.

End RealComputations.

(** Two queries against one key and one value row [5; 7], at scale 1. *)
Lemma single_key_returns_value_witness :
  feature_row
    (returned [] (attention (1 / 1000)%R (Tiling 1 1) false 1%R
                            [[ [[1; 0]; [0; 1]]%R ]] [[ [[1; 1]%R] ]] [[ [[5; 7]%R] ]]))
    0 0 1
  = [5; 7]%R.
Proof.
  apply (@single_key_returns_value (1 / 1000)%R (Tiling 1 1) 1%R
           [[ [[1; 0]; [0; 1]]%R ]] [[ [[1; 1]%R] ]] [[ [[5; 7]%R] ]] _).
  - lra.
  - apply floor_below_unit_scale.
  - unfold attention, attention_slice, forward_slice, valid_call. simpl.
    destruct (Rlt_dec 0 1) as [_|H]; [reflexivity|exfalso; apply H; lra].
  - simpl. lia.
  - simpl. lia.
  - simpl. lia.
  - reflexivity.
Defined.

(** C6, as stated, fails for a large scale: with epsilon 1/1000 and scale
    2000, the query -1 against the single key 1 has an exponentiated score
    under the floor, and the output is not the value row [1]. *)
Lemma large_scale_single_key :
  exists o,
    attention (1 / 1000)%R (Tiling 1 1) false 2000%R
              [[ [[-1]%R] ]] [[ [[1]%R] ]] [[ [[1]%R] ]] = Returned o /\
    feature_row o 0 0 0 <> feature_row [[ [[1]%R] ]] 0 0 0.
Proof.
  unfold attention, attention_slice, forward_slice, valid_call. simpl.
  destruct (Rlt_dec 0 2000) as [_|H]; [|exfalso; apply H; lra].
  simpl. eexists. split; [reflexivity|].
  unfold feature_row. simpl.
  pose proof opposite_score_small as Hsmall.
  set (e := exp _) in *.
  assert (Hpos : (0 < e)%R) by (unfold e; apply exp_pos).
  rewrite Rmax_right by lra.
  intros Heq. injection Heq as Heq.
  assert (Hlt : ((0 + e * 1) / (1 / 1000) < 1)%R).
  { apply Rmult_lt_reg_r with (1 / 1000)%R; [lra|].
    unfold Rdiv at 1. rewrite Rmult_assoc, Rinv_l by lra. lra. }
  lra.
Qed.

(** C7, as stated, fails for a short vector: with epsilon 1/1000 the
    non-zero vector [1/1000] is normalized to norm 1/2. *)
Lemma short_vector_not_unit :
  nonzero [(1 / 1000)%R] /\
  norm2 (l2norm_vec (1 / 1000)%R [(1 / 1000)%R]) = (1 / 2)%R /\
  ~ unit_within (1 / 1000)%R (l2norm_vec (1 / 1000)%R [(1 / 1000)%R]).
Proof.
  assert (Hn : norm2 (l2norm_vec (1 / 1000)%R [(1 / 1000)%R]) = (1 / 2)%R).
  { rewrite norm2_l2norm_vec by lra. rewrite norm2_singleton.
    rewrite Rabs_pos_eq by lra. field. }
  split; [|split; [exact Hn|]].
  - exists (1 / 1000)%R. split; [left; reflexivity|lra].
  - unfold unit_within. rewrite Hn.
    replace (1 / 2 - 1)%R with (- (1 / 2))%R by lra.
    rewrite Rabs_Ropp, Rabs_pos_eq by lra. lra.
Qed.



End KernelFacts.

(* ================================================================== *)
(** * Further properties of transformer.py *)

Module TransformerMore.

Import Transformer TransformerFacts.

(** ** What [generate] samples *)

Lemma mapM_inv {A B} (f : A -> result B) (l : list A) :
  forall r, mapM f l = Ok r -> Forall2 (fun a b => f a = Ok b) l r.
Proof.
  induction l as [|a l IH]; intros r H; simpl in H.
  - injection H as <-. constructor.
  - destruct (f a) as [b|] eqn:Hb; simpl in H; [|discriminate].
    destruct (mapM f l) as [bs|]; simpl in H; [|discriminate].
    injection H as <-. constructor; auto.
Qed.

Lemma Forall2_compose {A} (R1 R2 R3 : A -> A -> Prop) (l1 l2 l3 : list A) :
  (forall a b c, R1 a b -> R2 b c -> R3 a c) ->
  Forall2 R1 l1 l2 -> Forall2 R2 l2 l3 -> Forall2 R3 l1 l3.
Proof.
  intros Hc H12. revert l3.
  induction H12 as [|a b l1 l2 Hab _ IH]; intros l3 H23; inversion H23; subst;
    constructor; eauto.
Qed.

Lemma Forall2_zip_with {A B} (f : A -> B -> A) (R : A -> A -> Prop) (P : B -> Prop) :
  (forall a b, P b -> R a (f a b)) ->
  forall la lb, length lb = length la -> Forall P lb ->
    Forall2 R la (zip_with f la lb).
Proof.
  intros Hf. unfold zip_with.
  induction la as [|a la IH]; intros [|b lb] Hl HP; simpl in *; try lia;
    constructor.
  - apply Hf. inversion HP; assumption.
  - apply IH; [lia|inversion HP; assumption].
Qed.

Section Sampled.

Variable F : Type.
Variable ltF : F -> F -> bool.
Variable val : F -> float.
Variable P : Type.
Variable net : module P -> list (list token) -> list (list (list (logit F))).
Variable max_seq_len : Z.
Variable rnd : nat -> nat.

Lemma scatter_row_length (ind : list nat) :
  forall (probs vals r : list (logit F)),
    scatter_row probs ind vals = Ok r -> length r = length probs.
Proof.
  induction ind as [|j ind IH]; intros probs vals r H; simpl in H.
  - injection H as <-. reflexivity.
  - destruct vals as [|x vals]; [injection H as <-; reflexivity|].
    destruct (j <? length probs); [|discriminate].
    apply IH in H. rewrite H. apply set_nth_length.
Qed.

Lemma top_k_row_length (k : nat) (row r : list (logit F)) :
  top_k_row ltF k row = Ok r -> length r = length row.
Proof.
  unfold top_k_row. intros H. apply scatter_row_length in H.
  rewrite H. apply repeat_length.
Qed.

(** [top_k] keeps the shape of [logits]. *)
Lemma top_k_lengths (logits res : list (list (logit F))) (thres : float) :
  top_k ltF logits thres = Ok res ->
  Forall2 (fun row r => length r = length row) logits res.
Proof.
  unfold top_k. destruct (top_k_count logits thres) as [k|]; simpl; [|discriminate].
  unfold torch_topk.
  destruct ((k <? 0)%Z || (Z.of_nat (shape_last logits) <? k)%Z)%bool; simpl;
    [discriminate|].
  rewrite (scatter_rows ltF (Z.to_nat k) logits). intros H.
  apply mapM_inv in H. revert H. apply Forall2_impl.
  intros row r Hr. apply (top_k_row_length _ _ Hr).
Qed.

(** A token that is drawn indexes the row it is drawn from. *)
Lemma sample_row_in (temp : float) (r : nat) (row : list (logit F)) (t : token) :
  sample_row val temp r row = Ok t -> t < length row.
Proof.
  unfold sample_row, softmax_multinomial.
  destruct (existsb breaks_softmax (map (scaled val temp) row)); [discriminate|].
  destruct (support (map (scaled val temp) row)) as [|s0 s] eqn:Hs; [discriminate|].
  intros H.
  assert (Ht : In t (support (map (scaled val temp) row))).
  { rewrite Hs.
    assert (Ht : t = nth (r mod length (s0 :: s)) (s0 :: s) 0) by congruence.
    rewrite Ht. apply nth_In. apply Nat.mod_upper_bound. discriminate. }
  unfold support in Ht. apply filter_In in Ht. destruct Ht as [Hin _].
  apply in_seq in Hin. rewrite length_map in Hin. lia.
Qed.

Lemma multinomial_softmax_in (temp : float) (rows : list (list (logit F))) :
  forall c sample,
    multinomial_softmax val rnd temp c rows = Ok sample ->
    Forall2 (fun row t => t < length row) rows sample.
Proof.
  induction rows as [|row rows IH]; intros c sample H; simpl in H.
  - injection H as <-. constructor.
  - destruct (sample_row val temp (rnd c) row) as [t|] eqn:Ht; simpl in H;
      [|discriminate].
    destruct (multinomial_softmax val rnd temp (S c) rows) as [ts|] eqn:Hts;
      simpl in H; [|discriminate].
    injection H as <-. constructor; [apply (sample_row_in _ _ _ Ht)|eauto].
Qed.

Lemma last_item_in {A} (row : list A) (a : A) : last_item row = Ok a -> In a row.
Proof.
  unfold last_item. destruct (rev row) as [|x r] eqn:Hrev; [discriminate|].
  intros H. injection H as <-. apply in_rev. rewrite Hrev. left. reflexivity.
Qed.

Variable V : nat.
(** Every row of logits the network returns has [V] entries. *)
Hypothesis net_width :
  forall self x, Forall (Forall (fun row => length row = V)) (net self x).

Lemma last_rows_width (t3 : list (list (list (logit F)))) (logits : list (list (logit F))) :
  Forall (Forall (fun row => length row = V)) t3 ->
  Forall2 (fun rows row => last_item rows = Ok row) t3 logits ->
  Forall (fun row => length row = V) logits.
Proof.
  intros Hnet H2.
  induction H2 as [|rows row t3' logits' Hrow _ IH]; constructor.
  - apply Forall_inv in Hnet. rewrite Forall_forall in Hnet.
    apply Hnet. apply (last_item_in _ Hrow).
  - apply IH. apply Forall_inv_tail in Hnet. exact Hnet.
Qed.

Lemma generate_step_sample (self : module P) (temp thres : float)
  (st st' : gen_state) :
  generate_step ltF val net max_seq_len rnd self temp thres st = Ok st' ->
  exists sample,
    length sample = length (gs_out st) /\
    Forall (fun t => t < V) sample /\
    gs_out st' = zip_with (fun row t => row ++ [t]) (gs_out st) sample.
Proof.
  unfold generate_step. intros H.
  destruct (mapM last_item _) as [logits|] eqn:Hlast; simpl in H; [|discriminate].
  destruct (top_k ltF logits thres) as [filtered|] eqn:Htop; simpl in H; [|discriminate].
  destruct (multinomial_softmax val rnd temp (gs_draws st) filtered) as [sample|] eqn:Hs;
    simpl in H; [|discriminate].
  destruct (cat_last (gs_out st) sample) as [out|] eqn:Hcat; simpl in H;
    [|discriminate].
  injection H as <-. simpl.
  destruct (cat_last_spec _ _ Hcat) as [Hl ->].
  exists sample. repeat split; auto.
  (* every sampled token indexes a row of width V *)
  assert (Hwidth : Forall (fun row => length row = V) logits).
  { apply mapM_inv in Hlast. eapply last_rows_width; [|exact Hlast].
    apply net_width. }
  apply top_k_lengths in Htop. apply multinomial_softmax_in in Hs.
  clear Hcat Hl Hlast.
  revert sample Hs. induction Htop as [|row r logits' filtered' Hr _ IH];
    intros sample Hs; inversion Hs; subst; constructor.
  - inversion Hwidth; subst. lia.
  - apply IH; [inversion Hwidth; assumption|assumption].
Qed.

Local Abbreviation appended :=
  (fun row row' : list token =>
     exists new, row' = row ++ new /\ Forall (fun t => t < V) new).

Lemma generate_loop_appended (self : module P) (temp thres : float) (n : nat) :
  forall st st',
    generate_loop ltF val net max_seq_len rnd self temp thres n st = Ok st' ->
    Forall2 appended (gs_out st) (gs_out st').
Proof.
  induction n as [|n IH]; intros st st' H; simpl in H.
  - injection H as <-. induction (gs_out st) as [|row out IHo]; constructor; auto.
    exists []. rewrite app_nil_r. split; [reflexivity|constructor].
  - destruct (generate_step ltF val net max_seq_len rnd self temp thres st)
      as [st1|] eqn:Hstep; simpl in H; [|discriminate].
    apply generate_step_sample in Hstep.
    destruct Hstep as (sample & Hl & Hv & Hout).
    apply IH in H. rewrite Hout in H.
    eapply (@Forall2_compose (list token) appended appended appended); [| |exact H].
    + intros a b c (n1 & -> & H1) (n2 & -> & H2).
      exists (n1 ++ n2). rewrite app_assoc. split; [reflexivity|].
      apply Forall_app. split; assumption.
    + apply Forall2_zip_with with (P := fun t => t < V); [|assumption|assumption].
      intros row t Ht. exists [t]. split; [reflexivity|].
      constructor; [assumption|constructor].
Qed.

(** X2.  Every token [generate] returns is a valid index into the logits it was
    drawn from: when every row of logits the network returns has [V]
    entries, a call on a (batch, n) prompt that returns holds only tokens
    below [V], whatever the prompt held. *)
Theorem generate_tokens_in_vocabulary
  (w : world P) (a : generate_args) (r : list (list token)) :
  Forall (fun row => length row = shape_last (start_tokens a)) (start_tokens a) ->
  fst (generate ltF val net max_seq_len rnd w a) = Ok r ->
  Forall (Forall (fun t => t < V)) r.
Proof.
  intros Hrect Hgen. rewrite generate_result in Hgen.
  unfold generate_body in Hgen.
  destruct (generate_run _ _ _ _ _ _ _ _ _ _) as [st|] eqn:Hrun; simpl in Hgen;
    [|discriminate].
  injection Hgen as <-.
  unfold generate_run in Hrun. apply generate_loop_appended in Hrun.
  simpl in Hrun. revert Hrect.
  generalize (shape_last (start_tokens a)) as n. intros n Hrect.
  induction Hrun as [|row row' prompt out (new & -> & Hnew) _ IH]; simpl;
    constructor.
  - apply Forall_inv in Hrect. rewrite <- Hrect, slice_from_app. exact Hnew.
  - apply IH. apply Forall_inv_tail in Hrect. exact Hrect.
Qed.

(** Tokens below [V] in the running sequence stay so through a step. *)
Lemma generate_step_keeps_vocabulary (self : module P) (temp thres : float)
  (st st' : gen_state) :
  Forall (Forall (fun t => t < V)) (gs_out st) ->
  generate_step ltF val net max_seq_len rnd self temp thres st = Ok st' ->
  Forall (Forall (fun t => t < V)) (gs_out st').
Proof.
  intros Hout Hstep. apply generate_step_sample in Hstep.
  destruct Hstep as (sample & Hl & Hv & ->).
  revert sample Hl Hv. unfold zip_with.
  induction Hout as [|row out Hrow _ IHo]; intros [|t sample] Hl Hv;
    simpl in *; try lia; constructor.
  - apply Forall_app. split; [assumption|].
    constructor; [apply (Forall_inv Hv)|constructor].
  - apply IHo; [lia|apply (Forall_inv_tail Hv)].
Qed.

End Sampled.

(** ** Exceptions in [generate] *)

(** X3.  When the sampling loop raises, [generate] raises the same exception and
    [model.train(was_training)] is never reached: the whole module tree is
    left in eval mode, whatever its mode was; gradient tracking is put back
    as it was. *)
Theorem generate_raise_leaves_eval
  (F : Type) (ltF : F -> F -> bool) (val : F -> float) (P : Type)
  (net : module P -> list (list token) -> list (list (list (logit F))))
  (max_seq_len : Z) (rnd : nat -> nat)
  (w : world P) (a : generate_args) (e : exn) :
  fst (generate ltF val net max_seq_len rnd w a) = Raise e ->
  snd (generate ltF val net max_seq_len rnd w a)
  = World (grad_enabled w) (eval (self_module w)) /\
  uniform false (self_module (snd (generate ltF val net max_seq_len rnd w a))) = true.
Proof.
  unfold generate. rewrite decorated_call. cbn [fst snd self_module].
  destruct (generate_body _ _ _ _ _ _ _ _ _ _) as [out|e']; [discriminate|].
  intros _. split; [reflexivity|].
  apply train_fixed_iff. unfold eval. apply train_train.
Qed.

(** X4.  With an empty prompt (n = 0) there is no last position to read the
    logits from: when the network returns one row of logits per input
    position, a call with a non-empty batch and [seq_len >= 1] raises
    [IndexError] at [[:, -1, :]]. *)
Theorem generate_empty_prompt_raises
  (F : Type) (ltF : F -> F -> bool) (val : F -> float) (P : Type)
  (net : module P -> list (list token) -> list (list (list (logit F))))
  (max_seq_len : Z) (rnd : nat -> nat)
  (w : world P) (a : generate_args) :
  (forall self x, Forall2 (fun row out => length out = length row) x (net self x)) ->
  start_tokens a <> [] ->
  Forall (fun row => row = []) (start_tokens a) ->
  1 <= seq_len a ->
  fst (generate ltF val net max_seq_len rnd w a) = Raise IndexError.
Proof.
  intros Hnet Hne Hempty Hlen. rewrite generate_result.
  unfold generate_body, generate_run.
  destruct (seq_len a) as [|n]; [lia|]. cbn [generate_loop].
  unfold generate_step. cbn [gs_out].
  specialize (Hnet (eval (self_module w))
                   (map (slice_from (- max_seq_len)) (start_tokens a))).
  destruct (start_tokens a) as [|row prompt]; [congruence|].
  apply Forall_inv in Hempty. subst row.
  assert (Hs : slice_from (- max_seq_len) (@nil token) = [])
    by (unfold slice_from; apply skipn_nil).
  cbn [map] in Hnet |- *. rewrite Hs in Hnet |- *.
  inversion Hnet as [|? out ? outs Hout _]; subst.
  destruct out; [reflexivity|discriminate].
Qed.

(** X19.  With temperature 0 or nan, [filtered_logits / temperature] has no
    finite entry, the softmax is nan and [torch.multinomial] rejects it: a
    call of [generate] on a non-empty batch with at least one token to
    sample never returns, whatever the network (which answers a batch with
    as many entries), the prompt and the threshold; it raises at the first
    step at the latest. *)
Theorem generate_zero_temperature_raises
  (F : Type) (ltF : F -> F -> bool) (val : F -> float) (P : Type)
  (net : module P -> list (list token) -> list (list (list (logit F))))
  (max_seq_len : Z) (rnd : nat -> nat)
  (w : world P) (a : generate_args) :
  (forall self x, length (net self x) = length x) ->
  start_tokens a <> [] ->
  1 <= seq_len a ->
  Prim2SF (temperature a) = S754_nan \/
  (exists s, Prim2SF (temperature a) = S754_zero s) ->
  exists e, fst (generate ltF val net max_seq_len rnd w a) = Raise e.
Proof.
  intros Hnet Hne Hlen Hbad. rewrite generate_result.
  unfold generate_body, generate_run.
  destruct (seq_len a) as [|n]; [lia|]. cbn [generate_loop].
  unfold generate_step. cbn [gs_out gs_draws].
  destruct (mapM last_item _) as [logits|e] eqn:Hlast; simpl; [|exists e; reflexivity].
  destruct (top_k ltF logits (filter_thres a)) as [res|e] eqn:Htop; simpl;
    [|exists e; reflexivity].
  destruct res as [|row res].
  { apply top_k_lengths in Htop. inversion Htop; subst.
    apply mapM_length in Hlast. rewrite Hnet, length_map in Hlast. simpl in Hlast.
    destruct (start_tokens a); [congruence|discriminate]. }
  cbn [multinomial_softmax]. unfold sample_row.
  rewrite softmax_multinomial_not_finite; [exists RuntimeError; reflexivity|].
  apply Forall_map, Forall_forall. intros x _. unfold scaled.
  apply div_zero_or_nan_not_finite. exact Hbad.
Qed.

(** ** top_k at the ends of its range *)

Section TopKEnds.

Variable F : Type.
Variable ltF : F -> F -> bool.

Lemma topk_indices_shape (row : list (logit F)) (k : nat) :
  forall cands, NoDup cands ->
    let S := topk_indices ltF row k cands in
    NoDup S /\ incl S cands /\ length S = Nat.min k (length cands).
Proof.
  induction k as [|k IH]; intros cands Hnd; simpl.
  - repeat split; [constructor|intros x []].
  - destruct cands as [|c cs]; simpl.
    + repeat split; [constructor|intros x []].
    + set (m := argmax_from ltF row c cs).
      assert (Hm : In m (c :: cs)) by apply argmax_from_in.
      change (if Nat.eq_dec m c then remove Nat.eq_dec m cs
              else c :: remove Nat.eq_dec m cs)
        with (remove Nat.eq_dec m (c :: cs)).
      destruct (IH (remove Nat.eq_dec m (c :: cs)) (remove_NoDup m Hnd))
        as (HndS & Hincl & Hlen).
      repeat split.
      * constructor; [|assumption].
        intros Hin. apply Hincl in Hin. apply in_remove in Hin. tauto.
      * intros x [<-|Hx]; [assumption|].
        apply Hincl in Hx. apply in_remove in Hx. tauto.
      * rewrite Hlen. pose proof (@remove_NoDup_length m _ Hnd Hm) as Hl.
        change (length (c :: cs)) with (S (length cs)) in Hl.
        destruct (Nat.min_spec k (length (remove Nat.eq_dec m (c :: cs))))
          as [[? ->]|[? ->]]; lia.
Qed.

Lemma entries_equal {A} (d : A) (l l' : list A) :
  length l = length l' -> (forall j, nth j l d = nth j l' d) -> l = l'.
Proof.
  revert l'. induction l as [|a l IH]; intros [|a' l'] Hl Hn; simpl in Hl;
    try lia; [reflexivity|].
  f_equal; [apply (Hn 0)|].
  apply IH; [lia|]. intros j. apply (Hn (S j)).
Qed.

(** Keeping as many entries as the row has keeps the row. *)
Lemma top_k_row_all (row : list (logit F)) :
  top_k_row ltF (length row) row = Ok row.
Proof.
  unfold top_k_row.
  destruct (topk_indices_shape row (length row) (seq_NoDup (length row) 0))
    as (Hnd & Hincl & Hlen).
  set (ind := topk_indices ltF row (length row) (seq 0 (length row))) in *.
  rewrite length_seq, Nat.min_id in Hlen.
  assert (Hall : forall j, j < length row -> In j ind).
  { intros j Hj.
    apply (NoDup_length_incl Hnd (l' := seq 0 (length row)));
      [rewrite length_seq; lia|exact Hincl|apply in_seq; lia]. }
  destruct (scatter_row_spec row ind (repeat NegInf (length row)))
    as (res & Hres & Hl & Hsel & _).
  { intros j Hj. rewrite repeat_length. apply Hincl in Hj. apply in_seq in Hj. lia. }
  rewrite Hres. f_equal. rewrite repeat_length in Hl.
  apply (entries_equal NegInf); [exact Hl|].
  intros j. destruct (Nat.lt_ge_cases j (length row)) as [Hj|Hj].
  - apply (Hsel j (Hall j Hj)).
  - rewrite !nth_overflow by lia. reflexivity.
Qed.

Lemma top_k_rows_all (V : nat) (rows : list (list (logit F))) :
  Forall (fun row => length row = V) rows ->
  mapM (top_k_row ltF V) rows = Ok rows.
Proof.
  induction 1 as [|row rows Hrow _ IH]; simpl; [reflexivity|].
  rewrite <- Hrow at 1. rewrite top_k_row_all, IH. reflexivity.
Qed.

(** X8.  When [int((1 - thres) * V)] is the whole width [V] (as for
    [thres = 0]), [top_k] filters nothing: it returns [logits]. *)
Theorem top_k_keeps_everything (logits : list (list (logit F))) (thres : float) :
  Forall (fun row => length row = shape_last logits) logits ->
  top_k_count logits thres = Ok (Z.of_nat (shape_last logits)) ->
  top_k ltF logits thres = Ok logits.
Proof.
  intros Hshape Hk.
  rewrite (top_k_rows ltF logits thres Hk) by lia.
  rewrite Nat2Z.id. apply top_k_rows_all. exact Hshape.
Qed.

End TopKEnds.

(** ** The tensors of the attention layer *)

Lemma firstn_plus {A} (a b : nat) (l : list A) :
  firstn (a + b) l = firstn a l ++ firstn b (skipn a l).
Proof.
  revert l. induction a as [|a IH]; intros [|x l]; simpl;
    rewrite ?firstn_nil; try reflexivity.
  rewrite IH. reflexivity.
Qed.

Lemma map_nth_seq {A} (d : A) (l : list A) :
  map (fun i => nth i l d) (seq 0 (length l)) = l.
Proof.
  induction l as [|a l IH]; simpl; [reflexivity|].
  f_equal. rewrite <- seq_shift, map_map. exact IH.
Qed.

Lemma div3 (c : nat) : (3 * c + 2) / 3 = c.
Proof.
  rewrite (Nat.mul_comm 3 c), Nat.div_add_l by lia. simpl. lia.
Qed.

(** X9.  [chunk(3, dim = -1)] cuts a feature vector of width [3 * c] into three
    consecutive pieces of width [c]: nothing is lost, repeated or
    reordered. *)
Theorem chunk3_partitions {T} (row : list T) (c : nat) :
  length row = 3 * c ->
  let '(q, k, v) := chunk3 row in
  q ++ k ++ v = row /\ length q = c /\ length k = c /\ length v = c.
Proof.
  intros Hl. unfold chunk3. rewrite Hl, div3.
  repeat split.
  - assert (H : skipn (2 * c) row = skipn c (skipn c row))
      by (rewrite skipn_skipn; f_equal; lia).
    rewrite H, (firstn_skipn c (skipn c row)). apply firstn_skipn.
  - rewrite length_firstn. lia.
  - rewrite length_firstn, length_skipn. lia.
  - rewrite length_skipn. lia.
Qed.

Section Heads.

Variable T : Type.

Lemma concat_head_slices (d : nat) (row : list T) (h : nat) :
  concat (map (fun a => firstn d (skipn (a * d) row)) (seq 0 h)) = firstn (h * d) row.
Proof.
  induction h as [|h IH]; [reflexivity|].
  rewrite seq_S, map_app, concat_app, IH. simpl. rewrite app_nil_r.
  rewrite (Nat.add_comm d (h * d)). symmetry. apply firstn_plus.
Qed.

Lemma nth_map_head_slice (d a i : nat) (t : list (list T)) :
  nth i (map (fun row => firstn d (skipn (a * d) row)) t) []
  = firstn d (skipn (a * d) (nth i t [])).
Proof.
  revert i. induction t as [|row t IH]; intros [|i]; simpl;
    rewrite ?skipn_nil, ?firstn_nil; auto.
Qed.

(** X10.  Splitting a (n, h * d) tensor into [h] heads and merging the heads
    again gives the tensor back: the two [rearrange] calls of the layer are
    inverse to each other. *)
Theorem heads_round_trip (h d : nat) (t : list (list T)) :
  0 < h ->
  Forall (fun row => length row = h * d) t ->
  merge_heads (split_heads h t) = t.
Proof.
  intros Hh Hrows. unfold merge_heads, split_heads.
  set (d' := shape_last t / h).
  assert (Hn : shape_last
                 (map (fun a => map (fun row => firstn d' (skipn (a * d') row)) t)
                      (seq 0 h)) = length t).
  { destruct h as [|h]; [lia|]. simpl. apply length_map. }
  rewrite Hn.
  etransitivity; [|apply (map_nth_seq [] t)].
  apply map_ext_in. intros i Hi. apply in_seq in Hi.
  rewrite map_map.
  rewrite (map_ext _ (fun a => firstn d' (skipn (a * d') (nth i t []))))
    by (intros a; apply nth_map_head_slice).
  rewrite concat_head_slices.
  assert (Hrow : length (nth i t []) = h * d).
  { rewrite Forall_forall in Hrows. apply Hrows. apply nth_In. lia. }
  assert (Hd : d' = d).
  { unfold d'. destruct t as [|row0 t0]; [simpl in Hi; lia|].
    simpl. apply Forall_inv in Hrows. rewrite Hrows.
    rewrite Nat.mul_comm. apply Nat.div_mul. lia. }
  rewrite Hd, <- Hrow. apply firstn_all.
Qed.

(** The shape of what [split_heads] returns: [h] heads, each with the
    positions of [t] and [d] features per position. *)
Lemma split_heads_shape (h d : nat) (t : list (list T)) :
  0 < h ->
  Forall (fun row => length row = h * d) t ->
  length (split_heads h t) = h /\
  Forall (fun head => length head = length t /\
                      Forall (fun row => length row = d) head)
         (split_heads h t).
Proof.
  intros Hh Hrows. unfold split_heads.
  split; [rewrite length_map, length_seq; reflexivity|].
  apply Forall_map, Forall_forall. intros a Ha. apply in_seq in Ha.
  split; [apply length_map|].
  apply Forall_map. rewrite Forall_forall in Hrows |- *.
  intros row Hrow.
  assert (Hd : shape_last t / h = d).
  { destruct t as [|row0 t0]; [contradiction|].
    simpl. rewrite (Hrows row0 (or_introl eq_refl)).
    rewrite Nat.mul_comm. apply Nat.div_mul. lia. }
  rewrite Hd, length_firstn, length_skipn, (Hrows row Hrow). nia.
Qed.

Lemma chunk3_lengths (row : list T) (c : nat) :
  length row = 3 * c ->
  length (fst (fst (chunk3 row))) = c /\
  length (snd (fst (chunk3 row))) = c /\
  length (snd (chunk3 row)) = c.
Proof.
  intros Hl. unfold chunk3. rewrite Hl, div3. cbn [fst snd].
  rewrite !length_firstn, !length_skipn. lia.
Qed.

Lemma Forall2_map_self {A B} (R : A -> B -> Prop) (g : A -> B) (l : list A) :
  Forall (fun a => R a (g a)) l -> Forall2 R l (map g l).
Proof. induction 1; simpl; constructor; auto. Qed.

(** X11.  The tensors the attention layer hands to the attention primitive: when
    [to_qkv] returns (batch, n, 3 * heads * dim_head), each of q, k and v is
    (batch, heads, n, dim_head), and the primitive is called on them with
    [causal = True]. *)
Theorem attention_layer_head_shapes
  (prims : primitives T) (self : attention T) (x : tensor3 T) (dim_head : nat) :
  0 < heads self ->
  Forall (Forall (fun row => length row = 3 * (heads self * dim_head)))
         (to_qkv self (norm self x)) ->
  let shaped t (qb : list (list (list T))) :=
    length qb = heads self /\
    Forall (fun head => length head = length t /\
                        Forall (fun row => length row = dim_head) head) qb in
  exists q k v,
    forward prims self x
    = to_out self (map (@merge_heads T) (plain_cosine_sim_attention prims q k v true)) /\
    Forall2 shaped (to_qkv self (norm self x)) q /\
    Forall2 shaped (to_qkv self (norm self x)) k /\
    Forall2 shaped (to_qkv self (norm self x)) v.
Proof.
  intros Hh Hqkv shaped. unfold forward.
  eexists _, _, _. split; [reflexivity|].
  assert (Hsel : forall sel : list T * list T * list T -> list T,
             (forall row c, length row = 3 * c -> length (sel (chunk3 row)) = c) ->
             Forall2 shaped (to_qkv self (norm self x))
                     (map (fun t => split_heads (heads self) (map sel t))
                          (map (map (@chunk3 T)) (to_qkv self (norm self x))))).
  { intros sel Hlen. rewrite map_map. apply Forall2_map_self.
    revert Hqkv. apply Forall_impl. intros t Ht.
    destruct (@split_heads_shape (heads self) dim_head (map sel (map (@chunk3 T) t)) Hh)
      as [Hl Hheads].
    { rewrite map_map. apply Forall_map. revert Ht. apply Forall_impl.
      intros row Hrow. apply Hlen. exact Hrow. }
    split; [exact Hl|]. rewrite !length_map in Hheads. exact Hheads. }
  repeat split; apply Hsel; intros row c Hrow;
    destruct (@chunk3_lengths row c Hrow) as (H1 & H2 & H3); assumption.
Qed.

End Heads.

(** ** AutoregressiveWrapper.forward *)

Lemma slice_to_last {A} (row : list A) :
  slice_to (-1) row = firstn (length row - 1) row.
Proof.
  unfold slice_to. change (-1 <? 0)%Z with true. cbv iota. f_equal. lia.
Qed.

Lemma slice_from_one {A} (row : list A) : slice_from 1 row = skipn 1 row.
Proof.
  unfold slice_from. change (1 <? 0)%Z with false. cbv iota.
  destruct row as [|a row]; [reflexivity|].
  replace (Z.to_nat (Z.min 1 (Z.of_nat (length (a :: row))))) with 1; [reflexivity|].
  simpl length. lia.
Qed.

(** X12.  The training pairs of [AutoregressiveWrapper.forward]: for every row of
    [x], inputs and labels both have one position less than the row; input
    [j] is token [j] and label [j] is token [j + 1], so every position is
    trained to predict the token that follows it and the last token is never
    fed to the network. *)
Theorem wrapper_labels_follow_inputs (x : list (list token)) :
  Forall2 (fun row inp => length inp = length row - 1 /\
                          forall j, j < length row - 1 ->
                                    nth_error inp j = nth_error row j)
          x (wrapper_inputs x) /\
  Forall2 (fun row lab => length lab = length row - 1 /\
                          forall j, nth_error lab j = nth_error row (S j))
          x (wrapper_labels x).
Proof.
  unfold wrapper_inputs, wrapper_labels.
  split; apply Forall2_map_self, Forall_forall; intros row _.
  - rewrite slice_to_last. split.
    + rewrite length_firstn. lia.
    + intros j Hj. rewrite nth_error_firstn.
      destruct (Nat.ltb_spec j (length row - 1)); [reflexivity|lia].
  - rewrite slice_from_one. split.
    + rewrite length_skipn. reflexivity.
    + intros j. destruct row; [destruct j; reflexivity|reflexivity].
Qed.

Section SwapLastTwo.

Variable A : Type.

Local Abbreviation pick j :=
  (fun row : list A => match nth_error row j with Some a => [a] | None => [] end).

Lemma column_entries (j : nat) (t : list (list A)) :
  Forall (fun row => j < length row) t ->
  length (flat_map (pick j) t) = length t /\
  forall i, nth_error (flat_map (pick j) t) i
            = match nth_error t i with
              | Some row => nth_error row j
              | None => None
              end.
Proof.
  induction 1 as [|row t Hrow _ [IHl IHn]]; simpl.
  - split; [reflexivity|]. intros [|i]; reflexivity.
  - destruct (nth_error row j) as [a|] eqn:Ha.
    2:{ apply nth_error_None in Ha. lia. }
    simpl. split; [congruence|].
    intros [|i]; simpl; [congruence|apply IHn].
Qed.

(** X13.  [rearrange(logits, 'b c n -> b n c')] on a batch entry with [r] rows of
    [c] entries returns [c] rows of [r] entries, entry [(j, i)] of the result
    being entry [(i, j)] of the input: the two last axes are exchanged and no
    entry is lost. *)
Theorem swap_last_two_entries (t : list (list A)) (c : nat) :
  t <> [] ->
  Forall (fun row => length row = c) t ->
  length (swap_last_two t) = c /\
  Forall (fun row => length row = length t) (swap_last_two t) /\
  forall i j, i < length t -> j < c ->
    nth_error (nth j (swap_last_two t) []) i = nth_error (nth i t []) j.
Proof.
  intros Hne Hrows. unfold swap_last_two.
  assert (Hc : shape_last t = c).
  { destruct t as [|row t0]; [congruence|]. simpl. apply (Forall_inv Hrows). }
  rewrite Hc.
  assert (Hcol : forall j, j < c -> Forall (fun row => j < length row) t).
  { intros j Hj. revert Hrows. apply Forall_impl. intros row ->. exact Hj. }
  split; [rewrite length_map, length_seq; reflexivity|]. split.
  - apply Forall_map, Forall_forall. intros j Hj. apply in_seq in Hj.
    apply (column_entries (Hcol j ltac:(lia))).
  - intros i j Hi Hj.
    rewrite (nth_indep _ [] (flat_map (pick 0) t))
      by (rewrite length_map, length_seq; exact Hj).
    change (flat_map (pick 0) t) with ((fun j => flat_map (pick j) t) 0).
    rewrite map_nth, seq_nth by exact Hj. simpl.
    destruct (column_entries (Hcol j Hj)) as [_ Hn]. rewrite Hn.
    rewrite (nth_error_nth' t [] Hi). reflexivity.
Qed.

End SwapLastTwo.

(** ** CosineSimCausalTransformer.forward *)

Section TransformerDomain.

Variable T : Type.
Variable tadd : T -> T -> T.

Lemma embedding_all (num : nat) (weight : nat -> list T) (l : list nat) :
  mapM (embedding num weight) l =
  if forallb (fun i => i <? num) l then Ok (map weight l) else Raise IndexError.
Proof.
  induction l as [|i l IH]; simpl; [reflexivity|].
  unfold embedding at 1. destruct (i <? num); simpl; [|reflexivity].
  rewrite IH. destruct (forallb _ l); reflexivity.
Qed.

Lemma embedding_all_rows (num : nat) (weight : nat -> list T) (x : list (list nat)) :
  mapM (mapM (embedding num weight)) x =
  if forallb (forallb (fun i => i <? num)) x
  then Ok (map (map weight) x) else Raise IndexError.
Proof.
  induction x as [|row x IH]; simpl; [reflexivity|].
  rewrite embedding_all. destruct (forallb _ row); simpl; [|reflexivity].
  rewrite IH. destruct (forallb _ x); reflexivity.
Qed.

Lemma positions_in_table (n m : nat) :
  forallb (fun i => i <? m) (seq 0 n) = (n <=? m).
Proof.
  destruct (Nat.leb_spec n m) as [Hle|Hgt].
  - apply forallb_forall. intros i Hi. apply in_seq in Hi.
    apply Nat.ltb_lt. lia.
  - destruct (forallb (fun i => i <? m) (seq 0 n)) eqn:Hall; [|reflexivity].
    rewrite forallb_forall in Hall.
    specialize (Hall m). rewrite Nat.ltb_irrefl in Hall.
    assert (Hf : false = true) by (apply Hall; apply in_seq; lia).
    discriminate.
Qed.

(** X6.  The inputs [CosineSimCausalTransformer.forward] accepts: it returns
    exactly when every token is below [num_tokens] and the sequences have at
    most [max_seq_len] positions; otherwise a lookup in [token_emb] or in
    [pos_emb] raises [IndexError]. *)
Theorem transformer_forward_domain
  (prims : primitives T) (self : causal_transformer T) (x : list (list token)) :
  (Forall (Forall (fun t => t < num_tokens self)) x /\
   shape_last x <= max_seq_len self ->
   exists logits, transformer_forward tadd prims self x = Ok logits) /\
  (~ (Forall (Forall (fun t => t < num_tokens self)) x /\
      shape_last x <= max_seq_len self) ->
   transformer_forward tadd prims self x = Raise IndexError).
Proof.
  unfold transformer_forward.
  rewrite embedding_all_rows, embedding_all, positions_in_table.
  destruct (forallb (forallb (fun i => i <? num_tokens self)) x) eqn:Htok.
  - assert (Hall : Forall (Forall (fun t => t < num_tokens self)) x).
    { rewrite forallb_forall in Htok. apply Forall_forall. intros row Hrow.
      specialize (Htok row Hrow). rewrite forallb_forall in Htok.
      apply Forall_forall. intros t Ht. apply Nat.ltb_lt. auto. }
    destruct (Nat.leb_spec (shape_last x) (max_seq_len self)) as [Hle|Hgt]; simpl.
    + split; [intros _; eexists; reflexivity|]. intros Hn. tauto.
    + split; [intros [_ Hle]; lia|reflexivity].
  - simpl. split; [|reflexivity].
    intros [Hall _]. exfalso.
    assert (Htrue : forallb (forallb (fun i => i <? num_tokens self)) x = true).
    { apply forallb_forall. intros row Hrow. apply forallb_forall. intros t Ht.
      apply Nat.ltb_lt. rewrite Forall_forall in Hall.
      specialize (Hall row Hrow). rewrite Forall_forall in Hall. auto. }
    congruence.
Qed.

Lemma transformer_forward_returns
  (prims : primitives T) (self : causal_transformer T) (x : list (list token)) :
  Forall (Forall (fun t => t < num_tokens self)) x ->
  shape_last x <= max_seq_len self ->
  exists logits, transformer_forward tadd prims self x = Ok logits.
Proof.
  intros Hall Hle. unfold transformer_forward.
  rewrite embedding_all_rows, embedding_all, positions_in_table.
  assert (Htok : forallb (forallb (fun i => i <? num_tokens self)) x = true).
  { apply forallb_forall. intros row Hrow. apply forallb_forall. intros t Ht.
    apply Nat.ltb_lt. rewrite Forall_forall in Hall.
    specialize (Hall row Hrow). rewrite Forall_forall in Hall. auto. }
  rewrite Htok. simpl.
  destruct (Nat.leb_spec (shape_last x) (max_seq_len self)); [|lia].
  simpl. eexists. reflexivity.
Qed.

Lemma shape_last_bound {A} (n : nat) (t : list (list A)) :
  Forall (fun row => length row <= n) t -> shape_last t <= n.
Proof. destruct 1; simpl; lia. Qed.


End TransformerDomain.

(** ** The theorems at concrete inputs *)

Import Examples.

Lemma small_logit_finite (n : nat) :
  n < 30 -> finite (scaled float_of_Z 1%float (Val (Z.of_nat n))) = true.
Proof.
  intros H. do 30 (destruct n as [|n]; [vm_compute; reflexivity|]). lia.
Qed.

(** The example network answers every batch with one row of 30 logits per
    position, which temperature 1 leaves finite. *)
Lemma net30_shape (self : module unit) (x : list (list token)) :
  x <> [] ->
  Forall (fun row => row <> [] /\ length row <= Z.to_nat 3) x ->
  length (net30 self x) = length x /\
  finite_logits float_of_Z 1%float 30 (net30 self x).
Proof.
  intros _ Hrows. unfold net30. split; [apply length_map|].
  unfold finite_logits. apply Forall_map.
  eapply Forall_impl; [|exact Hrows].
  intros row [Hrow _]. split.
  - destruct row; [exfalso; apply Hrow; reflexivity|discriminate].
  - apply Forall_map. apply Forall_forall. intros t _. split.
    + rewrite length_map, length_seq. reflexivity.
    + apply Forall_map. apply Forall_forall. intros j _. split; [discriminate|].
      apply small_logit_finite. apply Nat.mod_upper_bound. discriminate.
Qed.

Lemma net30_width (self : module unit) (x : list (list token)) :
  Forall (Forall (fun row : list (logit Z) => length row = 30)) (net30 self x).
Proof.
  unfold net30. apply Forall_map, Forall_forall. intros row _.
  apply Forall_map, Forall_forall. intros t _.
  rewrite length_map, length_seq. reflexivity.
Qed.

Lemma net30_rows (self : module unit) (x : list (list token)) :
  Forall2 (fun (row : list token) (out : list (list (logit Z))) => length out = length row)
          x (net30 self x).
Proof.
  unfold net30. induction x as [|row x IH]; constructor; [apply length_map|exact IH].
Qed.


(** A threshold of 2 asks for -30 entries of a row of 30. *)
Lemma top_k_out_of_range_witness :
  top_k Z.ltb logits30 2%float = Raise RuntimeError.
Proof.
  apply (@top_k_out_of_range Z Z.ltb logits30 2%float (-30)%Z).
  - vm_compute. reflexivity.
  - left. lia.
Defined.

(** The tokens sampled from the example network index its 30 logits. *)
Lemma generate_tokens_in_vocabulary_witness :
  Forall (Forall (fun t => t < 30)) [[26; 2; 26; 2]; [25; 4; 25; 4]].
Proof.
  apply (@generate_tokens_in_vocabulary Z Z.ltb float_of_Z unit net30 3%Z counter 30
           net30_width mixed_world prompt).
  - repeat constructor.
  - vm_compute. reflexivity.
Defined.

(** Over 10 tokens the default threshold asks for 0 entries and the call
    raises; the wrapper, in training mode before, is left in eval mode. *)
Lemma generate_raise_leaves_eval_witness :
  snd (generate Z.ltb float_of_Z net10 3%Z counter mixed_world prompt) =
    World true (eval (self_module mixed_world)) /\
  uniform false
    (self_module (snd (generate Z.ltb float_of_Z net10 3%Z counter mixed_world prompt)))
  = true.
Proof.
  apply (@generate_raise_leaves_eval Z Z.ltb float_of_Z unit net10 3%Z counter
           mixed_world prompt
           RuntimeError).
  vm_compute. reflexivity.
Defined.

(** The example network called with temperature 0: the exception is the
    [RuntimeError] of [multinomial]. *)
Lemma generate_zero_temperature_raises_witness :
  exists e,
    fst (generate Z.ltb float_of_Z net30 3%Z counter mixed_world zero_temperature)
    = Raise e /\ e = RuntimeError.
Proof.
  destruct (@generate_zero_temperature_raises Z Z.ltb float_of_Z unit net30 3%Z counter
              mixed_world zero_temperature) as [e He].
  - intros self x. apply length_map.
  - discriminate.
  - simpl. lia.
  - right. exists false. reflexivity.
  - exists e. split; [exact He|].
    vm_compute in He. injection He as He. symmetry. exact He.
Defined.

(** Two empty prompts and one token to sample. *)
Lemma generate_empty_prompt_raises_witness :
  fst (generate Z.ltb float_of_Z net30 3%Z counter mixed_world empty_prompt)
  = Raise IndexError.
Proof.
  apply (@generate_empty_prompt_raises Z Z.ltb float_of_Z unit net30 3%Z counter mixed_world
           empty_prompt net30_rows).
  - discriminate.
  - repeat constructor.
  - simpl. lia.
Defined.


(** Two positions are accepted by a model of three, four are not. *)
Lemma transformer_forward_domain_witness :
  (exists logits,
     transformer_forward Z.add (Primitives returns_v returns_v) small_model [[1; 2]; [3; 4]]
     = Ok logits) /\
  transformer_forward Z.add (Primitives returns_v returns_v) small_model [[1; 2; 3; 4]]
  = Raise IndexError.
Proof.
  split.
  - apply (@transformer_forward_domain Z Z.add (Primitives returns_v returns_v) small_model
             [[1; 2]; [3; 4]]).
    split; [repeat constructor|simpl; lia].
  - apply (@transformer_forward_domain Z Z.add (Primitives returns_v returns_v) small_model
             [[1; 2; 3; 4]]).
    simpl. intros [_ H]. lia.
Defined.

(** A threshold of 0 keeps all 30 logits. *)
Lemma top_k_keeps_everything_witness :
  top_k Z.ltb logits30 0%float = Ok logits30.
Proof.
  apply (@top_k_keeps_everything Z Z.ltb logits30 0%float).
  - repeat constructor.
  - vm_compute. reflexivity.
Defined.

(** Six features in three chunks of two. *)
Lemma chunk3_partitions_witness :
  let '(q, k, v) := chunk3 [1; 2; 3; 4; 5; 6] in
  q ++ k ++ v = [1; 2; 3; 4; 5; 6] /\ length q = 2 /\ length k = 2 /\ length v = 2.
Proof.
  apply (@chunk3_partitions nat [1; 2; 3; 4; 5; 6] 2). reflexivity.
Defined.

(** Two positions, two heads of two features. *)
Lemma heads_round_trip_witness :
  merge_heads (split_heads 2 [[1; 2; 3; 4]; [5; 6; 7; 8]]) = [[1; 2; 3; 4]; [5; 6; 7; 8]].
Proof.
  apply (@heads_round_trip nat 2 2 [[1; 2; 3; 4]; [5; 6; 7; 8]]).
  - lia.
  - repeat constructor.
Defined.

(** The copying layer with one head of two features. *)
Lemma attention_layer_head_shapes_witness :
  exists q k v : tensor4 Z,
    forward (Primitives returns_v returns_v) copy_layer [[[1; 2]]]%Z =
    to_out copy_layer (map (@merge_heads Z) (returns_v q k v true)) /\
    length q = 1 /\ length k = 1 /\ length v = 1.
Proof.
  destruct (@attention_layer_head_shapes Z (Primitives returns_v returns_v) copy_layer
              [[[1; 2]]]%Z 2) as (q & k & v & Hf & Hq & Hk & Hv).
  - simpl. lia.
  - repeat constructor.
  - exists q, k, v. split; [exact Hf|].
    apply Forall2_length in Hq, Hk, Hv. simpl in Hq, Hk, Hv.
    repeat split; congruence.
Defined.

(** A 2 x 3 entry becomes 3 x 2. *)
Lemma swap_last_two_entries_witness :
  length (swap_last_two [[1; 2; 3]; [4; 5; 6]]) = 3 /\
  Forall (fun row => length row = 2) (swap_last_two [[1; 2; 3]; [4; 5; 6]]).
Proof.
  destruct (@swap_last_two_entries nat [[1; 2; 3]; [4; 5; 6]] 3) as (H1 & H2 & _).
  - discriminate.
  - repeat constructor.
  - split; assumption.
Defined.

End TransformerMore.

(* ================================================================== *)
(** * Further properties of benchmark.py *)

Module BenchmarkMore.

Import Benchmark BenchmarkFacts.

(** ** The parameter grid *)

(** X14.  The permutations are the ways of picking one value per parameter, a
    scalar parameter standing for its single value ([cast_tuple]). *)
Theorem permutations_pick_one_value_each (ps : list param) (p : list nat) :
  In p (product (map cast_tuple ps)) <->
  Forall2 (fun x prm => In x (cast_tuple prm)) p ps.
Proof.
  revert p. induction ps as [|prm ps IH]; intros p; simpl.
  - split.
    + intros [<-|[]]. constructor.
    + intros H. inversion H. left. reflexivity.
  - rewrite in_flat_map. split.
    + intros (x & Hx & Hp). apply in_map_iff in Hp.
      destruct Hp as (p' & <- & Hp'). constructor; [exact Hx|].
      apply IH. exact Hp'.
    + intros H. inversion H as [|x prm' p' ps' Hx Hp']; subst.
      exists x. split; [exact Hx|]. apply in_map. apply IH. exact Hp'.
Qed.

(** X15.  With scalar parameters only, as in the script, there is one permutation:
    the parameters themselves. *)
Theorem scalar_params_single_permutation (values : list nat) :
  product (map cast_tuple (map Int values)) = [values].
Proof.
  induction values as [|v values IH]; simpl; [reflexivity|].
  rewrite IH. reflexivity.
Qed.

(** ** Runs that end early *)

Section Runs.

Variable cuda_available : bool.
Variable benchmark :
  primitive -> bool -> bool -> tensor -> tensor -> tensor -> bool -> result time.
Variable a : args.

Lemma assertions_stop_early :
  cuda_available = false \/ only_forwards a && only_backwards a = true ->
  main cuda_available benchmark a initial = (Raise AssertionError, initial).
Proof.
  unfold main, seq_, ret, raise.
  intros [->|H]; [reflexivity|].
  rewrite H. destruct cuda_available; reflexivity.
Qed.

(** X16.  Without CUDA, or with both --only-forwards and --only-backwards, the
    script stops at an assertion before it prints or times anything. *)
Theorem assertions_stop_the_script :
  cuda_available = false \/ only_forwards a && only_backwards a = true ->
  main cuda_available benchmark a initial = (Raise AssertionError, initial).
Proof.
  unfold main, seq_, ret, raise.
  intros [->|H]; [reflexivity|].
  rewrite H. destruct cuda_available; reflexivity.
Qed.

Lemma not_sentinel_of_zero (t : time) :
  Qeq_bool t 0 = true -> Qeq_bool t (-1) = false.
Proof.
  intros H0. destruct (Qeq_bool t (-1)) eqn:H1; [|reflexivity].
  apply Qeq_bool_iff in H0. apply Qeq_bool_iff in H1.
  rewrite H0 in H1. discriminate.
Qed.

(** X17.  A reference call timed at exactly 0 ms is not the sentinel, so line 82
    divides by it: the run ends with [ZeroDivisionError], as shown for the
    first configuration, before any row is printed. *)
Theorem zero_baseline_time_divides_by_zero (tf tb : time) :
  only_forwards a && only_backwards a = false ->
  benchmark flash_cosine_sim_attention (TEST_FORWARDS a) (TEST_BACKWARDS a)
            (Tensor [4; 8; 128; 64] float32 0) (Tensor [4; 8; 128; 64] float32 1)
            (Tensor [4; 8; 128; 64] float32 2) (causal a) = Ok tf ->
  benchmark plain_cosine_sim_attention (TEST_FORWARDS a) (TEST_BACKWARDS a)
            (Tensor [4; 8; 128; 64] float32 0) (Tensor [4; 8; 128; 64] float32 1)
            (Tensor [4; 8; 128; 64] float32 2) (causal a) = Ok tb ->
  Qeq_bool tb 0 = true ->
  exists st,
    main true benchmark a initial = (Raise ZeroDivisionError, st) /\
    filter is_row (stdout st) = [] /\
    length (calls st) = 2.
Proof.
  intros Hflags Hfused Hbase Hzero. eexists. split.
  - unfold main. rewrite Hflags.
    cbn [negb for_each]. unfold seq_ at 1 2 3. unfold ret at 1 2.
    unfold bench_dtype at 1.
    replace (TEST_BACKWARDS a && dtype_eqb float32 float16) with false
      by (symmetry; apply andb_false_r).
    change permutations with [[BATCH_SIZES; HEADS; DIM]].
    cbn [for_each bench_permutation TEST_SEQUENCE_LENGTHS].
    unfold seq_ at 1. unfold seq_ at 1. unfold seq_ at 1 2 3.
    unfold print at 1 2 3. cbn [stdout calls draws initial app].
    unfold seq_ at 1. unfold bench_seq at 1.
    unfold seq_ at 1 2 3 4 5 6, randn at 1 2 3. cbn [stdout calls draws].
    unfold fused_attention_fn, attention_fn, try_except, timed at 1 2.
    cbn [stdout calls draws].
    unfold CAUSAL. change BATCH_SIZES with 4. change HEADS with 8.
    change DIM with 64. rewrite Hfused, Hbase.
    rewrite (not_sentinel_of_zero _ Hzero). cbn [negb].
    unfold divide. rewrite Hzero. reflexivity.
  - split; reflexivity.
Qed.

(** *** Every run stays inside the sweep *)

Local Abbreviation prefix_of p l := (exists q : list call, l = p ++ q).

Lemma bench_seq_within (dt : dtype) (batch heads dim seq : nat) (s : state) :
  exists p,
    calls (snd (bench_seq benchmark a dt batch heads dim seq s)) = calls s ++ p /\
    prefix_of p (calls_at a dt batch heads dim seq (draws s)) /\
    (fst (bench_seq benchmark a dt batch heads dim seq s) = Ok tt ->
     p = calls_at a dt batch heads dim seq (draws s) /\
     draws (snd (bench_seq benchmark a dt batch heads dim seq s)) = 3 + draws s).
Proof.
  unfold bench_seq, calls_at, tensors_at, seq_, randn,
    fused_attention_fn, attention_fn, timed, try_except, divide, print, ret, raise.
  cbn [stdout calls draws fst snd].
  destruct (benchmark flash_cosine_sim_attention _ _ _ _ _ _) as [tf|e];
    cbn [stdout calls draws fst snd].
  - destruct (benchmark plain_cosine_sim_attention _ _ _ _ _ _) as [tb|e];
      cbn [stdout calls draws fst snd].
    + destruct (Qeq_bool tb (-1)); cbn [negb stdout calls draws fst snd];
        [|destruct (Qeq_bool tb 0); cbn [stdout calls draws fst snd]];
        (eexists; split; [rewrite <- app_assoc; reflexivity|];
         split; [exists []; rewrite app_nil_r; reflexivity|];
         intros H; try discriminate; split; reflexivity).
    + change (Qeq_bool (-1) (-1)) with true. cbn [negb stdout calls draws fst snd].
      eexists; split; [rewrite <- app_assoc; reflexivity|].
      split; [exists []; rewrite app_nil_r; reflexivity|].
      intros _. split; reflexivity.
  - eexists. split; [reflexivity|].
    split; [eexists; reflexivity|]. intros H. discriminate.
Qed.

Lemma for_each_within (dt : dtype) (batch heads dim : nat) (seqs : list nat) :
  forall s,
    exists p,
      calls (snd (for_each seqs (bench_seq benchmark a dt batch heads dim) s))
      = calls s ++ p /\
      prefix_of p (calls_from a dt batch heads dim (draws s) seqs) /\
      (fst (for_each seqs (bench_seq benchmark a dt batch heads dim) s) = Ok tt ->
       p = calls_from a dt batch heads dim (draws s) seqs /\
       draws (snd (for_each seqs (bench_seq benchmark a dt batch heads dim) s))
       = 3 * length seqs + draws s).
Proof.
  induction seqs as [|seq seqs IH]; intros s.
  - exists []. cbn [for_each calls_from]. unfold ret. cbn [fst snd length].
    rewrite app_nil_r. split; [reflexivity|].
    split; [exists []; reflexivity|]. intros _. split; reflexivity.
  - cbn [for_each calls_from]. unfold seq_ at 1 2 3.
    destruct (bench_seq_within dt batch heads dim seq s) as (p1 & Hc1 & [q1 Hq1] & Hok1).
    destruct (bench_seq benchmark a dt batch heads dim seq s) as [[[]|e] s1];
      cbn [fst snd] in *.
    + destruct (Hok1 eq_refl) as [-> Hd1].
      destruct (IH s1) as (p2 & Hc2 & [q2 Hq2] & Hok2).
      exists (calls_at a dt batch heads dim seq (draws s) ++ p2).
      rewrite Hc2, Hc1, <- app_assoc. split; [reflexivity|].
      rewrite Hd1 in Hq2, Hok2. split.
      * exists q2. rewrite Hq2, <- app_assoc. reflexivity.
      * intros Hok. destruct (Hok2 Hok) as [-> Hd2].
        split; [reflexivity|]. rewrite Hd2. cbn [length]. lia.
    + exists p1. split; [exact Hc1|].
      split; [|intros H; discriminate].
      exists (q1 ++ calls_from a dt batch heads dim (3 + draws s) seqs).
      rewrite Hq1, <- app_assoc. reflexivity.
Qed.

Lemma seq_ret_tt (c : script unit) (s : state) :
  seq_ c (fun _ => ret tt) s = c s.
Proof. unfold seq_, ret. destruct (c s) as [[[]|e] s']; reflexivity. Qed.

Lemma seq_print {B} (l : line) (k : unit -> script B) (s : state) :
  seq_ (print l) k s = k tt (State (stdout s ++ [l]) (calls s) (draws s)).
Proof. reflexivity. Qed.

Lemma bench_dtype_within (dt : dtype) (s : state) :
  exists p,
    calls (snd (bench_dtype benchmark a dt s)) = calls s ++ p /\
    prefix_of p (if TEST_BACKWARDS a && dtype_eqb dt float16 then []
                 else calls_from a dt BATCH_SIZES HEADS DIM (draws s)
                                 TEST_SEQUENCE_LENGTHS) /\
    (fst (bench_dtype benchmark a dt s) = Ok tt ->
     p = (if TEST_BACKWARDS a && dtype_eqb dt float16 then []
          else calls_from a dt BATCH_SIZES HEADS DIM (draws s) TEST_SEQUENCE_LENGTHS) /\
     draws (snd (bench_dtype benchmark a dt s))
     = (if TEST_BACKWARDS a && dtype_eqb dt float16 then 0 else 18) + draws s).
Proof.
  unfold bench_dtype.
  destruct (TEST_BACKWARDS a && dtype_eqb dt float16).
  - exists []. unfold ret. cbn [fst snd]. rewrite app_nil_r.
    split; [reflexivity|]. split; [exists []; reflexivity|].
    intros _. split; reflexivity.
  - change permutations with [[BATCH_SIZES; HEADS; DIM]].
    cbn [for_each bench_permutation]. rewrite seq_ret_tt, !seq_print.
    cbn [stdout calls draws].
    set (s3 := State (((stdout s ++ [Rule]) ++ [Header dt BATCH_SIZES HEADS DIM])
                      ++ [Rule]) (calls s) (draws s)).
    destruct (for_each_within dt BATCH_SIZES HEADS DIM TEST_SEQUENCE_LENGTHS s3)
      as (p & Hc & Hq & Hok).
    destruct (for_each TEST_SEQUENCE_LENGTHS
                (bench_seq benchmark a dt BATCH_SIZES HEADS DIM) s3) as [[[]|e] s4];
      cbn [fst snd] in *; exists p; (split; [exact Hc|]); (split; [exact Hq|]).
    + intros _. destruct (Hok eq_refl) as [-> Hd]. split; [reflexivity|exact Hd].
    + intros H. discriminate.
Qed.

Lemma main_two_dtypes :
  cuda_available = true ->
  only_forwards a && only_backwards a = false ->
  main cuda_available benchmark a initial =
  match bench_dtype benchmark a float32 initial with
  | (Ok _, s1) => bench_dtype benchmark a float16 s1
  | (Raise e, s1) => (Raise e, s1)
  end.
Proof.
  intros -> Hflags. unfold main. rewrite Hflags. cbn [negb for_each].
  unfold seq_, ret.
  destruct (bench_dtype benchmark a float32 initial) as [[[]|e] s1]; [|reflexivity].
  destruct (bench_dtype benchmark a float16 s1) as [[[]|e] s2]; reflexivity.
Qed.

(** X18.  Whatever the timed callables do and however the run ends, the calls the
    script has made are an initial part of the sweep's calls, in the sweep's
    order; a run that reaches the end of the script has made all of them.
    Nothing outside the sweep is ever timed. *)
Theorem timed_calls_within_sweep :
  (exists rest,
     sweep_calls a = calls (snd (main cuda_available benchmark a initial)) ++ rest) /\
  (fst (main cuda_available benchmark a initial) = Ok tt ->
   calls (snd (main cuda_available benchmark a initial)) = sweep_calls a).
Proof.
  assert (Hcuda : cuda_available = true \/ cuda_available = false)
    by (destruct cuda_available; auto).
  destruct Hcuda as [Hcuda|Hcuda].
  2:{ rewrite assertions_stop_early by (left; exact Hcuda). cbn [fst snd calls initial].
      split; [eexists; reflexivity|intros H; discriminate]. }
  destruct (only_forwards a && only_backwards a) eqn:Hflags.
  { rewrite assertions_stop_early by (right; exact Hflags). cbn [fst snd calls initial].
    split; [eexists; reflexivity|intros H; discriminate]. }
  rewrite (main_two_dtypes Hcuda Hflags), sweep_calls_eq.
  destruct (bench_dtype_within float32 initial) as (p1 & Hc1 & [q1 Hq1] & Hok1).
  replace (TEST_BACKWARDS a && dtype_eqb float32 float16) with false in *
    by (symmetry; apply andb_false_r).
  cbn [calls draws initial app] in Hc1, Hq1, Hok1.
  destruct (bench_dtype benchmark a float32 initial) as [[[]|e] s1];
    cbn [fst snd] in *.
  - destruct (Hok1 eq_refl) as [-> Hd1].
    destruct (bench_dtype_within float16 s1) as (p2 & Hc2 & [q2 Hq2] & Hok2).
    rewrite Hd1 in Hq2, Hok2. rewrite Nat.add_0_r in Hq2, Hok2.
    assert (Hskip : TEST_BACKWARDS a && dtype_eqb float16 float16
                    = negb (only_forwards a)).
    { unfold TEST_BACKWARDS. apply andb_true_r. }
    rewrite Hskip in Hq2, Hok2.
    destruct (bench_dtype benchmark a float16 s1) as [[[]|e] s2];
      cbn [fst snd] in *; rewrite Hc2, Hc1.
    + destruct (Hok2 eq_refl) as [-> _].
      destruct (only_forwards a); cbn [negb];
        (split; [exists []; rewrite app_nil_r; reflexivity|intros _; reflexivity]).
    + split; [|intros H; discriminate].
      destruct (only_forwards a); cbn [negb] in Hq2 |- *.
      * exists q2. rewrite Hq2, app_assoc. reflexivity.
      * destruct p2; [|discriminate]. rewrite !app_nil_r.
        exists []. rewrite app_nil_r. reflexivity.
  - rewrite Hc1. split; [|intros H; discriminate].
    exists (q1 ++ (if only_forwards a
                   then calls_from a float16 BATCH_SIZES HEADS DIM 18 TEST_SEQUENCE_LENGTHS
                   else [])).
    rewrite Hq1, <- app_assoc. reflexivity.
Qed.

End Runs.

(** ** The theorems at concrete inputs *)

Import Examples.

(** Both flags at once. *)
Lemma assertions_stop_the_script_witness :
  main true steady (Args false true true) initial = (Raise AssertionError, initial).
Proof.
  apply (@assertions_stop_the_script true steady (Args false true true)).
  right. reflexivity.
Defined.

(** A reference call timed at 0 ms, forwards only. *)
Lemma zero_baseline_time_divides_by_zero_witness :
  exists st,
    main true zero_baseline (Args false true false) initial = (Raise ZeroDivisionError, st) /\
    filter is_row (stdout st) = [] /\ length (calls st) = 2.
Proof.
  apply (@zero_baseline_time_divides_by_zero zero_baseline (Args false true false) 1%Q 0%Q);
    reflexivity.
Defined.

End BenchmarkMore.
